(** * Leadership Blog CMS: persistence and export pipeline

    A shallow embedding of the [LeadershipBlogCMS] class: the word counter,
    the Markdown and clean-HTML exporters, and the article repository kept
    in [localStorage], followed by the properties of each.

    Conventions.
    - A JavaScript string is a [string]; each character stands for one code
      unit in the range U+0000..U+00FF.  The text algorithms run on the
      list of code units ([list ascii]).
    - The regular expressions of the source are values of a small regex
      type interpreted by a backtracking matcher with JavaScript's
      priorities (greedy [*] and [+], lazy [*?], leftmost match).
    - The object state ([this.*]), [localStorage], the form fields and the
      answers of the environment (confirm dialogs, clock, random numbers)
      live in one [World] threaded by a state-and-exception monad. *)

From Stdlib Require Import ZArith Ascii String.
From stdpp Require Import base tactics option list sorting strings pretty.

Local Open Scope string_scope.
Local Open Scope list_scope.

#[local] Arguments String.append !s1 s2 /.
#[local] Arguments Ascii.eqb : simpl never.

(** ** JavaScript strings *)

Module JsString.

Abbreviation chars := list_ascii_of_string.
Abbreviation str := string_of_list_ascii.

(** [WhiteSpace] and [LineTerminator] code points below U+0100: TAB, LF,
    VT, FF, CR, SPACE and NBSP.  [String.prototype.trim] and the regex
    class [\s] use the same set. *)
Definition isWhiteSpace (c : ascii) : bool :=
  match nat_of_ascii c with
  | 9 | 10 | 11 | 12 | 13 | 32 | 160 => true
  | _ => false
  end.

(** Line terminators below U+0100 (what [.] refuses to match). *)
Definition isLineTerminator (c : ascii) : bool :=
  match nat_of_ascii c with
  | 10 | 13 => true
  | _ => false
  end.

Fixpoint trimStart (s : list ascii) : list ascii :=
  match s with
  | c :: s' => if isWhiteSpace c then trimStart s' else s
  | [] => []
  end.

Definition trimEnd (s : list ascii) : list ascii :=
  rev (trimStart (rev s)).

Definition trim_chars (s : list ascii) : list ascii :=
  trimEnd (trimStart s).

(** [s.trim()] *)
Definition trim (s : string) : string := str (trim_chars (chars s)).

(** Truthiness of a string: every string but the empty one. *)
Definition truthy (s : string) : bool :=
  match s with
  | EmptyString => false
  | String _ _ => true
  end.

(** ASCII upper-casing, the canonicalisation of the [i] flag on the
    ASCII literals of the source's patterns. *)
Definition upper (c : ascii) : ascii :=
  let n := nat_of_ascii c in
  if (97 <=? n)%nat && (n <=? 122)%nat then ascii_of_nat (n - 32) else c.

(** [a > b] on two strings: code-unit-wise lexicographic order. *)
Definition gt (a b : string) : bool :=
  match String.compare a b with
  | Gt => true
  | _ => false
  end.

End JsString.

(** ** Regular expressions *)

Module Regex.
Import JsString.

Inductive charclass : Type :=
| CAny                       (* .      *)
| CSpace                     (* \s     *)
| CNot (c : ascii)           (* [^c]   *)
| CChar (c : ascii).         (* c      *)

Definition in_class (cl : charclass) (c : ascii) : bool :=
  match cl with
  | CAny => negb (isLineTerminator c)
  | CSpace => isWhiteSpace c
  | CNot d => negb (Ascii.eqb c d)
  | CChar d => Ascii.eqb c d
  end.

Inductive item : Type :=
| Lit (l : string)           (* literal text              *)
| Star (cl : charclass)      (* cl*   greedy              *)
| Plus (cl : charclass)      (* cl+   greedy              *)
| Group (cl : charclass).    (* (cl*?) lazy and capturing *)

(** A pattern is a sequence of items; the source has no alternation and
    at most one group per pattern. *)
Definition regex := list item.

Definition char_eq (icase : bool) (a b : ascii) : bool :=
  if icase then Ascii.eqb (upper a) (upper b) else Ascii.eqb a b.

(** Remove the literal [l] from the front of [s]. *)
Fixpoint strip_lit (icase : bool) (l s : list ascii) : option (list ascii) :=
  match l, s with
  | [], _ => Some s
  | a :: l', b :: s' => if char_eq icase a b then strip_lit icase l' s' else None
  | _ :: _, [] => None
  end.

Definition bump (k : nat) (r : option (nat * list ascii)) : option (nat * list ascii) :=
  match r with
  | Some (n, cap) => Some (k + n, cap)
  | None => None
  end.

(** Greedy [cl*] followed by the continuation [k]: take as many code
    units as the class allows, give them back one by one until [k]
    matches. *)
Fixpoint star_match (cl : charclass) (k : list ascii -> option (nat * list ascii))
    (s : list ascii) {struct s} : option (nat * list ascii) :=
  match s with
  | c :: s' =>
      if in_class cl c then
        match star_match cl k s' with
        | Some (n, cap) => Some (S n, cap)
        | None => k s
        end
      else k s
  | [] => k []
  end.

(** Lazy capturing [(cl*?)] followed by [k]: try [k] first, take one more
    code unit only when it fails. *)
Fixpoint lazy_match (cl : charclass) (k : list ascii -> option (nat * list ascii))
    (s : list ascii) {struct s} : option (nat * list ascii) :=
  match k s with
  | Some (n, _) => Some (n, [])
  | None =>
      match s with
      | c :: s' =>
          if in_class cl c then
            match lazy_match cl k s' with
            | Some (n, cap) => Some (S n, c :: cap)
            | None => None
            end
          else None
      | [] => None
      end
  end.

(** [re_match icase r s]: match [r] at the start of [s]; the result is
    the length of the match and the text captured by the group (empty
    when the pattern has none). *)
Fixpoint re_match (icase : bool) (r : regex) {struct r}
  : list ascii -> option (nat * list ascii) :=
  match r with
  | [] => fun _ => Some (0, [])
  | Lit l :: r' => fun s =>
      match strip_lit icase (chars l) s with
      | Some rest => bump (String.length l) (re_match icase r' rest)
      | None => None
      end
  | Star cl :: r' => star_match cl (re_match icase r')
  | Plus cl :: r' => fun s =>
      match s with
      | c :: s' =>
          if in_class cl c
          then bump 1 (star_match cl (re_match icase r') s')
          else None
      | [] => None
      end
  | Group cl :: r' => lazy_match cl (re_match icase r')
  end.

(** [s.replace(/r/g, rep)]: scan left to right; at a match emit the
    replacement and resume after it.  [skip] counts the code units of
    the current match still to be passed over.  After an empty match
    the scan copies one code unit and moves on. *)
Fixpoint replace_go (m : list ascii -> option (nat * list ascii))
    (rep : list ascii -> list ascii) (skip : nat) (s : list ascii) {struct s}
  : list ascii :=
  match s with
  | [] =>
      match skip with
      | 0 => match m [] with Some (_, cap) => rep cap | None => [] end
      | S _ => []
      end
  | c :: s' =>
      match skip with
      | S k => replace_go m rep k s'
      | 0 =>
          match m s with
          | Some (S n, cap) => rep cap ++ replace_go m rep n s'
          | Some (0, cap) => rep cap ++ c :: replace_go m rep 0 s'
          | None => c :: replace_go m rep 0 s'
          end
      end
  end.

(** Replacement templates: [before $1 after], or plain text. *)
Definition template (before after : string) (cap : list ascii) : list ascii :=
  chars before ++ cap ++ chars after.

Definition replaceAll (icase : bool) (r : regex)
    (rep : list ascii -> list ascii) (s : list ascii) : list ascii :=
  replace_go (re_match icase r) rep 0 s.

(** [s.split(/r/)] for a pattern without groups: the pieces between the
    matches.  [cur] is the piece being collected, reversed. *)
Fixpoint split_go (m : list ascii -> option (nat * list ascii))
    (skip : nat) (cur : list ascii) (s : list ascii) {struct s}
  : list (list ascii) :=
  match s with
  | [] => [rev cur]
  | c :: s' =>
      match skip with
      | S k => split_go m k cur s'
      | 0 =>
          match m s with
          | Some (S n, _) => rev cur :: split_go m n [] s'
          | Some (0, _) =>
              match cur with
              | [] => split_go m 0 [c] s'
              | _ :: _ => rev cur :: split_go m 0 [c] s'
              end
          | None => split_go m 0 (c :: cur) s'
          end
      end
  end.

Definition split (r : regex) (s : list ascii) : list (list ascii) :=
  match s with
  | [] => match re_match false r [] with Some _ => [] | None => [[]] end
  | _ :: _ => split_go (re_match false r) 0 [] s
  end.

End Regex.

(** ** Word count *)

Import JsString Regex.

(** The separator of [calculateWordCount], as written in the source:
    [/\\s+/], a backslash followed by one or more letters [s]. *)
Definition wordSeparator : regex := [Lit "\"; Plus (CChar "s")].

(** The separator its documentation describes: [/\s+/]. *)
Definition whitespaceRun : regex := [Plus CSpace].

(** [calculateWordCount(text)]:
    [text.trim() ? text.trim().split(/\\s+/).length : 0] *)
Definition calculateWordCount (text : string) : nat :=
  if truthy (trim text)
  then length (split wordSeparator (chars (trim text)))
  else 0.

(** The word count of the specification: trim, 0 on empty text,
    otherwise the number of segments between runs of whitespace. *)
Definition wordCount_spec (text : string) : nat :=
  if truthy (trim text)
  then length (split whitespaceRun (chars (trim text)))
  else 0.



(** ** Article data *)

(** The line feed, [\n] in the source's string literals. *)
Definition LF : ascii := "010"%char.
Definition nl : string := String LF "".

(** What [gatherArticleData] collects from the form and the editor. *)
Record ArticleData : Type := mkArticleData {
  d_title : string;
  d_author : string;
  d_category : string;
  d_summary : string;
  d_publicationDate : string;
  d_content : string;
  d_htmlContent : string;
  d_wordCount : nat
}.

(** ** Markdown export *)

Definition re_h1 : regex := [Lit "<h1"; Star (CNot ">"); Lit ">"; Group CAny; Lit "</h1>"].
Definition re_h2 : regex := [Lit "<h2"; Star (CNot ">"); Lit ">"; Group CAny; Lit "</h2>"].
Definition re_h3 : regex := [Lit "<h3"; Star (CNot ">"); Lit ">"; Group CAny; Lit "</h3>"].
Definition re_strong : regex :=
  [Lit "<strong"; Star (CNot ">"); Lit ">"; Group CAny; Lit "</strong>"].
Definition re_em : regex := [Lit "<em"; Star (CNot ">"); Lit ">"; Group CAny; Lit "</em>"].
Definition re_p : regex := [Lit "<p"; Star (CNot ">"); Lit ">"; Group CAny; Lit "</p>"].
Definition re_br : regex := [Lit "<br"; Star (CNot ">"); Lit ">"].
Definition re_tag : regex := [Lit "<"; Star (CNot ">"); Lit ">"].

(** The chain of [content.replace(...)] calls of [generateMarkdown]. *)
Definition htmlToMarkdown (html : string) : string :=
  let content := chars html in
  let content := replaceAll true re_h1 (template "# " nl) content in
  let content := replaceAll true re_h2 (template "## " nl) content in
  let content := replaceAll true re_h3 (template "### " nl) content in
  let content := replaceAll true re_strong (template "**" "**") content in
  let content := replaceAll true re_em (template "*" "*") content in
  let content := replaceAll true re_p (template "" (nl +:+ nl)) content in
  let content := replaceAll true re_br (fun _ => chars nl) content in
  let content := replaceAll false re_tag (fun _ => []) content in
  str content.

(** [generateMarkdown(articleData)] *)
Definition generateMarkdown (a : ArticleData) : string :=
  let markdown := "# " +:+ d_title a +:+ nl +:+ nl in
  let markdown :=
    if truthy (d_author a)
    then markdown +:+ ("**Author:** " +:+ d_author a +:+ nl) else markdown in
  let markdown :=
    if truthy (d_publicationDate a)
    then markdown +:+ ("**Date:** " +:+ d_publicationDate a +:+ nl) else markdown in
  let markdown :=
    if truthy (d_category a)
    then markdown +:+ ("**Category:** " +:+ d_category a +:+ nl) else markdown in
  let markdown :=
    if truthy (d_summary a)
    then markdown +:+ (nl +:+ "**Summary:** " +:+ d_summary a +:+ nl) else markdown in
  let markdown := markdown +:+ (nl +:+ "---" +:+ nl +:+ nl) in
  if truthy (d_htmlContent a)
  then markdown +:+ htmlToMarkdown (d_htmlContent a)
  else markdown +:+ d_content a.

(** An optional line of the metadata header. *)
Definition optionalLine (label value : string) : string :=
  if truthy value then label +:+ value +:+ nl else "".

(** Reading a Markdown document back: its lines, the title line with the
    heading marker removed, and the metadata block above the rule. *)
Fixpoint lines (s : string) : list string :=
  match s with
  | EmptyString => [""]
  | String c s' =>
      if Ascii.eqb c LF then "" :: lines s'
      else match lines s' with
           | l :: ls => String c l :: ls
           | [] => [String c ""]
           end
  end.

Fixpoint stripPrefix (p s : string) : option string :=
  match p, s with
  | EmptyString, _ => Some s
  | String a p', String b s' => if Ascii.eqb a b then stripPrefix p' s' else None
  | String _ _, EmptyString => None
  end.

Definition startsWith (p s : string) : bool :=
  match stripPrefix p s with Some _ => true | None => false end.

(** The first line, without its ["# "] marker. *)
Definition extractTitle (markdown : string) : option string :=
  match lines markdown with
  | l :: _ => stripPrefix "# " l
  | [] => None
  end.

Fixpoint beforeRule (ls : list string) : list string :=
  match ls with
  | [] => []
  | l :: ls' => if String.eqb l "---" then [] else l :: beforeRule ls'
  end.

(** The lines above the first [---] line. *)
Definition metadataBlock (markdown : string) : list string :=
  beforeRule (lines markdown).

(** No line feed in [s]. *)
Fixpoint singleLine (s : string) : bool :=
  match s with
  | EmptyString => true
  | String c s' => negb (Ascii.eqb c LF) && singleLine s'
  end.

(** ** The world of the CMS *)

(** An article as stored in the [leadershipBlogArticles] collection. *)
Record Article : Type := mkArticle {
  id : string;
  title : string;
  author : string;
  category : string;
  summary : string;
  publicationDate : string;
  content : string;
  htmlContent : string;
  wordCount : nat;
  createdAt : string;
  updatedAt : string
}.

(** The value under the collection key of [localStorage]: nothing, the
    JSON text of an array of articles, or text that [JSON.parse] refuses. *)
Inductive Slot : Type :=
| Absent
| Stored (l : list Article)
| Corrupt (raw : string).

(** The auto-save slot: the gathered data and its [timestamp]. *)
Record AutoSave : Type := mkAutoSave {
  as_data : ArticleData;
  as_timestamp : string
}.

(** The Quill editor as the CMS sees it: [quill.root.innerHTML] and
    [quill.getText()]. *)
Record QuillDoc : Type := mkQuillDoc {
  innerHTML : string;
  getText : string
}.

(** The dialogs of [confirm(...)]. *)
Inductive Dialog : Type :=
| AskOverwrite                 (* This article has been modified elsewhere. Overwrite changes? *)
| AskDiscardForLoad            (* You have unsaved changes. ... load a different article? *)
| AskRestore (n : nat).        (* Restore n articles? This will overwrite existing articles. *)

(** Everything the run-time and the user decide.  Each read of the
    clock, of the random generator, of a dialog or of the storage quota
    takes the answer numbered by the world's [tick]. *)
Record Environment : Type := mkEnvironment {
  confirmAnswer : nat -> Dialog -> bool;   (* confirm(...)                                *)
  dateNow : nat -> Z;                      (* Date.now()                                  *)
  isoNow : nat -> string;                  (* new Date().toISOString()                    *)
  randomSuffix : nat -> string;            (* Math.random().toString(36).substr(2, 9)     *)
  quotaExceeded : nat -> bool;             (* localStorage.setItem throws                 *)
  usagePercent : nat -> Z;                 (* the percentage updateStorageUsage computes  *)
  dateValue : string -> option Z;          (* new Date(s) as a number; None is NaN        *)
  quillFromHTML : string -> QuillDoc;      (* the editor after root.innerHTML = s         *)
  quillFromText : string -> QuillDoc       (* the editor after setText(s)                 *)
}.

(** [this.*] *)
Record Cms : Type := mkCms {
  articles : list Article;
  filteredArticles : list Article;
  currentArticle : option Article;
  isModified : bool;
  conflictResolution : string
}.

(** The form fields, the editor, and what the page shows. *)
Record Page : Type := mkPage {
  articleTitle : string;
  articleAuthor : string;
  articleCategory : string;
  articleSummary : string;
  publicationDateInput : string;
  quill : option QuillDoc;
  notifications : list (string * string);    (* showNotification(message, type), latest first *)
  lastSaved : string                         (* the status bar *)
}.

Record World : Type := mkWorld {
  env : Environment;
  tick : nat;
  storedArticles : Slot;                     (* localStorage[this.storageKey]  *)
  autoSaved : option AutoSave;               (* localStorage[this.autoSaveKey] *)
  cms : Cms;
  page : Page
}.

Definition with_tick (n : nat) (w : World) : World :=
  mkWorld (env w) n (storedArticles w) (autoSaved w) (cms w) (page w).
Definition with_storedArticles (s : Slot) (w : World) : World :=
  mkWorld (env w) (tick w) s (autoSaved w) (cms w) (page w).
Definition with_autoSaved (a : option AutoSave) (w : World) : World :=
  mkWorld (env w) (tick w) (storedArticles w) a (cms w) (page w).
Definition with_cms (c : Cms) (w : World) : World :=
  mkWorld (env w) (tick w) (storedArticles w) (autoSaved w) c (page w).
Definition with_page (p : Page) (w : World) : World :=
  mkWorld (env w) (tick w) (storedArticles w) (autoSaved w) (cms w) p.

Definition with_articles (l : list Article) (c : Cms) : Cms :=
  mkCms l (filteredArticles c) (currentArticle c) (isModified c) (conflictResolution c).
Definition with_filteredArticles (l : list Article) (c : Cms) : Cms :=
  mkCms (articles c) l (currentArticle c) (isModified c) (conflictResolution c).
Definition with_currentArticle (a : option Article) (c : Cms) : Cms :=
  mkCms (articles c) (filteredArticles c) a (isModified c) (conflictResolution c).
Definition with_isModified (b : bool) (c : Cms) : Cms :=
  mkCms (articles c) (filteredArticles c) (currentArticle c) b (conflictResolution c).

Definition with_notification (n : string * string) (p : Page) : Page :=
  mkPage (articleTitle p) (articleAuthor p) (articleCategory p) (articleSummary p)
    (publicationDateInput p) (quill p) (n :: notifications p) (lastSaved p).
Definition with_lastSaved (s : string) (p : Page) : Page :=
  mkPage (articleTitle p) (articleAuthor p) (articleCategory p) (articleSummary p)
    (publicationDateInput p) (quill p) (notifications p) s.
Definition with_fields (t a c s d : string) (q : option QuillDoc) (p : Page) : Page :=
  mkPage t a c s d q (notifications p) (lastSaved p).

(** ** The monad of the methods: state and exceptions *)

Inductive Completion (A : Type) : Type :=
| Normal (a : A)
| Throw (error : string).
Arguments Normal {A} a.
Arguments Throw {A} error.

Definition M (A : Type) : Type := World -> Completion A * World.

#[global] Instance M_ret : MRet M := fun A a w => (Normal a, w).
#[global] Instance M_bind : MBind M := fun A B f m w =>
  match m w with
  | (Normal a, w') => f a w'
  | (Throw e, w') => (Throw e, w')
  end.

Definition gets {A : Type} (f : World -> A) : M A := fun w => (Normal (f w), w).
Definition modify (f : World -> World) : M unit := fun w => (Normal tt, f w).
Definition throw {A : Type} (e : string) : M A := fun w => (Throw e, w).

(** [try { m } catch (error) { h error }] *)
Definition try_catch {A : Type} (m : M A) (h : string -> M A) : M A := fun w =>
  match m w with
  | (Normal a, w') => (Normal a, w')
  | (Throw e, w') => h e w'
  end.

(** One answer of the environment. *)
Definition ask {A : Type} (f : Environment -> nat -> A) : M A := fun w =>
  (Normal (f (env w) (tick w)), with_tick (S (tick w)) w).

Definition confirm (d : Dialog) : M bool := ask (fun e n => confirmAnswer e n d).

Definition result {A : Type} (m : M A) (w : World) : Completion A := fst (m w).
Definition after {A : Type} (m : M A) (w : World) : World := snd (m w).

(** ** Helpers of the class *)

(** [showNotification(message, type)] *)
Definition showNotification (message type : string) : M unit :=
  modify (fun w => with_page (with_notification (message, type) (page w)) w).

(** [handleError(message, error)] *)
Definition handleError (message error : string) : M unit :=
  showNotification (message +:+ ". Please try again.") "error".

(** [updateStatus(status)]: [statusText[status] || status] in the status
    bar (the delayed reset to [Saved] is a timer and is left out). *)
Definition updateStatus (status : string) : M unit :=
  let text :=
    if String.eqb status "new" then "New article"
    else if String.eqb status "editing" then "Editing..."
    else if String.eqb status "saved" then "Saved"
    else if String.eqb status "auto-saved" then "Auto-saved"
    else if String.eqb status "loaded" then "Loaded"
    else if String.eqb status "error" then "Error"
    else status in
  modify (fun w => with_page (with_lastSaved text (page w)) w).

(** [generateArticleId()]:
    ['article_' + Date.now() + '_' + Math.random().toString(36).substr(2, 9)] *)
Definition generateArticleId : M string :=
  now ← ask dateNow;
  suffix ← ask randomSuffix;
  mret ("article_" +:+ pretty now +:+ "_" +:+ suffix).

(** [new Date().toISOString()] *)
Definition newDateISO : M string := ask isoNow.

(** [s.split('T')[0]] *)
Fixpoint beforeT (s : string) : string :=
  match s with
  | EmptyString => ""
  | String c s' => if Ascii.eqb c "T" then "" else String c (beforeT s')
  end.

(** ** Article repository *)

(** [getStoredArticles()]: the parsed collection, or the empty array when
    the key is absent or its text does not parse. *)
Definition parseStored (s : Slot) : list Article :=
  match s with
  | Stored l => l
  | Absent | Corrupt _ => []
  end.

Definition getStoredArticles : M (list Article) :=
  gets (fun w => parseStored (storedArticles w)).

(** [localStorage.setItem(this.storageKey, JSON.stringify(articles))] *)
Definition setStoredArticles (l : list Article) : M unit :=
  full ← ask quotaExceeded;
  if full : bool then throw "QuotaExceededError"
  else modify (with_storedArticles (Stored l)).

(** The comparator [(a, b) => new Date(b.updatedAt) - new Date(a.updatedAt)];
    [None] is [NaN]. *)
Definition compareUpdatedAt (e : Environment) (a b : Article) : option Z :=
  match dateValue e (updatedAt b), dateValue e (updatedAt a) with
  | Some tb, Some ta => Some (tb - ta)%Z
  | _, _ => None
  end.

(** Whether the comparator's value puts its second argument first:
    positive; [NaN] counts as [+0]. *)
Definition positive (v : option Z) : bool :=
  match v with
  | Some z => (0 <? z)%Z
  | None => false
  end.

Fixpoint sortInsert (cmp : Article -> Article -> option Z) (x : Article)
    (l : list Article) : list Article :=
  match l with
  | [] => [x]
  | y :: l' => if positive (cmp x y) then y :: sortInsert cmp x l' else x :: l
  end.

(** [Array.prototype.sort(cmp)], as the stable insertion sort.  With a
    consistent comparator every conforming engine returns this array;
    with an inconsistent one (a [NaN] among the dates) the order is left
    to the engine and this is one of the permitted results. *)
Fixpoint arraySort (cmp : Article -> Article -> option Z) (l : list Article)
  : list Article :=
  match l with
  | [] => []
  | x :: l' => sortInsert cmp x (arraySort cmp l')
  end.

(** [clearAutoSave()] *)
Definition clearAutoSave : M unit := modify (with_autoSaved None).

(** [updateStorageUsage()] *)
Definition updateStorageUsage : M unit :=
  percent ← ask usagePercent;
  if (80 <? percent)%Z
  then showNotification "Storage is getting full. Consider backing up articles." "warning"
  else mret tt.

(** [loadArticles()]; the rendering of the list is not part of the model. *)
Definition loadArticles : M unit :=
  try_catch
    (l ← getStoredArticles;
     modify (fun w => with_cms (with_filteredArticles l (with_articles l (cms w))) w))
    (handleError "Failed to load articles").

(** The tail of [saveToStorage]: sort, write, reload. *)
Definition writeCollection (arts : list Article) : M bool :=
  e ← gets env;
  let sorted := arraySort (compareUpdatedAt e) arts in
  setStoredArticles sorted;;
  loadArticles;;
  clearAutoSave;;
  updateStorageUsage;;
  mret true.

(** [saveToStorage(article)] *)
Definition saveToStorage (article : Article) : M bool :=
  try_catch
    (arts ← getStoredArticles;
     policy ← gets (fun w => conflictResolution (cms w));
     match list_find (fun a => id a = id article) arts with
     | Some (existingIndex, existing) =>
         if gt (updatedAt existing) (updatedAt article) && String.eqb policy "ask"
         then
           overwrite ← confirm AskOverwrite;
           if overwrite : bool
           then writeCollection (<[existingIndex := article]> arts)
           else showNotification "Save cancelled due to conflict" "warning";; mret false
         else writeCollection (<[existingIndex := article]> arts)
     | None => writeCollection (arts ++ [article])
     end)
    (fun error => handleError "Failed to save article" error;; mret false).

(** A sequence of [put] calls. *)
Fixpoint saveAll (l : list Article) : M unit :=
  match l with
  | [] => mret tt
  | a :: l' => saveToStorage a;; saveAll l'
  end.

(** ** Editor session *)

(** [gatherArticleData()] *)
Definition gatherArticleData : M ArticleData :=
  gets (fun w =>
    let p := page w in
    let htmlContent := match quill p with Some q => innerHTML q | None => "" end in
    let content := match quill p with Some q => getText q | None => "" end in
    let wordCount := calculateWordCount content in
    mkArticleData (articleTitle p) (articleAuthor p) (articleCategory p)
      (articleSummary p) (publicationDateInput p) content htmlContent wordCount).

(** [loadArticleData(article)]; the statistics and the list are views and
    are not part of the model. *)
Definition loadArticleData (article : Article) : M unit :=
  modified ← gets (fun w => isModified (cms w));
  proceed ← (if modified : bool then confirm AskDiscardForLoad else mret true);
  if proceed : bool then
    today ← (if truthy (publicationDate article)
             then mret (publicationDate article)
             else iso ← newDateISO; mret (beforeT iso));
    modify (fun w =>
      let e := env w in
      let p := page w in
      let q :=
        match quill p with
        | Some q0 =>
            if truthy (htmlContent article) then Some (quillFromHTML e (htmlContent article))
            else if truthy (content article) then Some (quillFromText e (content article))
            else Some q0
        | None => None
        end in
      with_page (with_fields (title article) (author article) (category article)
                   (summary article) today q p) w);;
    modify (fun w =>
      with_cms (with_isModified false (with_currentArticle (Some article) (cms w))) w);;
    updateStatus "loaded";;
    showNotification ("Article " +:+ String "034" (title article)
                        +:+ String "034" " loaded successfully") "success"
  else mret tt.

(** [saveArticle()]; moving the focus and the console log are left out. *)
Definition saveArticle : M unit :=
  articleData ← gatherArticleData;
  if negb (truthy (trim (d_title articleData))) then
    showNotification "Please enter a title for your article" "warning"
  else if negb (truthy (trim (d_content articleData))) then
    showNotification "Please write some content for your article" "warning"
  else
    current ← gets (fun w => currentArticle (cms w));
    newId ← match current with
            | Some c => if truthy (id c) then mret (id c) else generateArticleId
            | None => generateArticleId
            end;
    created ← match current with
              | Some c => if truthy (createdAt c) then mret (createdAt c) else newDateISO
              | None => newDateISO
              end;
    updated ← newDateISO;
    let article :=
      mkArticle newId (d_title articleData) (d_author articleData)
        (d_category articleData) (d_summary articleData)
        (d_publicationDate articleData) (d_content articleData)
        (d_htmlContent articleData) (d_wordCount articleData) created updated in
    saved ← saveToStorage article;
    if saved : bool then
      modify (fun w =>
        with_cms (with_isModified false (with_currentArticle (Some article) (cms w))) w);;
      updateStatus "saved";;
      showNotification "Article saved successfully!" "success"
    else mret tt.

(** The object literal of [duplicateArticle]:
    [{...article, id, title: `Copy of ${article.title}`, createdAt, updatedAt}] *)
Definition buildDuplicate (article : Article) : M Article :=
  newId ← generateArticleId;
  created ← newDateISO;
  updated ← newDateISO;
  mret (mkArticle newId ("Copy of " +:+ title article) (author article)
          (category article) (summary article) (publicationDate article)
          (content article) (htmlContent article) (wordCount article)
          created updated).

(** [duplicateArticle(articleId)], on the in-memory list [this.articles]. *)
Definition duplicateArticle (articleId : string) : M unit :=
  try_catch
    (arts ← gets (fun w => articles (cms w));
     match list_find (fun a => id a = articleId) arts with
     | None => showNotification "Article not found" "error"
     | Some (_, article) =>
         duplicate ← buildDuplicate article;
         saved ← saveToStorage duplicate;
         if saved : bool then
           loadArticleData duplicate;;
           showNotification "Article duplicated successfully" "success"
         else mret tt
     end)
    (handleError "Failed to duplicate article").

(** ** Backup and restore *)

#[local] Set Warnings "-register-all".

(** The values [JSON.parse] hands to [restoreFromBackup]; an array is an
    array of article records. *)
Inductive JSValue : Type :=
| VUndefined
| VNull
| VBool (b : bool)
| VNumber (n : Z)
| VString (s : string)
| VArray (items : list Article)
| VObject (props : list (string * JSValue)).

(** The text of the chosen file, through [JSON.parse]. *)
Inductive FileText : Type :=
| NotJSON
| Json (v : JSValue).

(** An own property of a parsed object; a repeated key keeps its last
    value. *)
Fixpoint lookupProp (key : string) (props : list (string * JSValue)) : JSValue :=
  match props with
  | [] => VUndefined
  | (k, v) :: rest =>
      match lookupProp key rest with
      | VUndefined => if String.eqb k key then v else VUndefined
      | later => later
      end
  end.

(** [backup.articles]: a [TypeError] on [null] and [undefined], the own
    property on an object, [undefined] on anything else. *)
Definition getArticlesProp (backup : JSValue) : M JSValue :=
  match backup with
  | VUndefined | VNull => throw "TypeError"
  | VObject props => mret (lookupProp "articles" props)
  | _ => mret VUndefined
  end.

Definition toBoolean (v : JSValue) : bool :=
  match v with
  | VUndefined | VNull => false
  | VBool b => b
  | VNumber n => negb (n =? 0)%Z
  | VString s => truthy s
  | VArray _ | VObject _ => true
  end.

Definition isArray (v : JSValue) : bool :=
  match v with
  | VArray _ => true
  | _ => false
  end.

(** The [reader.onload] handler of [restoreFromBackup()]. *)
Definition restoreFromBackup (file : FileText) : M unit :=
  try_catch
    (backup ← match file with
              | NotJSON => throw "SyntaxError"
              | Json v => mret v
              end;
     arts ← getArticlesProp backup;
     if negb (toBoolean arts) || negb (isArray arts)
     then throw "Invalid backup format"
     else
       match arts with
       | VArray items =>
           restore ← confirm (AskRestore (length items));
           if restore : bool then
             setStoredArticles items;;
             loadArticles;;
             showNotification "Backup restored successfully" "success"
           else mret tt
       | _ => mret tt
       end)
    (handleError "Failed to restore backup").

(** [backupAllArticles()]: the object that is serialised. *)
Definition backupObject (arts : list Article) (exportDate : string) : JSValue :=
  VObject [("articles", VArray arts); ("exportDate", VString exportDate);
           ("version", VString "1.0")].

(** ** Clean HTML export *)

(** The double quote of the source's patterns. *)
Definition dq : string := String "034" "".

(* /class=Q[^Q]*ql-[^Q]*[^Q]*Q/g, writing Q for the double quote *)
Definition re_qlClass : regex :=
  [Lit ("class=" +:+ dq); Star (CNot "034"); Lit "ql-"; Star (CNot "034");
   Star (CNot "034"); Lit dq].
(* /\s*class\s*=\s*QQ\s*/g *)
Definition re_emptyClass : regex :=
  [Star CSpace; Lit "class"; Star CSpace; Lit "="; Star CSpace; Lit (dq +:+ dq);
   Star CSpace].
(* /style=Q[^Q]*ql-[^Q]*[^Q]*Q/g *)
Definition re_qlStyle : regex :=
  [Lit ("style=" +:+ dq); Star (CNot "034"); Lit "ql-"; Star (CNot "034");
   Star (CNot "034"); Lit dq].
(* /\s+/g *)
Definition re_spaces : regex := [Plus CSpace].
(* />\s+</g *)
Definition re_betweenTags : regex := [Lit ">"; Plus CSpace; Lit "<"].
(* /<p><br><\/p>/g *)
Definition re_brParagraph : regex := [Lit "<p><br></p>"].
(* /<p>\s*<\/p>/g *)
Definition re_emptyParagraph : regex := [Lit "<p>"; Star CSpace; Lit "</p>"].

Definition plain (s : string) : list ascii -> list ascii := fun _ => chars s.

(** The three attribute-removing passes of [cleanHTMLForExport]. *)
Definition stripQuillAttributes (html : list ascii) : list ascii :=
  let cleanHTML := replaceAll false re_qlClass (plain "") html in
  let cleanHTML := replaceAll false re_emptyClass (plain "") cleanHTML in
  replaceAll false re_qlStyle (plain "") cleanHTML.

(** Its whitespace and paragraph passes, and the final [trim]. *)
Definition normalizeMarkup (html : list ascii) : list ascii :=
  let cleanHTML := replaceAll false re_spaces (plain " ") html in
  let cleanHTML := replaceAll false re_betweenTags (plain "><") cleanHTML in
  let cleanHTML := replaceAll false re_brParagraph (plain "<p>&nbsp;</p>") cleanHTML in
  let cleanHTML := replaceAll false re_emptyParagraph (plain "<p>&nbsp;</p>") cleanHTML in
  trim_chars cleanHTML.

(** [cleanHTMLForExport(htmlContent)] *)
Definition cleanHTMLForExport (htmlContent : string) : string :=
  str (normalizeMarkup (stripQuillAttributes (chars htmlContent))).

(** ** A sample run-time, for the examples *)

Definition digitValue (c : ascii) : option Z :=
  let n := nat_of_ascii c in
  if (48 <=? n)%nat && (n <=? 57)%nat then Some (Z.of_nat (n - 48)) else None.

Fixpoint decimalValue (acc : Z) (s : string) : option Z :=
  match s with
  | EmptyString => Some acc
  | String c s' =>
      match digitValue c with
      | Some d => decimalValue (10 * acc + d) s'
      | None => None
      end
  end.

(** Days from 1970-01-01 to the civil date [y-m-d]. *)
Definition daysFromCivil (y m d : Z) : Z :=
  let y' := (if m <=? 2 then y - 1 else y)%Z in
  let era := (y' / 400)%Z in
  let yoe := (y' - era * 400)%Z in
  let mp := (if 2 <? m then m - 3 else m + 9)%Z in
  let doy := ((153 * mp + 2) / 5 + d - 1)%Z in
  let doe := (yoe * 365 + yoe / 4 - yoe / 100 + doy)%Z in
  (era * 146097 + doe - 719468)%Z.

(** The time value of a string in the format of [toISOString],
    [YYYY-MM-DDTHH:mm:ss.sssZ]; every other string is an invalid date. *)
Definition isoDateValue (s : string) : option Z :=
  let field i n := decimalValue 0 (substring i n s) in
  let sep i c := match get i s with Some x => Ascii.eqb x c | None => false end in
  if (String.length s =? 24)%nat && sep 4%nat "-"%char && sep 7%nat "-"%char
     && sep 10%nat "T"%char && sep 13%nat ":"%char && sep 16%nat ":"%char
     && sep 19%nat "."%char && sep 23%nat "Z"%char
  then
    match field 0%nat 4%nat, field 5%nat 2%nat, field 8%nat 2%nat,
          field 11%nat 2%nat, field 14%nat 2%nat, field 17%nat 2%nat,
          field 20%nat 3%nat with
    | Some y, Some mo, Some d, Some h, Some mi, Some sec, Some ms =>
        if ((1 <=? mo) && (mo <=? 12) && (1 <=? d) && (d <=? 31) && (h <=? 23)
            && (mi <=? 59) && (sec <=? 59))%Z
        then Some ((((daysFromCivil y mo d * 24 + h) * 60 + mi) * 60 + sec) * 1000 + ms)%Z
        else None
    | _, _, _, _, _, _, _ => None
    end
  else None.

(** A user who declines every dialog, a clock stopped at
    2024-01-15T10:30:00.000Z, a storage with room to spare. *)
Definition sampleEnv : Environment :=
  mkEnvironment (fun _ _ => false) (fun _ => 1705314600000%Z)
    (fun _ => "2024-01-15T10:30:00.000Z") (fun _ => "k3j9x0q1z")
    (fun _ => false) (fun _ => 1%Z) isoDateValue
    (fun html => mkQuillDoc html "") (fun text => mkQuillDoc "" text).

(** The same run-time with a user who accepts every dialog. *)
Definition agreeingEnv : Environment :=
  mkEnvironment (fun _ _ => true) (dateNow sampleEnv) (isoNow sampleEnv)
    (randomSuffix sampleEnv) (quotaExceeded sampleEnv) (usagePercent sampleEnv)
    (dateValue sampleEnv) (quillFromHTML sampleEnv) (quillFromText sampleEnv).

Definition emptyPage : Page := mkPage "" "" "" "" "" None [] "".

(** A world just after [loadArticles()] with [stored] in the collection. *)
Definition worldWith (e : Environment) (policy : string) (stored : list Article) : World :=
  mkWorld e 0 (Stored stored) None (mkCms stored stored None false policy) emptyPage.

(** ** Sample articles *)

Definition safetyDrill : ArticleData :=
  mkArticleData "Safety Drill" "" "" "" "" "Check equipment. " ""
    (calculateWordCount "Check equipment. ").

Definition safetyDrillSigned : ArticleData :=
  mkArticleData "Safety Drill" "Chief Ramos" "Training" "" "2024-01-15"
    "Check equipment. " "<p>Check equipment.</p>"
    (calculateWordCount "Check equipment. ").

(** A title of two lines. *)
Definition twoLineTitle : ArticleData :=
  mkArticleData ("Fire" +:+ nl +:+ "Safety") "" "" "" "" "Text" "" 1.

(** Sample stored articles: [olderArticle] was updated a day before
    [newerArticle]; [staleEdit] is an edit of [newerArticle] made from a
    copy older than the stored one. *)
Definition olderArticle : Article :=
  mkArticle "article_1704067200000_aaaaaaaaa" "Hose Care" "Chief Ramos" "Training" ""
    "2024-01-01" "Dry the hose. " "<p>Dry the hose.</p>" 1
    "2024-01-01T00:00:00.000Z" "2024-01-01T00:00:00.000Z".

Definition newerArticle : Article :=
  mkArticle "article_1704153600000_bbbbbbbbb" "Safety Drill" "Chief Ramos" "Training" ""
    "2024-01-02" "Check equipment. " "<p>Check equipment.</p>" 1
    "2024-01-02T00:00:00.000Z" "2024-01-02T00:00:00.000Z".

Definition staleEdit : Article :=
  mkArticle "article_1704153600000_bbbbbbbbb" "Safety Drill (draft)" "Chief Ramos"
    "Training" "" "2024-01-02" "Check. " "<p>Check.</p>" 1
    "2024-01-02T00:00:00.000Z" "2024-01-01T12:00:00.000Z".

(** ** Order of the collection *)

(** [new Date(a.updatedAt)] is a valid date. *)
Definition validDate (e : Environment) (a : Article) : bool :=
  match dateValue e (updatedAt a) with
  | Some _ => true
  | None => false
  end.

Definition validDates (e : Environment) (l : list Article) : bool :=
  forallb (validDate e) l.

(** [a] was updated no earlier than [b]. *)
Definition notOlder (e : Environment) (a b : Article) : bool :=
  match dateValue e (updatedAt a), dateValue e (updatedAt b) with
  | Some ta, Some tb => (tb <=? ta)%Z
  | _, _ => false
  end.

(** Sorted by [updatedAt], most recent first. *)
Fixpoint sortedByUpdatedAtDesc (e : Environment) (l : list Article) : bool :=
  match l with
  | a :: l' =>
      match l' with
      | b :: _ => notOlder e a b && sortedByUpdatedAtDesc e l'
      | [] => true
      end
  | [] => true
  end.

(** The array [saveToStorage] sorts: the incoming article in the place
    of the first stored one with its id, or pushed at the end. *)
Definition putArticle (article : Article) (arts : list Article) : list Article :=
  match list_find (fun a => id a = id article) arts with
  | Some (existingIndex, _) => <[existingIndex := article]> arts
  | None => arts ++ [article]
  end.

(** The stored records with a given id. *)
Definition withId (i : string) (l : list Article) : list Article :=
  filter (fun a => id a = i) l.

(** The collection a world holds. *)
Definition collection (w : World) : list Article := parseStored (storedArticles w).

(** The outcome of a put, seen from the world [w] it started in. *)
Definition putOutcome (w : World) (arts : list Article)
    (r : Completion bool * World) : Prop :=
  env r.2 = env w /\
  conflictResolution (cms r.2) = conflictResolution (cms w) /\
  currentArticle (cms r.2) = currentArticle (cms w) /\
  isModified (cms r.2) = isModified (cms w) /\
  ((r.1 = Normal true /\
    storedArticles r.2 = Stored (arraySort (compareUpdatedAt (env w)) arts)) \/
   (r.1 = Normal false /\ storedArticles r.2 = storedArticles w)).

(** The write of [saveToStorage] under its [catch]. *)
Definition guardedWrite (arts : list Article) : M bool :=
  try_catch (writeCollection arts)
    (fun error => handleError "Failed to save article" error;; mret false).

Definition freshArticle : Article :=
  mkArticle "article_1704240000000_ccccccccc" "Ladder Check" "Chief Ramos" "Training" ""
    "2024-01-03" "Inspect the rungs. " "<p>Inspect the rungs.</p>" 1
    "2024-01-03T00:00:00.000Z" "2024-01-03T00:00:00.000Z".

(** Two edits of [newerArticle] saved one millisecond apart. *)
Definition firstEdit : Article :=
  mkArticle "article_1704153600000_bbbbbbbbb" "Safety Drill, first" "Chief Ramos"
    "Training" "" "2024-01-02" "Check. " "<p>Check.</p>" 1
    "2024-01-02T00:00:00.000Z" "2024-01-04T08:00:00.000Z".

Definition secondEdit : Article :=
  mkArticle "article_1704153600000_bbbbbbbbb" "Safety Drill, second" "Chief Ramos"
    "Training" "" "2024-01-02" "Check twice. " "<p>Check twice.</p>" 1
    "2024-01-02T00:00:00.000Z" "2024-01-04T08:00:00.001Z".

(** ** Reading the state *)

(** [quill.getText()], or the empty string without an editor. *)
Definition editorText (w : World) : string :=
  match quill (page w) with
  | Some q => getText q
  | None => ""
  end.

(** The array under the [articles] key of a parsed backup file, when
    there is one. *)
Definition articlesArray (file : FileText) : option (list Article) :=
  match file with
  | Json (VObject props) =>
      match lookupProp "articles" props with
      | VArray items => Some items
      | _ => None
      end
  | _ => None
  end.

(** A session with a blank title and some text in the editor. *)
Definition blankTitleWorld : World :=
  mkWorld sampleEnv 0 (Stored [newerArticle; olderArticle]) None
    (mkCms [newerArticle; olderArticle] [newerArticle; olderArticle]
       (Some olderArticle) true "auto")
    (mkPage "   " "Chief Ramos" "Training" "" "2024-01-05"
       (Some (mkQuillDoc "<p>Dry the hose twice.</p>" "Dry the hose twice.")) [] "").

(** A session with a title and some text, ready to be saved. *)
Definition savingWorld : World :=
  mkWorld sampleEnv 0 (Stored [newerArticle; olderArticle]) None
    (mkCms [newerArticle; olderArticle] [newerArticle; olderArticle] None true "auto")
    (mkPage "Safety Drill" "Chief Ramos" "Training" "" "2024-01-05"
       (Some (mkQuillDoc "<p>Check equipment.</p>" "Check equipment. ")) [] "").

(** The payload [{articles: "not-an-array"}]. *)
Definition notAnArray : FileText :=
  Json (VObject [("articles", VString "not-an-array")]).

(** No underscore in [s]. *)
Fixpoint noUnderscore (s : string) : bool :=
  match s with
  | EmptyString => true
  | String c s' => negb (Ascii.eqb c "_") && noUnderscore s'
  end.

(** An article whose id is the one [sampleEnv] generates next. *)
Definition collidingArticle : Article :=
  mkArticle "article_1705314600000_k3j9x0q1z" "Pump Test" "Chief Ramos" "Training" ""
    "2024-01-10" "Run the pump. " "<p>Run the pump.</p>" 1
    "2024-01-10T00:00:00.000Z" "2024-01-10T00:00:00.000Z".

(** The copy of [olderArticle] made under [sampleEnv]. *)
Definition hoseCareCopy : Article :=
  mkArticle "article_1705314600000_k3j9x0q1z" "Copy of Hose Care" "Chief Ramos"
    "Training" "" "2024-01-01" "Dry the hose. " "<p>Dry the hose.</p>" 1
    "2024-01-15T10:30:00.000Z" "2024-01-15T10:30:00.000Z".

(** ** Literal rewriting *)

(** The text algebra behind the whitespace and paragraph passes of
    [cleanHTMLForExport]: replacing every occurrence of a literal [L] by
    a text [R], and when such a pass cannot leave or create an
    occurrence of a literal. *)

Fixpoint isPrefix (a b : list ascii) : bool :=
  match a, b with
  | [], _ => true
  | x :: a', y :: b' => Ascii.eqb x y && isPrefix a' b'
  | _ :: _, [] => false
  end.

(** The matcher of the one-literal pattern [/L/]. *)
Definition litMatch (L : list ascii) (t : list ascii) : option (nat * list ascii) :=
  if isPrefix L t then Some (length L, []) else None.

(** [s.replace(/L/g, R)] *)
Definition lrep (L R : list ascii) (s : list ascii) : list ascii :=
  replace_go (litMatch L) (fun _ => R) 0 s.

(** [L] occurs nowhere in [s]. *)
Definition nowhere (L s : list ascii) : Prop :=
  forall a b : list ascii, s <> a ++ L ++ b.

(** The non-empty suffixes of a text, longest first. *)
Fixpoint suffixes (s : list ascii) : list (list ascii) :=
  match s with
  | [] => []
  | _ :: s' => s :: suffixes s'
  end.

(** The non-empty proper suffixes. *)
Definition properSuffixes (s : list ascii) : list (list ascii) :=
  match s with
  | [] => []
  | _ :: s' => suffixes s'
  end.

(** No suffix of the replacement starts an occurrence of [L], or sits
    at the start of one. *)
Definition cannotStart (L R : list ascii) : bool :=
  forallb (fun x => negb (isPrefix L x) && negb (isPrefix x L)) (suffixes R).

(** A tail of [L'] that begins the replacement also begins [L], and the
    replacement is not swallowed by a tail of [L']. *)
Definition cannotEnd (L' L R : list ascii) : bool :=
  forallb (fun y => (negb (isPrefix y R) || isPrefix y L)
                    && negb (isPrefix R y && negb (Nat.eqb (length y) (length R))))
    (properSuffixes L').

(** A suffix of the replacement that begins [L'] also ends [L], and
    [L'] does not occur in the replacement. *)
Definition cannotBridge (L' L R : list ascii) : bool :=
  forallb (fun x => negb (isPrefix L' x)
                    && (negb (isPrefix x L') || isPrefix (rev x) (rev L)))
    (suffixes R).
(** ** Tidy markup *)

Definition headNotSpace (s : list ascii) : bool :=
  match s with
  | [] => true
  | c :: _ => negb (isWhiteSpace c)
  end.

(** Every whitespace code unit of [s] is a space, and no two are
    adjacent. *)
Fixpoint spaced (s : list ascii) : bool :=
  match s with
  | [] => true
  | c :: s' =>
      (if isWhiteSpace c then Ascii.eqb c " " && headNotSpace s' else true)
      && spaced s'
  end.

Definition spaceFree (s : list ascii) : bool :=
  forallb (fun c => negb (isWhiteSpace c)) s.

(** The literals the passes look for once whitespace is collapsed, and
    what they put in their place. *)
Definition gapBetweenTags : list ascii := chars "> <".
Definition noGap : list ascii := chars "><".
Definition brParagraph : list ascii := chars "<p><br></p>".
Definition emptyParagraph : list ascii := chars "<p></p>".
Definition nbspParagraph : list ascii := chars "<p>&nbsp;</p>".

(** What [normalizeMarkup] leaves nothing to do on. *)
Definition tidy (s : list ascii) : Prop :=
  spaced s = true /\ nowhere gapBetweenTags s /\ nowhere brParagraph s /\
  nowhere emptyParagraph s /\ trim_chars s = s.

(** Editor output with Quill classes: an aligned paragraph, a sized
    span, and two empty lines. *)
Definition quillParagraphs : string :=
  "<p class=" +:+ dq +:+ "ql-align-center" +:+ dq +:+ ">Incident   <span class="
  +:+ dq +:+ "ql-size-large" +:+ dq +:+ ">command</span></p>  <p><br></p> <p>  </p>".

(** A paragraph whose text quotes a class attribute inside another. *)
Definition quotedClassText : string :=
  "<p>class=" +:+ dq +:+ "class=" +:+ dq +:+ "ql-a" +:+ dq +:+ "ql-b" +:+ dq +:+ "</p>".

(** ** Markup with Quill attributes *)

(** The two attributes [cleanHTMLForExport] looks for. *)
Inductive AttrName : Type :=
| ClassAttr
| StyleAttr.

(** Markup cut into the attributes Quill writes and the code units of
    everything else. *)
Inductive Piece : Type :=
| Chr (c : ascii)
| QuillAttr (name : AttrName) (value : list ascii).    (* name=Qvalue Q *)

Definition quote : ascii := "034"%char.

(** [class=Q] and [style=Q], writing Q for the double quote. *)
Definition attrStart (name : AttrName) : list ascii :=
  match name with
  | ClassAttr => chars ("class=" +:+ dq)
  | StyleAttr => chars ("style=" +:+ dq)
  end.

Definition renderPiece (p : Piece) : list ascii :=
  match p with
  | Chr c => [c]
  | QuillAttr name value => attrStart name ++ value ++ [quote]
  end.

(** The text of the markup. *)
Fixpoint render (d : list Piece) : list ascii :=
  match d with
  | [] => []
  | p :: d' => renderPiece p ++ render d'
  end.

(** The text of the markup without its Quill attributes. *)
Fixpoint skeleton (d : list Piece) : list ascii :=
  match d with
  | [] => []
  | Chr c :: d' => c :: skeleton d'
  | QuillAttr _ _ :: d' => skeleton d'
  end.

(** The markup without its [class] attributes. *)
Fixpoint withoutClass (d : list Piece) : list Piece :=
  match d with
  | [] => []
  | QuillAttr ClassAttr _ :: d' => withoutClass d'
  | p :: d' => p :: withoutClass d'
  end.

Fixpoint noClass (d : list Piece) : bool :=
  match d with
  | [] => true
  | QuillAttr ClassAttr _ :: _ => false
  | _ :: d' => noClass d'
  end.

(** [L] occurs in [s]. *)
Definition occurs (L s : list ascii) : bool := existsb (isPrefix L) (suffixes s).

Definition qlToken : list ascii := chars "ql-".
Definition twoQuotes : list ascii := [quote; quote].

(** The value of a Quill attribute: no double quote, no equals sign,
    and a [ql-] token. *)
Definition plainValueChar (c : ascii) : bool :=
  negb (Ascii.eqb c quote) && negb (Ascii.eqb c "=").

Definition quillValue (value : list ascii) : bool :=
  forallb plainValueChar value && occurs qlToken value.

Definition quillPiece (p : Piece) : bool :=
  match p with
  | Chr _ => true
  | QuillAttr _ value => quillValue value
  end.

(** Markup in which the Quill attributes hold every [ql-] token, and the
    rest has no two double quotes in a row. *)
Definition quillMarkup (d : list Piece) : bool :=
  forallb quillPiece d
  && negb (occurs qlToken (skeleton d))
  && negb (occurs twoQuotes (skeleton d)).

(** A [ql-] token before the first double quote of [s]: what the
    patterns [/class=Q[^Q]*ql-[^Q]*[^Q]*Q/] and its [style] twin need
    after their first literal. *)
Fixpoint qlBeforeQuote (s : list ascii) : bool :=
  match s with
  | [] => false
  | c :: s' => if Ascii.eqb c quote then false else isPrefix qlToken s || qlBeforeQuote s'
  end.

(** Whitespace, then two double quotes. *)
Fixpoint emptyAfterSpaces (s : list ascii) : bool :=
  match s with
  | [] => false
  | c :: s' => if isWhiteSpace c then emptyAfterSpaces s' else isPrefix twoQuotes s
  end.

(** An equals sign, whitespace, and two double quotes somewhere in [s]:
    what the pattern [/\s*class\s*=\s*QQ\s*/] needs. *)
Fixpoint equalsEmpty (s : list ascii) : bool :=
  match s with
  | [] => false
  | c :: s' => (Ascii.eqb c "=" && emptyAfterSpaces s') || equalsEmpty s'
  end.

(** Whether a literal could run into the start of an attribute. *)
Definition clearOfAttrs (L : list ascii) : bool :=
  forallb (fun x => negb (isPrefix x (attrStart ClassAttr))
                    && negb (isPrefix x (attrStart StyleAttr)))
    (suffixes L)
  && (length L <=? 7)%nat.

(** A literal that shares no code unit with the replacement [R]. *)
Definition apartFrom (R L : list ascii) : bool :=
  forallb (fun x => negb (existsb (Ascii.eqb x) R)) L.

(** The code units of a text, as pieces. *)
Definition text (s : string) : list Piece := map Chr (chars s).

(** [quillParagraphs], cut into pieces. *)
Definition quillParagraphsPieces : list Piece :=
  text "<p " ++ [QuillAttr ClassAttr (chars "ql-align-center")]
  ++ text ">Incident   <span " ++ [QuillAttr ClassAttr (chars "ql-size-large")]
  ++ text ">command</span></p>  <p><br></p> <p>  </p>".

(** A link with an attribute of its own, a Quill class and a Quill
    style. *)
Definition quillLinkPieces : list Piece :=
  text ("<a href=" +:+ dq +:+ "drill.html" +:+ dq +:+ " ")
  ++ [QuillAttr ClassAttr (chars "note ql-indent-1")] ++ text " "
  ++ [QuillAttr StyleAttr (chars "ql-color: red")] ++ text ">Drill</a>".

(** ** Tag-free text *)

(** A text in which no [<] is followed, however far, by a [>]. *)
Fixpoint tagFree (s : list ascii) : bool :=
  match s with
  | [] => true
  | c :: s' =>
      (if Ascii.eqb c "<" then negb (existsb (Ascii.eqb ">") s') else true) && tagFree s'
  end.

(** ** Statistics and format check *)

(** [Math.ceil(n / d)] on natural numbers. *)
Definition ceilDiv (n d : nat) : nat :=
  n / d + (if (n mod d =? 0)%nat then 0 else 1).

(** [calculateReadingTime(wordCount)] *)
Definition calculateReadingTime (wordCount : nat) : string :=
  let wordsPerMinute := 200 in
  let minutes := ceilDiv wordCount wordsPerMinute in
  pretty minutes +:+ " min".

(** The [issues] array of [formatCheck()]. *)
Definition formatIssues (articleData : ArticleData) : list string :=
  (if negb (truthy (trim (d_title articleData))) then ["Missing title"] else []) ++
  (if negb (truthy (trim (d_author articleData))) then ["Missing author"] else []) ++
  (if (d_wordCount articleData <? 50)%nat
   then ["Article is very short (under 50 words)"] else []) ++
  (if (2000 <? d_wordCount articleData)%nat
   then ["Article is very long (over 2000 words)"] else []) ++
  (if negb (truthy (trim (d_summary articleData))) then ["Missing summary"] else []).

(** [formatCheck()] *)
Definition formatCheck : M unit :=
  articleData ← gatherArticleData;
  let issues := formatIssues articleData in
  if (length issues =? 0)%nat
  then showNotification "No formatting issues found!" "success"
  else showNotification ("Issues found: " +:+ String.concat ", " issues) "warning".

(** ** Search *)

(** [String.prototype.toLowerCase] on the code units below U+0100, the
    strings of this model: the letters A to Z, and U+00C0 to U+00DE but
    for the multiplication sign U+00D7, each mapped on its own.  Beyond
    this range the method is sensitive to context (the final sigma) and
    is not modelled. *)
Definition lower (c : ascii) : ascii :=
  let n := nat_of_ascii c in
  if ((65 <=? n)%nat && (n <=? 90)%nat)
     || ((192 <=? n)%nat && (n <=? 222)%nat && negb (n =? 215)%nat)
  then ascii_of_nat (n + 32) else c.

Definition toLowerCase (s : string) : string := str (map lower (chars s)).

(** [t] occurs in [s]. *)
Fixpoint occursIn (t s : list ascii) : bool :=
  isPrefix t s ||
  match s with
  | [] => false
  | _ :: s' => occursIn t s'
  end.

(** [s.includes(t)] *)
Definition includes (s t : string) : bool := occursIn (chars t) (chars s).

(** The two conditions of the callback of [filterArticles()]. *)
Definition matchesSearch (searchTerm : string) (article : Article) : bool :=
  negb (truthy searchTerm)
  || includes (toLowerCase (title article)) searchTerm
  || (truthy (content article) && includes (toLowerCase (content article)) searchTerm)
  || (truthy (author article) && includes (toLowerCase (author article)) searchTerm).

Definition matchesCategory (categoryFilter : string) (article : Article) : bool :=
  negb (truthy categoryFilter) || String.eqb (category article) categoryFilter.

(** [filterArticles()]; the values of the search box and of the category
    selector are its inputs. *)
Definition filterArticles (articleSearch categoryFilter : string) : M unit :=
  let searchTerm := toLowerCase articleSearch in
  modify (fun w =>
    with_cms
      (with_filteredArticles
         (List.filter
            (fun article => matchesSearch searchTerm article
                            && matchesCategory categoryFilter article)
            (articles (cms w)))
         (cms w)) w).

(** ** Loading an article of the list *)

(** [loadArticleById(articleId)] *)
Definition loadArticleById (articleId : string) : M unit :=
  arts ← gets (fun w => articles (cms w));
  match list_find (fun a => id a = articleId) arts with
  | Some (_, article) => loadArticleData article
  | None => showNotification "Article not found" "error"
  end.

(** ** Drafts *)

(** [localStorage.setItem(this.autoSaveKey, JSON.stringify(autoSaveData))] *)
Definition setAutoSaved (data : AutoSave) : M unit :=
  full ← ask quotaExceeded;
  if full : bool then throw "QuotaExceededError"
  else modify (with_autoSaved (Some data)).

(** [performAutoSave()] *)
Definition performAutoSave : M unit :=
  articleData ← gatherArticleData;
  if truthy (trim (d_title articleData)) || truthy (trim (d_content articleData)) then
    timestamp ← newDateISO;
    try_catch
      (setAutoSaved (mkAutoSave articleData timestamp);;
       updateStatus "auto-saved")
      (fun _ => mret tt)
  else mret tt.

(** The callback [startAutoSave()] schedules every 30 seconds. *)
Definition autoSaveTimer : M unit :=
  modified ← gets (fun w => isModified (cms w));
  if modified : bool then performAutoSave else mret tt.

(** ** Backup file *)

(** [backupAllArticles()]; the answer is the download: the object that is
    serialised and the name of the file. *)
Definition backupAllArticles : M (option (JSValue * string)) :=
  try_catch
    (arts ← gets (fun w => articles (cms w));
     exportDate ← newDateISO;
     let backup := backupObject arts exportDate in
     iso ← newDateISO;
     let timestamp := substring 0 10 iso in
     showNotification "Backup created successfully" "success";;
     mret (Some (backup, "blog-backup-" +:+ timestamp +:+ ".json")))
    (fun error => handleError "Failed to create backup" error;; mret None).

(** ** Methods with their own dialogs *)

Section Dialogs.

(** The user's answers to the dialogs of the methods below: the answer to
    [confirm(message)] when it is the question numbered by the tick. *)
Variable user : nat -> string -> bool.

Definition confirmMessage (message : string) : M bool :=
  ask (fun _ n => user n message).

(** The questions asked. *)
Definition newArticleQuestion : string :=
  "You have unsaved changes. Are you sure you want to start a new article?".
Definition deleteQuestion (article : Article) : string :=
  "Delete " +:+ dq +:+ title article +:+ dq +:+ "? This cannot be undone.".
Definition restoreDraftQuestion : string :=
  "Auto-saved content found. Would you like to restore it?".

(** [newArticle()].  [quill.setContents([])] leaves the editor as
    [setText('')] does: both install the empty delta.  Moving the focus
    and the views are not part of the model. *)
Definition newArticle : M unit :=
  modified ← gets (fun w => isModified (cms w));
  proceed ← (if modified : bool then confirmMessage newArticleQuestion else mret true);
  if proceed : bool then
    iso ← newDateISO;
    modify (fun w =>
      let p := page w in
      let q :=
        match quill p with
        | Some _ => Some (quillFromText (env w) "")
        | None => None
        end in
      with_page (with_fields "" "" "" "" (beforeT iso) q p) w);;
    modify (fun w =>
      with_cms (with_isModified false (with_currentArticle None (cms w))) w);;
    updateStatus "new";;
    showNotification "New article started" "success"
  else mret tt.

(** [deleteArticle(articleId)] *)
Definition deleteArticle (articleId : string) : M unit :=
  try_catch
    (arts ← gets (fun w => articles (cms w));
     match list_find (fun a => id a = articleId) arts with
     | None => showNotification "Article not found" "error"
     | Some (_, article) =>
         sure ← confirmMessage (deleteQuestion article);
         if sure : bool then
           stored ← getStoredArticles;
           let filteredArticles := filter (fun a => id a <> articleId) stored in
           setStoredArticles filteredArticles;;
           current ← gets (fun w => currentArticle (cms w));
           match current with
           | Some c => if String.eqb (id c) articleId then newArticle else mret tt
           | None => mret tt
           end;;
           loadArticles;;
           showNotification "Article deleted successfully" "success"
         else mret tt
     end)
    (handleError "Failed to delete article").

(** [hoursDiff < 24]: the quotient of the milliseconds elapsed since
    the draft's [timestamp] by [1000 * 60 * 60] is below 24; an invalid
    [timestamp] makes the difference [NaN] and the comparison false. *)
Definition recentDraft (e : Environment) (now : Z) (autoSave : AutoSave) : bool :=
  match dateValue e (as_timestamp autoSave) with
  | Some autoSaveTime => (now - autoSaveTime <? 24 * (1000 * 60 * 60))%Z
  | None => false
  end.

(** [data.title.trim() || data.content.trim()] *)
Definition meaningfulDraft (data : ArticleData) : bool :=
  truthy (trim (d_title data)) || truthy (trim (d_content data)).

(** [loadAutoSavedContent()]; the slot holds a draft as [performAutoSave]
    writes it.  The status bar follows the editor's own change
    notification and is left out. *)
Definition loadAutoSavedContent : M unit :=
  try_catch
    (slot ← gets autoSaved;
     match slot with
     | None => mret tt
     | Some autoSave =>
         let data := as_data autoSave in
         e ← gets env;
         now ← ask dateNow;
         if recentDraft e now autoSave && meaningfulDraft data then
           restore ← confirmMessage restoreDraftQuestion;
           if restore : bool then
             today ← (if truthy (d_publicationDate data)
                      then mret (d_publicationDate data)
                      else iso ← newDateISO; mret (beforeT iso));
             modify (fun w =>
               let p := page w in
               let q :=
                 match quill p with
                 | Some q0 =>
                     if truthy (d_htmlContent data)
                     then Some (quillFromHTML (env w) (d_htmlContent data))
                     else if truthy (d_content data)
                          then Some (quillFromText (env w) (d_content data))
                          else Some q0
                 | None => None
                 end in
               with_page (with_fields (d_title data) (d_author data) (d_category data)
                            (d_summary data) today q p) w);;
             modify (fun w => with_cms (with_isModified true (cms w)) w);;
             showNotification "Auto-saved content restored" "info"
           else mret tt
         else mret tt
     end)
    (fun _ => mret tt).

(** The file text of [importFromText()] cut at the separator ['\\n'] of
    the source, a backslash followed by the letter n: the first piece,
    or [Imported Article] when it is empty, and the other pieces joined
    by the same separator. *)
Definition importSeparator : string := "\n".

Definition importedLines (content : string) : list string :=
  map str (split [Lit importSeparator] (chars content)).

Definition importedTitle (content : string) : string :=
  match importedLines content with
  | l :: _ => if truthy l then l else "Imported Article"
  | [] => "Imported Article"
  end.

Definition importedText (content : string) : string :=
  String.concat importSeparator (tail (importedLines content)).

(** The [reader.onload] handler of [importFromText()].  The status bar
    follows the editor's own change notification and is left out. *)
Definition importFromText (content : string) : M unit :=
  try_catch
    (let title := importedTitle content in
     let text := importedText content in
     newArticle;;
     modify (fun w =>
       let p := page w in
       let q :=
         match quill p with
         | Some _ => Some (quillFromText (env w) text)
         | None => None
         end in
       with_page (with_fields title (articleAuthor p) (articleCategory p)
                    (articleSummary p) (publicationDateInput p) q p) w);;
     modify (fun w => with_cms (with_isModified true (cms w)) w);;
     showNotification "Article imported successfully" "success")
    (handleError "Failed to import file").

End Dialogs.

(** ** Sample users *)

(** A user who accepts every dialog, one who declines every dialog, and
    one who agrees to deletions only. *)
Definition acceptAll : nat -> string -> bool := fun _ _ => true.
Definition declineAll : nat -> string -> bool := fun _ _ => false.
Definition deleteOnly : nat -> string -> bool := fun _ message => startsWith "Delete " message.

(** ** Proof steps *)

(** Run the monad: unfold its operations and compute. *)
Ltac run :=
  unfold result, after, mbind, M_bind, mret, M_ret, try_catch, gets, modify,
    ask, throw, confirm in *; simpl in *.

(** * Properties *)

(** ** Strings *)

Lemma append_assoc (a b c : string) : (a +:+ b) +:+ c = a +:+ (b +:+ c).
Proof. induction a as [|x a IH]; simpl; [reflexivity | by rewrite IH]. Qed.

Lemma append_empty_r (a : string) : a +:+ "" = a.
Proof. induction a as [|x a IH]; simpl; [reflexivity | by rewrite IH]. Qed.

Lemma truthy_false (s : string) : truthy s = false <-> s = "".
Proof. destruct s; simpl; split; congruence. Qed.

Lemma truthy_true (s : string) : truthy s = true <-> s <> "".
Proof. destruct s; simpl; split; congruence. Qed.

(** ** Word count *)

(** The separator pattern of the source needs a backslash to match. *)
Lemma wordSeparator_needs_backslash (c : ascii) (s : list ascii) :
  c <> "\"%char -> re_match false wordSeparator (c :: s) = None.
Proof.
  intros Hc. simpl. unfold char_eq.
  destruct (Ascii.eqb "\" c) eqn:E; [|reflexivity].
  apply Ascii.eqb_eq in E. congruence.
Qed.

Lemma split_go_no_match (s cur : list ascii) :
  ~ In "\"%char s ->
  split_go (re_match false wordSeparator) 0 cur s = [rev cur ++ s].
Proof.
  revert cur. induction s as [|c s IH]; intros cur Hs.
  - simpl. by rewrite app_nil_r.
  - cbn [split_go]. rewrite wordSeparator_needs_backslash.
    + rewrite IH; [|intros ?; apply Hs; by right].
      simpl. by rewrite <- app_assoc.
    + intros ->. apply Hs. by left.
Qed.

(** On a text without backslashes the source's counter never exceeds 1:
    the whole trimmed text is one segment. *)
Lemma calculateWordCount_without_backslash (text : string) :
  ~ In "\"%char (chars (trim text)) ->
  calculateWordCount text = if truthy (trim text) then 1 else 0.
Proof.
  intros H. unfold calculateWordCount.
  destruct (truthy (trim text)) eqn:E; [|reflexivity].
  unfold split. destruct (chars (trim text)) as [|c s] eqn:Es.
  - destruct (trim text); simpl in *; congruence.
  - by rewrite split_go_no_match.
Qed.

(** C1.  The source splits the trimmed text on [/\\s+/], a backslash
    followed by letters [s], not on runs of whitespace: on the input
    [a b  c] it counts one segment where the specification's counter
    ([wordCount_spec]) counts 3; the two other test values, 0 for the
    empty string and for a blank string, are met. *)
Theorem calculateWordCount_a_b_c :
  calculateWordCount "a b  c" = 1 /\ wordCount_spec "a b  c" = 3 /\
  calculateWordCount "" = 0 /\ calculateWordCount "  " = 0.
Proof. repeat split; reflexivity. Qed.

(** ** Markdown export *)

Lemma lines_not_nil (s : string) : lines s <> [].
Proof.
  induction s as [|c s IH]; simpl; [done|].
  destruct (Ascii.eqb c LF); [done|]. by destruct (lines s).
Qed.

(** A line-feed-free prefix followed by a line feed is the first line. *)
Lemma lines_first (s t : string) :
  singleLine s = true -> lines (s +:+ String LF t) = s :: lines t.
Proof.
  induction s as [|c s IH]; intros Hs.
  - reflexivity.
  - simpl in Hs. apply andb_true_iff in Hs as [Hc Hs]. simpl.
    destruct (Ascii.eqb c LF); [done|]. by rewrite IH.
Qed.

Lemma singleLine_append (s t : string) :
  singleLine s = true -> singleLine t = true -> singleLine (s +:+ t) = true.
Proof.
  induction s as [|c s IH]; intros Hs Ht; [done|].
  simpl in *. apply andb_true_iff in Hs as [Hc Hs].
  rewrite Hc. simpl. auto.
Qed.

Lemma lines_optionalLine (label value t : string) :
  singleLine label = true -> singleLine value = true ->
  lines (optionalLine label value +:+ t) =
    (if truthy value then [label +:+ value] else []) ++ lines t.
Proof.
  intros Hl Hv. unfold optionalLine. destruct (truthy value); [|reflexivity].
  rewrite !append_assoc. rewrite <- append_assoc.
  change (nl +:+ t) with (String LF t).
  rewrite lines_first; [reflexivity | by apply singleLine_append].
Qed.

Lemma beforeRule_app (pre rest : list string) :
  forallb (fun l => negb (String.eqb l "---")) pre = true ->
  beforeRule (pre ++ "---" :: rest) = pre.
Proof.
  induction pre as [|l pre IH]; intros H; simpl in *; [reflexivity|].
  apply andb_true_iff in H as [H1 H2].
  destruct (String.eqb l "---"); [done|]. by rewrite IH.
Qed.

(** The output of [generateMarkdown], laid out from left to right. *)
Lemma generateMarkdown_layout (a : ArticleData) :
  generateMarkdown a =
    "# " +:+ d_title a +:+ nl +:+ nl
    +:+ optionalLine "**Author:** " (d_author a)
    +:+ optionalLine "**Date:** " (d_publicationDate a)
    +:+ optionalLine "**Category:** " (d_category a)
    +:+ (if truthy (d_summary a) then nl +:+ "**Summary:** " +:+ d_summary a +:+ nl else "")
    +:+ nl +:+ "---" +:+ nl +:+ nl
    +:+ (if truthy (d_htmlContent a) then htmlToMarkdown (d_htmlContent a)
         else d_content a).
Proof.
  unfold generateMarkdown, optionalLine.
  destruct (truthy (d_author a)), (truthy (d_publicationDate a)),
    (truthy (d_category a)), (truthy (d_summary a)), (truthy (d_htmlContent a));
    simpl; rewrite ?append_assoc; simpl; rewrite ?append_assoc; reflexivity.
Qed.

(** The lines of the export, for single-line metadata. *)
Lemma generateMarkdown_lines (a : ArticleData) :
  singleLine (d_title a) = true -> singleLine (d_author a) = true ->
  singleLine (d_publicationDate a) = true -> singleLine (d_category a) = true ->
  singleLine (d_summary a) = true ->
  exists body,
    lines (generateMarkdown a) =
      (("# " +:+ d_title a) :: "" ::
       (if truthy (d_author a) then ["**Author:** " +:+ d_author a] else []) ++
       (if truthy (d_publicationDate a) then ["**Date:** " +:+ d_publicationDate a] else []) ++
       (if truthy (d_category a) then ["**Category:** " +:+ d_category a] else []) ++
       (if truthy (d_summary a) then [""; "**Summary:** " +:+ d_summary a] else []) ++
       [""]) ++ "---" :: body.
Proof.
  intros Ht Ha Hd Hc Hs. rewrite generateMarkdown_layout.
  eexists.
  change (nl +:+ nl +:+ ?x) with (String LF (String LF x)).
  rewrite <- append_assoc. rewrite lines_first by (by apply singleLine_append).
  change (lines (String LF ?x)) with ("" :: lines x).
  rewrite !lines_optionalLine by done.
  assert (Hsum : forall t,
    lines ((if truthy (d_summary a)
            then nl +:+ "**Summary:** " +:+ d_summary a +:+ nl else "") +:+ t) =
    (if truthy (d_summary a) then [""; "**Summary:** " +:+ d_summary a] else [])
      ++ lines t).
  { intros t. destruct (truthy (d_summary a)); [|reflexivity].
    rewrite !append_assoc.
    change (nl +:+ ?x) with (String LF x).
    change (lines (String LF ?x)) with ("" :: lines x).
    rewrite <- append_assoc.
    change (nl +:+ t) with (String LF t).
    rewrite lines_first by (by apply singleLine_append). reflexivity. }
  rewrite Hsum.
  change (nl +:+ "---" +:+ nl +:+ nl +:+ ?x) with (String LF ("---" +:+ String LF (String LF x))).
  change (lines (String LF ?x)) with ("" :: lines x).
  rewrite lines_first by reflexivity.
  cbn [app]. rewrite <- !app_assoc. cbn [app]. reflexivity.
Qed.

(** C2, as stated, fails: the export of an article titled [Safety Drill]
    has the line [# Safety Drill]. *)
Lemma safetyDrill_has_heading_line :
  d_title safetyDrill = "Safety Drill" /\
  In "# Safety Drill" (lines (generateMarkdown safetyDrill)).
Proof. split; [reflexivity | left; reflexivity]. Qed.

(** C2, amended.  For an article titled [Safety Drill] whose author,
    date, category and summary hold no line feed, the first line of the
    Markdown export is the heading [# Safety Drill], and the metadata
    block (the lines above the [---] rule) has an author line exactly
    when the author is non-empty and a date line exactly when the
    publication date is non-empty; a line that is there reads
    [**Author:** author], respectively [**Date:** date]. *)
Theorem generateMarkdown_heading_and_metadata (a : ArticleData) :
  d_title a = "Safety Drill" ->
  singleLine (d_author a) = true ->
  singleLine (d_publicationDate a) = true ->
  singleLine (d_category a) = true ->
  singleLine (d_summary a) = true ->
  let block := metadataBlock (generateMarkdown a) in
  head (lines (generateMarkdown a)) = Some "# Safety Drill" /\
  existsb (startsWith "**Author:** ") block = truthy (d_author a) /\
  existsb (startsWith "**Date:** ") block = truthy (d_publicationDate a) /\
  (d_author a <> "" -> In ("**Author:** " +:+ d_author a) block) /\
  (d_publicationDate a <> "" -> In ("**Date:** " +:+ d_publicationDate a) block).
Proof.
  intros Ht Ha Hd Hc Hs block.
  destruct (generateMarkdown_lines a) as [body Hlines]; try done.
  { by rewrite Ht. }
  subst block. unfold metadataBlock. rewrite Hlines, Ht.
  rewrite beforeRule_app.
  2:{ destruct (truthy (d_author a)), (truthy (d_publicationDate a)),
        (truthy (d_category a)), (truthy (d_summary a)); reflexivity. }
  split; [reflexivity|].
  repeat split.
  - destruct (truthy (d_author a)), (truthy (d_publicationDate a)),
      (truthy (d_category a)), (truthy (d_summary a)); reflexivity.
  - destruct (truthy (d_author a)), (truthy (d_publicationDate a)),
      (truthy (d_category a)), (truthy (d_summary a)); reflexivity.
  - intros Hne. apply truthy_true in Hne. rewrite Hne.
    right. right. left. reflexivity.
  - intros Hne. apply truthy_true in Hne. rewrite Hne.
    right. right. apply in_or_app. right. left. reflexivity.
Qed.

Lemma generateMarkdown_heading_and_metadata_witness :
  d_title safetyDrillSigned = "Safety Drill" /\
  singleLine (d_author safetyDrillSigned) = true /\
  singleLine (d_publicationDate safetyDrillSigned) = true /\
  singleLine (d_category safetyDrillSigned) = true /\
  singleLine (d_summary safetyDrillSigned) = true /\
  head (lines (generateMarkdown safetyDrillSigned)) = Some "# Safety Drill" /\
  In "**Author:** Chief Ramos" (metadataBlock (generateMarkdown safetyDrillSigned)).
Proof.
  do 5 (split; [reflexivity|]).
  pose proof (generateMarkdown_heading_and_metadata safetyDrillSigned
                eq_refl eq_refl eq_refl eq_refl eq_refl) as (H1 & _ & _ & H4 & _).
  split; [exact H1 | apply H4; discriminate].
Defined.

(** C9, as stated, fails: with a line feed in the title the first line
    of the export holds only the title's first line. *)
Lemma twoLineTitle_not_recovered :
  extractTitle (generateMarkdown twoLineTitle) = Some "Fire" /\
  extractTitle (generateMarkdown twoLineTitle) <> Some (d_title twoLineTitle).
Proof. split; [reflexivity | discriminate]. Qed.

(** C9, amended.  For a title without a line feed, the first line of
    the Markdown export, with its [# ] marker removed, is the title. *)
Theorem extractTitle_generateMarkdown (a : ArticleData) :
  singleLine (d_title a) = true ->
  extractTitle (generateMarkdown a) = Some (d_title a).
Proof.
  intros Ht. unfold extractTitle. rewrite generateMarkdown_layout.
  change (nl +:+ ?x) with (String LF x).
  rewrite <- append_assoc.
  rewrite lines_first by (by apply singleLine_append).
  reflexivity.
Qed.

Lemma extractTitle_generateMarkdown_witness :
  singleLine (d_title safetyDrillSigned) = true /\
  extractTitle (generateMarkdown safetyDrillSigned) = Some "Safety Drill".
Proof.
  split; [reflexivity|].
  exact (extractTitle_generateMarkdown safetyDrillSigned eq_refl).
Defined.

(** ** Article repository *)

(** C3.  Under the [ask] policy, when the stored record with the
    incoming id carries a later [updatedAt] than the incoming record and
    the user declines the dialog, [saveToStorage] returns [false], writes
    nothing (the collection key holds what it held) and leaves the
    in-memory list alone; only the warning is shown. *)
Theorem saveToStorage_declined_conflict
    (w : World) (article existing : Article) (existingIndex : nat) :
  list_find (fun a => id a = id article) (parseStored (storedArticles w))
    = Some (existingIndex, existing) ->
  gt (updatedAt existing) (updatedAt article) = true ->
  conflictResolution (cms w) = "ask" ->
  confirmAnswer (env w) (tick w) AskOverwrite = false ->
  result (saveToStorage article) w = Normal false /\
  storedArticles (after (saveToStorage article) w) = storedArticles w /\
  parseStored (storedArticles (after (saveToStorage article) w)) !! existingIndex
    = Some existing /\
  cms (after (saveToStorage article) w) = cms w /\
  autoSaved (after (saveToStorage article) w) = autoSaved w /\
  notifications (page (after (saveToStorage article) w))
    = ("Save cancelled due to conflict", "warning") :: notifications (page w).
Proof.
  intros Hfind Hgt Hpolicy Hanswer.
  unfold result, after, saveToStorage, try_catch, getStoredArticles, gets.
  unfold mbind, M_bind, confirm, ask. simpl.
  rewrite Hfind, Hgt, Hpolicy. simpl. rewrite Hanswer. simpl.
  repeat split.
  apply list_find_Some in Hfind. tauto.
Qed.

Lemma saveToStorage_declined_conflict_witness :
  let w := worldWith sampleEnv "ask" [newerArticle; olderArticle] in
  list_find (fun a => id a = id staleEdit) (parseStored (storedArticles w))
    = Some (0, newerArticle) /\
  gt (updatedAt newerArticle) (updatedAt staleEdit) = true /\
  conflictResolution (cms w) = "ask" /\
  confirmAnswer (env w) (tick w) AskOverwrite = false /\
  result (saveToStorage staleEdit) w = Normal false /\
  storedArticles (after (saveToStorage staleEdit) w)
    = Stored [newerArticle; olderArticle].
Proof.
  intros w.
  do 4 (split; [reflexivity|]).
  destruct (saveToStorage_declined_conflict w staleEdit newerArticle 0
              eq_refl eq_refl eq_refl eq_refl) as (H1 & H2 & _).
  split; [exact H1 | exact H2].
Defined.

(** *** Sorting *)

Lemma sortInsert_perm (cmp : Article -> Article -> option Z) (x : Article)
    (l : list Article) :
  sortInsert cmp x l ≡ₚ x :: l.
Proof.
  induction l as [|y l IH]; simpl; [done|].
  destruct (positive (cmp x y)); [|done].
  rewrite IH. apply Permutation_swap.
Qed.

Lemma arraySort_perm (cmp : Article -> Article -> option Z) (l : list Article) :
  arraySort cmp l ≡ₚ l.
Proof.
  induction l as [|x l IH]; simpl; [done|].
  by rewrite sortInsert_perm, IH.
Qed.

Lemma validDates_perm (e : Environment) (l l' : list Article) :
  l ≡ₚ l' -> validDates e l = true -> validDates e l' = true.
Proof.
  unfold validDates. rewrite !forallb_forall. intros Hp H a Ha.
  apply H. apply list_elem_of_In. rewrite Hp. by apply list_elem_of_In.
Qed.

Lemma sortedByUpdatedAtDesc_cons (e : Environment) (a b : Article) (l : list Article) :
  sortedByUpdatedAtDesc e (a :: b :: l) =
    notOlder e a b && sortedByUpdatedAtDesc e (b :: l).
Proof. reflexivity. Qed.

Lemma sortInsert_head (cmp : Article -> Article -> option Z) (x y : Article)
    (l : list Article) :
  exists z rest, sortInsert cmp x (y :: l) = z :: rest /\ (z = x \/ z = y).
Proof. simpl. destruct (positive (cmp x y)); eauto. Qed.

Lemma sortInsert_sorted (e : Environment) (x : Article) (l : list Article) :
  validDate e x = true -> validDates e l = true ->
  sortedByUpdatedAtDesc e l = true ->
  sortedByUpdatedAtDesc e (sortInsert (compareUpdatedAt e) x l) = true.
Proof.
  intros Hx. induction l as [|y l IH]; intros Hl Hs; [reflexivity|].
  simpl in Hl. apply andb_true_iff in Hl as [Hy Hl].
  cbn [sortInsert].
  destruct (positive (compareUpdatedAt e x y)) eqn:Hcmp.
  - (* y is more recent than x and stays in front *)
    assert (Hyx : notOlder e y x = true).
    { unfold compareUpdatedAt, positive, notOlder, validDate in *.
      destruct (dateValue e (updatedAt y)), (dateValue e (updatedAt x)); try done.
      apply Z.leb_le. apply Z.ltb_lt in Hcmp. lia. }
    destruct l as [|z l].
    + simpl. by rewrite Hyx.
    + rewrite sortedByUpdatedAtDesc_cons in Hs.
      apply andb_true_iff in Hs as [Hyz Hs].
      specialize (IH Hl Hs).
      destruct (sortInsert_head (compareUpdatedAt e) x z l) as (h & rest & Heq & Hh).
      rewrite Heq in *. rewrite sortedByUpdatedAtDesc_cons, IH.
      destruct Hh as [->| ->]; by rewrite ?Hyx, ?Hyz.
  - (* x goes in front of y *)
    rewrite sortedByUpdatedAtDesc_cons, Hs.
    unfold compareUpdatedAt, positive, notOlder, validDate in *.
    destruct (dateValue e (updatedAt y)), (dateValue e (updatedAt x)); try done.
    rewrite andb_true_r. apply Z.leb_le. apply Z.ltb_ge in Hcmp. lia.
Qed.

(** Sorting an array of valid dates leaves it most recent first. *)
Lemma arraySort_sorted (e : Environment) (l : list Article) :
  validDates e l = true ->
  sortedByUpdatedAtDesc e (arraySort (compareUpdatedAt e) l) = true.
Proof.
  induction l as [|x l IH]; intros Hl; [reflexivity|].
  simpl in Hl. apply andb_true_iff in Hl as [Hx Hl]. simpl.
  apply sortInsert_sorted; [done | | by apply IH].
  eapply validDates_perm; [|exact Hl]. symmetry. apply arraySort_perm.
Qed.

(** *** What a put does *)

(** [writeCollection]: either the quota is exceeded and nothing is
    stored, or the sorted array is stored and becomes the in-memory
    list. *)
Lemma writeCollection_spec (arts : list Article) (w : World) :
  let sorted := arraySort (compareUpdatedAt (env w)) arts in
  (quotaExceeded (env w) (tick w) = true /\
   writeCollection arts w = (Throw "QuotaExceededError", with_tick (S (tick w)) w)) \/
  (quotaExceeded (env w) (tick w) = false /\
   exists w', writeCollection arts w = (Normal true, w') /\
     env w' = env w /\ tick w' = S (S (tick w)) /\
     storedArticles w' = Stored sorted /\
     articles (cms w') = sorted /\
     currentArticle (cms w') = currentArticle (cms w) /\
     isModified (cms w') = isModified (cms w) /\
     conflictResolution (cms w') = conflictResolution (cms w)).
Proof.
  intros sorted. unfold writeCollection, setStoredArticles, loadArticles,
    getStoredArticles, clearAutoSave, updateStorageUsage, showNotification.
  run.
  destruct (quotaExceeded (env w) (tick w)); simpl; [left; done|].
  right. split; [done|].
  destruct (80 <? usagePercent (env w) (S (tick w)))%Z; simpl;
    eexists; (split; [reflexivity|]); simpl; done.
Qed.

Lemma guarded_write_outcome (w w0 : World) (arts : list Article) :
  env w0 = env w -> cms w0 = cms w -> storedArticles w0 = storedArticles w ->
  putOutcome w arts
    (try_catch (writeCollection arts)
       (fun error => handleError "Failed to save article" error;; mret false) w0).
Proof.
  intros He Hc Hs. unfold putOutcome, try_catch.
  destruct (writeCollection_spec arts w0)
    as [[_ ->]|[_ (w' & -> & ? & ? & ? & ? & ? & ? & ?)]].
  - unfold handleError, showNotification. run. rewrite He, Hc, Hs. intuition.
  - simpl. rewrite <- He, <- Hc, <- Hs. intuition.
Qed.

(** [saveToStorage] never throws; it answers [true] after storing the
    sorted array, or [false] with the collection untouched.  The
    run-time and the policy are not changed. *)
Lemma saveToStorage_spec (article : Article) (w : World) :
  putOutcome w (putArticle article (collection w)) (saveToStorage article w).
Proof.
  unfold saveToStorage, putArticle, collection, getStoredArticles.
  unfold try_catch, mbind at 1 2, M_bind at 1 2, gets. simpl.
  destruct (list_find _ _) as [[existingIndex existing]|].
  - destruct (gt _ _ && _).
    + unfold mbind at 1, M_bind at 1, confirm, ask.
      destruct (confirmAnswer _ _ _).
      * by apply guarded_write_outcome.
      * unfold putOutcome, showNotification. run. intuition.
    + by apply guarded_write_outcome.
  - by apply guarded_write_outcome.
Qed.

(** *** Records with one id *)

Lemma withId_none (i : string) (l : list Article) :
  Forall (fun a => id a <> i) l -> withId i l = [].
Proof.
  unfold withId. induction 1 as [|a l Ha _ IH]; [done|].
  by rewrite filter_cons_False.
Qed.

Lemma withId_putArticle (article : Article) (arts : list Article) :
  length (withId (id article) arts) <= 1 ->
  withId (id article) (putArticle article arts) = [article].
Proof.
  unfold putArticle. intros Hlen.
  destruct (list_find _ arts) as [[i existing]|] eqn:Hfind.
  - apply list_find_Some in Hfind as (Hi & Hid & Hbefore).
    apply take_drop_middle in Hi as Hsplit.
    assert (Hlt : i < length arts) by (eapply lookup_lt_Some; eauto).
    rewrite <- Hsplit in Hlen |- *.
    assert (Hpre : withId (id article) (take i arts) = []).
    { apply withId_none. apply Forall_forall. intros a Ha.
      apply list_elem_of_lookup in Ha as [j Hj].
      assert (j < i).
      { apply lookup_lt_Some in Hj. rewrite length_take in Hj. lia. }
      rewrite lookup_take_lt in Hj by done. eauto. }
    rewrite insert_app_r_alt by (rewrite length_take; lia).
    rewrite length_take, Nat.min_l, Nat.sub_diag by lia. simpl.
    unfold withId in *.
    rewrite filter_app, Hpre in Hlen |- *. simpl in *.
    rewrite filter_cons_True in Hlen by done.
    rewrite filter_cons_True by done.
    simpl in Hlen. destruct (filter _ (drop (S i) arts)); simpl in *; [done | lia].
  - apply list_find_None in Hfind.
    unfold withId. rewrite filter_app.
    fold (withId (id article) arts). rewrite withId_none by done.
    simpl. by rewrite filter_cons_True, filter_nil.
Qed.

Lemma withId_arraySort (cmp : Article -> Article -> option Z) (i : string)
    (l : list Article) (a : Article) :
  withId i l = [a] -> withId i (arraySort cmp l) = [a].
Proof.
  unfold withId. intros H.
  assert (Hp : filter (fun a => id a = i) (arraySort cmp l) ≡ₚ [a]).
  { rewrite <- H. by rewrite arraySort_perm. }
  by apply Permutation_singleton_r in Hp.
Qed.

(** *** Sequences of puts *)

Lemma validDates_Forall (e : Environment) (l : list Article) :
  validDates e l = true <-> Forall (fun a => validDate e a = true) l.
Proof.
  unfold validDates. rewrite forallb_forall, Forall_forall.
  split; intros H a Ha; apply H; by apply list_elem_of_In.
Qed.

Lemma validDates_putArticle (e : Environment) (article : Article)
    (arts : list Article) :
  validDates e (article :: arts) = true ->
  validDates e (putArticle article arts) = true.
Proof.
  rewrite !validDates_Forall. intros H.
  apply Forall_cons in H as [Ha Harts]. unfold putArticle.
  destruct (list_find _ arts) as [[i existing]|].
  - by apply Forall_insert.
  - apply Forall_app. split; [done | by constructor].
Qed.

Lemma saveToStorage_result (article : Article) (w : World) :
  result (saveToStorage article) w = Normal true \/
  result (saveToStorage article) w = Normal false.
Proof.
  destruct (saveToStorage_spec article w) as (_ & _ & _ & _ & [[H _]|[H _]]); auto.
Qed.

(** A put leaves a collection of valid dates with valid dates. *)
Lemma saveToStorage_validDates (article : Article) (w : World) :
  validDates (env w) (article :: collection w) = true ->
  validDates (env w) (collection (after (saveToStorage article) w)) = true.
Proof.
  intros Hv.
  destruct (saveToStorage_spec article w) as (_ & _ & _ & _ & [[_ H]|[_ H]]);
    unfold collection, after; rewrite H; simpl.
  - eapply validDates_perm; [symmetry; apply arraySort_perm|].
    by apply validDates_putArticle.
  - simpl in Hv. by apply andb_true_iff in Hv as [_ Hv].
Qed.

(** A put that answers [true] leaves the collection sorted. *)
Lemma saveToStorage_sorted (article : Article) (w : World) :
  validDates (env w) (article :: collection w) = true ->
  result (saveToStorage article) w = Normal true ->
  sortedByUpdatedAtDesc (env w) (collection (after (saveToStorage article) w)) = true.
Proof.
  intros Hv Hr.
  destruct (saveToStorage_spec article w) as (_ & _ & _ & _ & [[_ H]|[H _]]).
  - unfold collection, after. rewrite H. simpl.
    apply arraySort_sorted. by apply validDates_putArticle.
  - unfold result in Hr. congruence.
Qed.

(** A put keeps a sorted collection sorted, whatever its outcome. *)
Lemma saveToStorage_keeps_sorted (article : Article) (w : World) :
  validDates (env w) (article :: collection w) = true ->
  sortedByUpdatedAtDesc (env w) (collection w) = true ->
  sortedByUpdatedAtDesc (env w) (collection (after (saveToStorage article) w)) = true.
Proof.
  intros Hv Hs.
  destruct (saveToStorage_result article w) as [Hr|Hr].
  - by apply saveToStorage_sorted.
  - destruct (saveToStorage_spec article w) as (_ & _ & _ & _ & [[H _]|[_ H]]).
    + unfold result in *. congruence.
    + unfold collection, after. by rewrite H.
Qed.

Lemma after_saveAll_cons (article : Article) (l : list Article) (w : World) :
  after (saveAll (article :: l)) w = after (saveAll l) (after (saveToStorage article) w).
Proof.
  unfold after. cbn [saveAll]. unfold mbind, M_bind.
  destruct (saveToStorage_result article w) as [Hr|Hr]; unfold result in Hr;
    destruct (saveToStorage article w) as [c w']; simpl in *; by subst.
Qed.

Lemma saveAll_keeps_sorted (l : list Article) (w : World) :
  validDates (env w) (l ++ collection w) = true ->
  sortedByUpdatedAtDesc (env w) (collection w) = true ->
  sortedByUpdatedAtDesc (env w) (collection (after (saveAll l) w)) = true.
Proof.
  revert w. induction l as [|a l IH]; intros w Hv Hs; [done|].
  rewrite after_saveAll_cons.
  assert (He : env (after (saveToStorage a) w) = env w)
    by apply saveToStorage_spec.
  unfold validDates in Hv. simpl in Hv. rewrite forallb_app in Hv.
  apply andb_true_iff in Hv as [Ha Hv]. apply andb_true_iff in Hv as [Hl Hc].
  assert (Hac : validDates (env w) (a :: collection w) = true).
  { unfold validDates. simpl. by rewrite Ha, Hc. }
  rewrite <- He. apply IH; rewrite He.
  - unfold validDates. rewrite forallb_app, Hl. simpl.
    by apply saveToStorage_validDates.
  - by apply saveToStorage_keeps_sorted.
Qed.

(** [saveToStorage], branch by branch. *)
Lemma saveToStorage_unfold (article : Article) (w : World) :
  saveToStorage article w =
    match list_find (fun a => id a = id article) (collection w) with
    | Some (existingIndex, existing) =>
        if gt (updatedAt existing) (updatedAt article)
           && String.eqb (conflictResolution (cms w)) "ask"
        then
          if confirmAnswer (env w) (tick w) AskOverwrite
          then guardedWrite (<[existingIndex := article]> (collection w))
                 (with_tick (S (tick w)) w)
          else (Normal false,
                with_page (with_notification
                             ("Save cancelled due to conflict", "warning") (page w))
                  (with_tick (S (tick w)) w))
        else guardedWrite (<[existingIndex := article]> (collection w)) w
    | None => guardedWrite (collection w ++ [article]) w
    end.
Proof.
  unfold saveToStorage, guardedWrite, collection, getStoredArticles.
  unfold try_catch, mbind at 1 2, M_bind at 1 2, gets. simpl.
  destruct (list_find _ _) as [[existingIndex existing]|]; [|reflexivity].
  destruct (gt _ _ && _); [|reflexivity].
  unfold mbind at 1, M_bind at 1, confirm, ask.
  destruct (confirmAnswer _ _ _); reflexivity.
Qed.

Lemma guardedWrite_accepted (arts : list Article) (w : World) :
  quotaExceeded (env w) (tick w) = false ->
  (guardedWrite arts w).1 = Normal true /\
  tick (guardedWrite arts w).2 = S (S (tick w)).
Proof.
  intros Hq. unfold guardedWrite, try_catch.
  destruct (writeCollection_spec arts w) as [[H _]|[_ (w' & -> & ? & ? & _)]];
    [congruence | done].
Qed.

(** Under the [auto] policy a put whose write is accepted succeeds. *)
Lemma saveToStorage_auto (article : Article) (w : World) :
  conflictResolution (cms w) = "auto" ->
  quotaExceeded (env w) (tick w) = false ->
  result (saveToStorage article) w = Normal true /\
  tick (after (saveToStorage article) w) = S (S (tick w)).
Proof.
  intros Hp Hq. unfold result, after. rewrite saveToStorage_unfold, Hp.
  change ("auto" =? "ask") with false.
  destruct (list_find _ _) as [[i existing]|]; rewrite ?andb_false_r;
    by apply guardedWrite_accepted.
Qed.

Lemma two_saves_one_record (w : World) (a1 a2 : Article) :
  conflictResolution (cms w) = "auto" ->
  (forall n, quotaExceeded (env w) n = false) ->
  id a1 = id a2 ->
  length (withId (id a1) (collection w)) <= 1 ->
  let w1 := after (saveToStorage a1) w in
  let w2 := after (saveToStorage a2) w1 in
  result (saveToStorage a1) w = Normal true /\
  result (saveToStorage a2) w1 = Normal true /\
  withId (id a2) (collection w2) = [a2].
Proof.
  intros Hp Hq Hid Hlen w1 w2.
  destruct (saveToStorage_auto a1 w Hp (Hq _)) as [Hr1 _].
  destruct (saveToStorage_spec a1 w) as (He1 & Hp1 & _ & _ & [[_ Hs1]|[Hf _]]);
    [|unfold result in *; congruence].
  change (saveToStorage a1 w).2 with w1 in He1, Hp1, Hs1.
  assert (Hp1' : conflictResolution (cms w1) = "auto") by congruence.
  assert (Hq1 : quotaExceeded (env w1) (tick w1) = false) by (rewrite He1; apply Hq).
  destruct (saveToStorage_auto a2 w1 Hp1' Hq1) as [Hr2 _].
  destruct (saveToStorage_spec a2 w1) as (_ & _ & _ & _ & [[_ Hs2]|[Hf _]]);
    [|unfold result in *; congruence].
  change (saveToStorage a2 w1).2 with w2 in Hs2. repeat split; try done.
  unfold collection at 1. rewrite Hs2. simpl.
  apply withId_arraySort, withId_putArticle.
  unfold collection. rewrite Hs1. simpl. rewrite <- Hid.
  erewrite withId_arraySort; [simpl; lia|].
  by apply withId_putArticle.
Qed.

(** C4, as stated, fails: a collection that is not sorted (one restored
    from a backup, say) is still unsorted after a put that the user
    declined under the [ask] policy. *)
Lemma declined_put_leaves_unsorted :
  let w := worldWith sampleEnv "ask" [olderArticle; newerArticle] in
  result (saveToStorage staleEdit) w = Normal false /\
  collection (after (saveAll [staleEdit]) w) = [olderArticle; newerArticle] /\
  sortedByUpdatedAtDesc (env w) (collection (after (saveAll [staleEdit]) w)) = false.
Proof. repeat split; vm_compute; reflexivity. Qed.

(** C4, amended.  With valid dates in the incoming and the stored
    records: a put that answers [true] leaves the stored collection
    sorted by [updatedAt], most recent first, whatever the collection was
    before; a sorted collection is still sorted after any sequence of
    puts; and under the [auto] policy, with room in the storage, two
    saves of one id both succeed and leave exactly one record with that
    id, the second save's, when the collection had at most one before. *)
Theorem saveToStorage_sorted_and_unique :
  (forall (w : World) (article : Article),
     validDates (env w) (article :: collection w) = true ->
     result (saveToStorage article) w = Normal true ->
     sortedByUpdatedAtDesc (env w) (collection (after (saveToStorage article) w)) = true) /\
  (forall (w : World) (puts : list Article),
     validDates (env w) (puts ++ collection w) = true ->
     sortedByUpdatedAtDesc (env w) (collection w) = true ->
     sortedByUpdatedAtDesc (env w) (collection (after (saveAll puts) w)) = true) /\
  (forall (w : World) (a1 a2 : Article),
     conflictResolution (cms w) = "auto" ->
     (forall n, quotaExceeded (env w) n = false) ->
     id a1 = id a2 ->
     length (withId (id a1) (collection w)) <= 1 ->
     result (saveToStorage a1) w = Normal true /\
     result (saveToStorage a2) (after (saveToStorage a1) w) = Normal true /\
     withId (id a2)
       (collection (after (saveToStorage a2) (after (saveToStorage a1) w))) = [a2]).
Proof.
  split; [|split].
  - intros w article. apply saveToStorage_sorted.
  - intros w puts. apply saveAll_keeps_sorted.
  - intros w a1 a2. apply two_saves_one_record.
Qed.

Lemma saveToStorage_sorted_and_unique_witness :
  let unsorted := worldWith sampleEnv "auto" [olderArticle; newerArticle] in
  let asking := worldWith sampleEnv "ask" [newerArticle; olderArticle] in
  (validDates (env unsorted) (freshArticle :: collection unsorted) = true /\
   result (saveToStorage freshArticle) unsorted = Normal true /\
   sortedByUpdatedAtDesc (env unsorted)
     (collection (after (saveToStorage freshArticle) unsorted)) = true) /\
  (validDates (env asking) ([staleEdit; freshArticle] ++ collection asking) = true /\
   sortedByUpdatedAtDesc (env asking) (collection asking) = true /\
   sortedByUpdatedAtDesc (env asking)
     (collection (after (saveAll [staleEdit; freshArticle]) asking)) = true) /\
  (conflictResolution (cms unsorted) = "auto" /\
   (forall n, quotaExceeded (env unsorted) n = false) /\
   id firstEdit = id secondEdit /\
   length (withId (id firstEdit) (collection unsorted)) <= 1 /\
   withId (id secondEdit)
     (collection (after (saveToStorage secondEdit)
                    (after (saveToStorage firstEdit) unsorted))) = [secondEdit]).
Proof.
  intros unsorted asking.
  destruct saveToStorage_sorted_and_unique as (H1 & H2 & H3).
  assert (Hv1 : validDates (env unsorted) (freshArticle :: collection unsorted) = true)
    by reflexivity.
  assert (Hr1 : result (saveToStorage freshArticle) unsorted = Normal true)
    by reflexivity.
  assert (Hv2 : validDates (env asking) ([staleEdit; freshArticle] ++ collection asking)
                = true) by reflexivity.
  assert (Hs2 : sortedByUpdatedAtDesc (env asking) (collection asking) = true)
    by reflexivity.
  assert (Hq : forall n, quotaExceeded (env unsorted) n = false)
    by (intros n; reflexivity).
  assert (Hlen : length (withId (id firstEdit) (collection unsorted)) <= 1)
    by (vm_compute; lia).
  split; [|split].
  - split; [exact Hv1|]. split; [exact Hr1|]. exact (H1 unsorted freshArticle Hv1 Hr1).
  - split; [exact Hv2|]. split; [exact Hs2|].
    exact (H2 asking [staleEdit; freshArticle] Hv2 Hs2).
  - split; [reflexivity|]. split; [exact Hq|]. split; [reflexivity|].
    split; [exact Hlen|].
    exact (proj2 (proj2 (H3 unsorted firstEdit secondEdit eq_refl Hq eq_refl Hlen))).
Defined.

(** ** Editor session *)

Lemma gets_bind {A B : Type} (f : World -> A) (k : A -> M B) (w : World) :
  (gets f ≫= k) w = k (f w) w.
Proof. reflexivity. Qed.

(** C5.  When the trimmed title or the trimmed editor text is empty,
    [saveArticle] shows a warning and does nothing else: the stored
    collection, the auto-save slot, [currentArticle], [isModified] and
    the in-memory list are what they were.  Hence a save that changes
    the stored collection had a non-empty trimmed title and text. *)
Theorem saveArticle_validation (w : World) :
  (trim (articleTitle (page w)) = "" \/ trim (editorText w) = "" ->
   result saveArticle w = Normal tt /\
   storedArticles (after saveArticle w) = storedArticles w /\
   autoSaved (after saveArticle w) = autoSaved w /\
   cms (after saveArticle w) = cms w /\
   tick (after saveArticle w) = tick w /\
   exists message,
     notifications (page (after saveArticle w))
       = (message, "warning") :: notifications (page w)) /\
  (storedArticles (after saveArticle w) <> storedArticles w ->
   trim (articleTitle (page w)) <> "" /\ trim (editorText w) <> "").
Proof.
  assert (Hfail : trim (articleTitle (page w)) = "" \/ trim (editorText w) = "" ->
    result saveArticle w = Normal tt /\
    storedArticles (after saveArticle w) = storedArticles w /\
    autoSaved (after saveArticle w) = autoSaved w /\
    cms (after saveArticle w) = cms w /\
    tick (after saveArticle w) = tick w /\
    exists message,
      notifications (page (after saveArticle w))
        = (message, "warning") :: notifications (page w)).
  { intros H. unfold result, after, saveArticle, gatherArticleData, editorText in *.
    rewrite !gets_bind. cbn [d_title d_content].
    destruct (truthy (trim (articleTitle (page w)))) eqn:Et; cbn [negb].
    - destruct H as [H|H]; [rewrite H in Et; done|].
      rewrite H. unfold showNotification, modify. simpl. eauto 10.
    - unfold showNotification, modify. simpl. eauto 10. }
  split; [exact Hfail|].
  intros Hchanged.
  destruct (trim (articleTitle (page w))) eqn:Et;
    [exfalso; apply Hchanged; apply Hfail; by left|].
  destruct (trim (editorText w)) eqn:Ec;
    [exfalso; apply Hchanged; apply Hfail; by right|].
  done.
Qed.

Lemma saveArticle_validation_witness :
  (trim (articleTitle (page blankTitleWorld)) = "" \/
   trim (editorText blankTitleWorld) = "") /\
  storedArticles (after saveArticle blankTitleWorld) = storedArticles blankTitleWorld /\
  cms (after saveArticle blankTitleWorld) = cms blankTitleWorld /\
  notifications (page (after saveArticle blankTitleWorld))
    = [("Please enter a title for your article", "warning")] /\
  storedArticles (after saveArticle savingWorld) <> storedArticles savingWorld /\
  trim (articleTitle (page savingWorld)) <> "" /\
  trim (editorText savingWorld) <> "".
Proof.
  assert (H : trim (articleTitle (page blankTitleWorld)) = "" \/
              trim (editorText blankTitleWorld) = "") by (left; reflexivity).
  split; [exact H|].
  destruct (proj1 (saveArticle_validation blankTitleWorld) H)
    as (_ & Hs & _ & Hc & _ & _).
  split; [exact Hs|]. split; [exact Hc|]. split; [reflexivity|].
  assert (Hchanged : storedArticles (after saveArticle savingWorld)
                     <> storedArticles savingWorld)
    by (vm_compute; discriminate).
  split; [exact Hchanged|].
  exact (proj2 (saveArticle_validation savingWorld) Hchanged).
Defined.

(** ** Backup and restore *)

Lemma ret_bind {A B : Type} (a : A) (k : A -> M B) : (mret a ≫= k) = k a.
Proof. reflexivity. Qed.

(** The validation of [restoreFromBackup] passes exactly on the files
    with an array under [articles]. *)
Lemma restoreFromBackup_unfold (file : FileText) (w : World) :
  restoreFromBackup file w =
    match articlesArray file with
    | Some items =>
        if confirmAnswer (env w) (tick w) (AskRestore (length items))
        then
          try_catch
            (setStoredArticles items;; loadArticles;;
             showNotification "Backup restored successfully" "success")
            (handleError "Failed to restore backup") (with_tick (S (tick w)) w)
        else (Normal tt, with_tick (S (tick w)) w)
    | None =>
        (Normal tt,
         with_page (with_notification
                      ("Failed to restore backup. Please try again.", "error") (page w)) w)
    end.
Proof.
  unfold restoreFromBackup, articlesArray.
  destruct file as [|v]; [reflexivity|].
  destruct v as [| |b|n|s|items|props]; try reflexivity.
  unfold getArticlesProp. rewrite ret_bind. cbn beta iota. rewrite ret_bind.
  destruct (lookupProp "articles" props) as [| |b|n|s|items|props'];
    unfold try_catch, mbind, M_bind, mret, M_ret, confirm, ask, throw;
    cbn [toBoolean isArray negb]; rewrite ?orb_true_r; try reflexivity.
  simpl. destruct (confirmAnswer _ _ _); reflexivity.
Qed.

(** C6.  A file without an array under [articles] (not JSON, not an
    object, the key missing, or its value not an array) is refused: the
    error is shown, no dialog is opened, and the stored collection, the
    auto-save slot and [this.*] are untouched.  A file of the backup
    shape passes the validation: the restore dialog is opened, and once
    it is confirmed, with room in the storage, the collection is the
    file's array. *)
Theorem restoreFromBackup_validation :
  (forall (w : World) (file : FileText),
     articlesArray file = None ->
     result (restoreFromBackup file) w = Normal tt /\
     storedArticles (after (restoreFromBackup file) w) = storedArticles w /\
     autoSaved (after (restoreFromBackup file) w) = autoSaved w /\
     cms (after (restoreFromBackup file) w) = cms w /\
     tick (after (restoreFromBackup file) w) = tick w /\
     notifications (page (after (restoreFromBackup file) w))
       = ("Failed to restore backup. Please try again.", "error")
           :: notifications (page w)) /\
  (forall (w : World) (arts : list Article) (exportDate : string),
     let file := Json (backupObject arts exportDate) in
     articlesArray file = Some arts /\
     tick w < tick (after (restoreFromBackup file) w) /\
     (confirmAnswer (env w) (tick w) (AskRestore (length arts)) = true ->
      quotaExceeded (env w) (S (tick w)) = false ->
      storedArticles (after (restoreFromBackup file) w) = Stored arts /\
      notifications (page (after (restoreFromBackup file) w))
        = ("Backup restored successfully", "success") :: notifications (page w))).
Proof.
  split.
  - intros w file Hnone. unfold result, after.
    rewrite restoreFromBackup_unfold, Hnone. simpl. done.
  - intros w arts exportDate file.
    assert (Harr : articlesArray file = Some arts) by reflexivity.
    split; [exact Harr|]. unfold after.
    rewrite restoreFromBackup_unfold, Harr.
    unfold setStoredArticles, loadArticles, getStoredArticles, showNotification,
      handleError.
    destruct (confirmAnswer _ _ _); run;
      destruct (quotaExceeded _ _); simpl; split; try lia; intros; try done.
Qed.

Lemma restoreFromBackup_validation_witness :
  let w := worldWith agreeingEnv "auto" [newerArticle; olderArticle] in
  articlesArray notAnArray = None /\
  storedArticles (after (restoreFromBackup notAnArray) w)
    = Stored [newerArticle; olderArticle] /\
  confirmAnswer (env w) (tick w) (AskRestore 1) = true /\
  quotaExceeded (env w) (S (tick w)) = false /\
  storedArticles
    (after (restoreFromBackup (Json (backupObject [freshArticle] "2024-01-15T10:30:00.000Z"))) w)
    = Stored [freshArticle].
Proof.
  intros w.
  destruct restoreFromBackup_validation as [Hbad Hgood].
  split; [reflexivity|].
  split; [exact (proj1 (proj2 (Hbad w notAnArray eq_refl)))|].
  split; [reflexivity|]. split; [reflexivity|].
  exact (proj1 (proj2 (proj2 (Hgood w [freshArticle] "2024-01-15T10:30:00.000Z"))
                 eq_refl eq_refl)).
Defined.

(** C10.  A confirmed restore with room in the storage stores the
    file's array as it is, in the file's order, and makes it the
    in-memory list; nothing is sorted.  An array that is not sorted by
    [updatedAt] stays unsorted in the storage, and the next put that
    succeeds sorts it (given valid dates). *)
Theorem restoreFromBackup_keeps_order (w : World) (file : FileText)
    (items : list Article) :
  articlesArray file = Some items ->
  confirmAnswer (env w) (tick w) (AskRestore (length items)) = true ->
  quotaExceeded (env w) (S (tick w)) = false ->
  storedArticles (after (restoreFromBackup file) w) = Stored items /\
  collection (after (restoreFromBackup file) w) = items /\
  articles (cms (after (restoreFromBackup file) w)) = items /\
  (sortedByUpdatedAtDesc (env w) items = false ->
   sortedByUpdatedAtDesc (env w) (collection (after (restoreFromBackup file) w)) = false) /\
  (forall article : Article,
     validDates (env w) (article :: items) = true ->
     result (saveToStorage article) (after (restoreFromBackup file) w) = Normal true ->
     sortedByUpdatedAtDesc (env w)
       (collection (after (saveToStorage article) (after (restoreFromBackup file) w)))
       = true).
Proof.
  intros Harr Hyes Hroom.
  assert (H : storedArticles (after (restoreFromBackup file) w) = Stored items /\
              articles (cms (after (restoreFromBackup file) w)) = items /\
              env (after (restoreFromBackup file) w) = env w).
  { unfold after. rewrite restoreFromBackup_unfold, Harr, Hyes.
    unfold setStoredArticles, loadArticles, getStoredArticles, showNotification,
      handleError.
    run. rewrite Hroom. simpl. done. }
  destruct H as (Hs & Ha & He).
  assert (Hc : collection (after (restoreFromBackup file) w) = items)
    by (unfold collection; by rewrite Hs).
  repeat split; try done.
  - by rewrite Hc.
  - intros article Hv Hr. rewrite <- He.
    apply saveToStorage_sorted; [by rewrite He, Hc | done].
Qed.

Lemma restoreFromBackup_keeps_order_witness :
  let w := worldWith agreeingEnv "auto" [freshArticle] in
  let file := Json (backupObject [olderArticle; newerArticle] "2024-01-15T10:30:00.000Z") in
  articlesArray file = Some [olderArticle; newerArticle] /\
  confirmAnswer (env w) (tick w) (AskRestore 2) = true /\
  quotaExceeded (env w) (S (tick w)) = false /\
  storedArticles (after (restoreFromBackup file) w) = Stored [olderArticle; newerArticle] /\
  sortedByUpdatedAtDesc (env w) (collection (after (restoreFromBackup file) w)) = false.
Proof.
  intros w file.
  do 3 (split; [reflexivity|]).
  destruct (restoreFromBackup_keeps_order w file [olderArticle; newerArticle]
              eq_refl eq_refl eq_refl) as (H1 & _ & _ & H4 & _).
  split; [exact H1 | apply H4; reflexivity].
Defined.

(** ** Duplication *)

Lemma noUnderscore_pretty_N_go (x : N) (s : string) :
  noUnderscore s = true -> noUnderscore (pretty_N_go x s) = true.
Proof.
  revert s. induction (N.lt_wf_0 x) as [x _ IH]. intros s Hs.
  destruct (decide (x = 0)%N) as [->|Hx].
  - by rewrite pretty_N_go_0.
  - rewrite pretty_N_go_step by lia.
    apply IH; [apply N.div_lt; lia|].
    simpl. rewrite Hs, andb_true_r.
    assert (Hlt : (x `mod` 10 < 10)%N) by (apply N.mod_lt; lia).
    unfold pretty_N_char. by repeat case_match.
Qed.

Lemma noUnderscore_pretty_Z (z : Z) : noUnderscore (pretty z) = true.
Proof.
  assert (HN : forall n : N, noUnderscore (pretty n) = true).
  { intros n. unfold pretty, pretty_N. case_decide; [done|].
    by apply noUnderscore_pretty_N_go. }
  destruct z as [|p|p]; [done | apply (HN (Npos p)) |].
  unfold pretty, pretty_Z. simpl. apply (HN (Npos p)).
Qed.

(** Two texts without underscore that are followed by an underscore in
    the same string are the same text. *)
Lemma underscore_splits (a b x y : string) :
  noUnderscore a = true -> noUnderscore b = true ->
  a +:+ String "_" x = b +:+ String "_" y -> a = b.
Proof.
  revert b. induction a as [|c a IH]; intros [|d b] Ha Hb Heq; simpl in *.
  - done.
  - injection Heq as <- _. by rewrite Ascii.eqb_refl in Hb.
  - injection Heq as -> _. by rewrite Ascii.eqb_refl in Ha.
  - injection Heq as -> Heq.
    apply andb_true_iff in Ha as [_ Ha]. apply andb_true_iff in Hb as [_ Hb].
    f_equal. by apply IH.
Qed.

(** Ids generated at different clock readings differ. *)
Lemma generated_ids_differ (t1 t2 : Z) (s1 s2 : string) :
  t1 <> t2 ->
  "article_" +:+ pretty t1 +:+ "_" +:+ s1 <> "article_" +:+ pretty t2 +:+ "_" +:+ s2.
Proof.
  intros Hne Heq. apply Hne.
  apply (inj (String.app "article_")) in Heq.
  apply underscore_splits in Heq; [|apply noUnderscore_pretty_Z..].
  by apply (inj pretty) in Heq.
Qed.

Lemma putArticle_In (article : Article) (arts : list Article) :
  article ∈ putArticle article arts.
Proof.
  unfold putArticle. destruct (list_find _ arts) as [[i existing]|] eqn:Hfind.
  - apply list_find_Some in Hfind as (Hi & _).
    apply list_elem_of_lookup. exists i.
    apply list_lookup_insert_eq. by eapply lookup_lt_Some.
  - apply elem_of_app. right. by apply list_elem_of_singleton.
Qed.

(** [loadArticleData] returns normally and leaves the storage alone. *)
Lemma loadArticleData_storage (article : Article) (w : World) :
  (loadArticleData article w).1 = Normal tt /\
  storedArticles (loadArticleData article w).2 = storedArticles w.
Proof.
  unfold loadArticleData, newDateISO, updateStatus, showNotification.
  rewrite gets_bind.
  destruct (isModified (cms w)); run;
    repeat (case_match; simpl in *; simplify_eq); done.
Qed.

(** The object literal of [duplicateArticle] reads the clock for the id,
    the random generator, and the clock twice more. *)
Lemma buildDuplicate_run (article : Article) (w : World) :
  buildDuplicate article w =
    (Normal (mkArticle
               ("article_" +:+ pretty (dateNow (env w) (tick w)) +:+ "_"
                  +:+ randomSuffix (env w) (S (tick w)))
               ("Copy of " +:+ title article) (author article) (category article)
               (summary article) (publicationDate article) (content article)
               (htmlContent article) (wordCount article)
               (isoNow (env w) (2 + tick w)) (isoNow (env w) (3 + tick w))),
     with_tick (4 + tick w) w).
Proof. reflexivity. Qed.

(** What [duplicateArticle] stores once the copy is built and
    [saveToStorage] accepts it. *)
Lemma duplicateArticle_stores (w w' : World) (articleId : string) (index : nat)
    (article duplicate : Article) :
  list_find (fun a => id a = articleId) (articles (cms w)) = Some (index, article) ->
  buildDuplicate article w = (Normal duplicate, w') ->
  result (saveToStorage duplicate) w' = Normal true ->
  collection (after (duplicateArticle articleId) w)
    = arraySort (compareUpdatedAt (env w)) (putArticle duplicate (collection w)).
Proof.
  intros Hfind Hbuild Hsaved.
  assert (Hw : env w' = env w /\ collection w' = collection w).
  { rewrite buildDuplicate_run in Hbuild. by injection Hbuild as _ <-. }
  destruct Hw as [He Hc].
  assert (Hrun : storedArticles (after (duplicateArticle articleId) w)
                 = storedArticles (after (saveToStorage duplicate) w')).
  { unfold after at 1, duplicateArticle, try_catch. rewrite gets_bind, Hfind.
    unfold mbind at 1, M_bind at 1.
    rewrite Hbuild. cbn beta iota. unfold mbind at 1, M_bind at 1.
    unfold result, after in *.
    destruct (saveToStorage duplicate w') as [c w2]. simpl in Hsaved. subst c.
    cbn beta iota. unfold mbind at 1, M_bind at 1.
    destruct (loadArticleData_storage duplicate w2) as [Hn Hs].
    destruct (loadArticleData duplicate w2) as [c w3]. simpl in *. subst c.
    unfold showNotification, modify. simpl. done. }
  unfold collection at 1. rewrite Hrun.
  destruct (saveToStorage_spec duplicate w') as (_ & _ & _ & _ & [[_ Hs]|[Hf _]]);
    [|unfold result in *; congruence].
  unfold after. rewrite Hs, He, Hc. done.
Qed.

Lemma copy_title_differs (t : string) : "Copy of " +:+ t <> t.
Proof. intros H. apply (f_equal String.length) in H. simpl in H. lia. Qed.

(** C7.  The id of the copy comes from the clock and the random
    generator, with no look at the ids in use.  When the two give the id
    of the record being duplicated, the copy has the id of its original,
    and, once [saveToStorage] accepts it, it has taken the original's
    place in the collection: the claim that the id differs fails, against
    the generator's own description as a unique identifier. *)
Theorem duplicateArticle_reuses_id (w : World) (index : nat) (article : Article) :
  list_find (fun a => id a = id article) (articles (cms w)) = Some (index, article) ->
  id article = "article_" +:+ pretty (dateNow (env w) (tick w)) +:+ "_"
                 +:+ randomSuffix (env w) (S (tick w)) ->
  exists (duplicate : Article) (w' : World),
    buildDuplicate article w = (Normal duplicate, w') /\
    id duplicate = id article /\
    title duplicate = "Copy of " +:+ title article /\
    (result (saveToStorage duplicate) w' = Normal true ->
     length (withId (id article) (collection w)) <= 1 ->
     withId (id article) (collection (after (duplicateArticle (id article)) w))
       = [duplicate] /\
     article ∉ collection (after (duplicateArticle (id article)) w)).
Proof.
  intros Hfind Hid.
  pose proof (buildDuplicate_run article w) as Hbuild.
  set (duplicate := mkArticle _ _ _ _ _ _ _ _ _ _ _) in Hbuild.
  set (w' := with_tick (4 + tick w) w) in Hbuild.
  exists duplicate, w'. split; [exact Hbuild|].
  assert (Hsame : id duplicate = id article) by (by rewrite Hid).
  split; [exact Hsame|]. split; [reflexivity|].
  intros Hsaved Hlen.
  rewrite (duplicateArticle_stores w w' (id article) index article duplicate
             Hfind Hbuild Hsaved).
  assert (Hone : withId (id article)
                   (arraySort (compareUpdatedAt (env w))
                      (putArticle duplicate (collection w))) = [duplicate]).
  { rewrite <- Hsame in Hlen |- *. by apply withId_arraySort, withId_putArticle. }
  split; [exact Hone|].
  intros Hin.
  assert (Hin' : article ∈ withId (id article)
                   (arraySort (compareUpdatedAt (env w))
                      (putArticle duplicate (collection w)))).
  { unfold withId. by apply list_elem_of_filter. }
  rewrite Hone in Hin'. apply list_elem_of_singleton in Hin'.
  apply (copy_title_differs (title article)). by rewrite Hin' at 2.
Qed.

Lemma duplicateArticle_reuses_id_witness :
  let w := worldWith sampleEnv "auto" [collidingArticle] in
  list_find (fun a => id a = id collidingArticle) (articles (cms w))
    = Some (0, collidingArticle) /\
  id collidingArticle
    = "article_" +:+ pretty (dateNow (env w) (tick w)) +:+ "_"
      +:+ randomSuffix (env w) (S (tick w)) /\
  map id (collection (after (duplicateArticle (id collidingArticle)) w))
    = [id collidingArticle] /\
  map title (collection (after (duplicateArticle (id collidingArticle)) w))
    = ["Copy of Pump Test"] /\
  collidingArticle ∉ collection (after (duplicateArticle (id collidingArticle)) w).
Proof.
  intros w.
  assert (H1 : list_find (fun a => id a = id collidingArticle) (articles (cms w))
               = Some (0, collidingArticle)) by reflexivity.
  assert (H2 : id collidingArticle
               = "article_" +:+ pretty (dateNow (env w) (tick w)) +:+ "_"
                 +:+ randomSuffix (env w) (S (tick w))) by reflexivity.
  destruct (duplicateArticle_reuses_id w 0 collidingArticle H1 H2)
    as (duplicate & w' & Hb & _ & _ & Hstored).
  rewrite buildDuplicate_run in Hb. injection Hb as <- <-.
  destruct Hstored as [_ Hgone]; [reflexivity | vm_compute; lia |].
  split; [exact H1|]. split; [exact H2|].
  split; [reflexivity|]. split; [reflexivity | exact Hgone].
Defined.

(** ** Literal rewriting *)

Lemma isPrefix_spec (a b : list ascii) :
  isPrefix a b = true <-> exists k, b = a ++ k.
Proof.
  revert b. induction a as [|x a IH]; intros b; simpl.
  - split; eauto.
  - destruct b as [|y b].
    + split; [done | intros [k Hk]; done].
    + rewrite andb_true_iff, Ascii.eqb_eq, IH. split.
      * intros [-> [k ->]]. eauto.
      * intros [k Hk]. injection Hk as -> ->. eauto.
Qed.

Lemma isPrefix_app (a k : list ascii) : isPrefix a (a ++ k) = true.
Proof. apply isPrefix_spec. eauto. Qed.

Lemma isPrefix_false (a b : list ascii) :
  isPrefix a b = false <-> forall k, b <> a ++ k.
Proof.
  split.
  - intros H k ->. by rewrite isPrefix_app in H.
  - intros H. destruct (isPrefix a b) eqn:E; [|done].
    apply isPrefix_spec in E as [k ->]. by destruct (H k).
Qed.

Lemma elem_of_suffixes (x s : list ascii) :
  x ∈ suffixes s <-> x <> [] /\ exists x0, s = x0 ++ x.
Proof.
  induction s as [|c s IH]; simpl.
  - rewrite elem_of_nil. split; [done|].
    intros [Hx [x0 H]]. symmetry in H. apply app_eq_nil in H as [_ ->]. done.
  - rewrite elem_of_cons, IH. split.
    + intros [->|[Hx [x0 ->]]]; [split; [done | by exists []]|].
      split; [done | by exists (c :: x0)].
    + intros [Hx [[|d x0] H]]; simpl in H; [by left|].
      injection H as -> ->. right. eauto.
Qed.

Lemma elem_of_properSuffixes (y s : list ascii) :
  y ∈ properSuffixes s <-> y <> [] /\ exists y0, y0 <> [] /\ s = y0 ++ y.
Proof.
  destruct s as [|c s]; simpl.
  - rewrite elem_of_nil. split; [done|].
    intros [Hy (y0 & _ & H)]. symmetry in H. apply app_eq_nil in H as [_ ->]. done.
  - rewrite elem_of_suffixes. split.
    + intros [Hy [x0 ->]]. split; [done|]. by exists (c :: x0).
    + intros [Hy ([|d y0] & Hne & H)]; [done|]. simpl in H.
      injection H as -> ->. eauto.
Qed.

(** *** The replacement, equation by equation *)

Lemma replace_go_skip (m : list ascii -> option (nat * list ascii))
    (rep : list ascii -> list ascii) (k : nat) (s : list ascii) :
  m [] = None -> replace_go m rep k s = replace_go m rep 0 (drop k s).
Proof.
  intros Hm. revert k. induction s as [|c s IH]; intros [|k]; simpl;
    rewrite ?Hm; auto.
Qed.

Lemma litMatch_nil (L : list ascii) : L <> [] -> litMatch L [] = None.
Proof. by destruct L. Qed.

Lemma lrep_nil (L R : list ascii) : L <> [] -> lrep L R [] = [].
Proof. intros H. unfold lrep. simpl. by rewrite litMatch_nil. Qed.

Lemma lrep_match (L R r : list ascii) :
  L <> [] -> lrep L R (L ++ r) = R ++ lrep L R r.
Proof.
  intros HL. unfold lrep. destruct L as [|c L]; [done|]. simpl.
  unfold litMatch at 1. change (c :: L ++ r) with ((c :: L) ++ r).
  rewrite isPrefix_app. simpl.
  rewrite replace_go_skip by done. by rewrite drop_app_length.
Qed.

Lemma lrep_copy (L R : list ascii) (c : ascii) (s : list ascii) :
  isPrefix L (c :: s) = false -> lrep L R (c :: s) = c :: lrep L R s.
Proof. intros H. unfold lrep. simpl. unfold litMatch at 1. by rewrite H. Qed.

(** *** Occurrences *)

Lemma nowhere_nil (L : list ascii) : L <> [] -> nowhere L [].
Proof.
  intros HL a b H. symmetry in H.
  apply app_eq_nil in H as [_ H]. apply app_eq_nil in H as [H _]. done.
Qed.

Lemma nowhere_cons (L : list ascii) (c : ascii) (s : list ascii) :
  nowhere L (c :: s) <-> isPrefix L (c :: s) = false /\ nowhere L s.
Proof.
  split.
  - intros H. split.
    + apply isPrefix_false. intros k Hk. by apply (H [] k).
    + intros a b Hab. apply (H (c :: a) b). by rewrite Hab.
  - intros [Hp Hs] [|d a] b Hab.
    + simpl in Hab. by apply (proj1 (isPrefix_false _ _) Hp b).
    + simpl in Hab. injection Hab as -> Hab. by apply (Hs a b).
Qed.

Lemma nowhere_app (L s1 s2 : list ascii) :
  nowhere L (s1 ++ s2) -> nowhere L s1 /\ nowhere L s2.
Proof.
  intros H. split.
  - intros a b ->. apply (H a (b ++ s2)). by rewrite <- !app_assoc.
  - intros a b ->. apply (H (s1 ++ a) b). by rewrite <- !app_assoc.
Qed.

(** Where nothing matches nothing is replaced. *)
Lemma lrep_nowhere (L R s : list ascii) :
  L <> [] -> nowhere L s -> lrep L R s = s.
Proof.
  intros HL. induction s as [|c s IH]; intros H; [by apply lrep_nil|].
  apply nowhere_cons in H as [Hp Hs]. rewrite lrep_copy by done.
  by rewrite IH.
Qed.

(** An occurrence of [L'] that begins in front of the rewritten text
    was there before the rewriting. *)
Lemma prefix_through_lrep (L' L R : list ascii) (s pre : list ascii) :
  L <> [] -> cannotEnd L' L R = true -> pre <> [] ->
  isPrefix L' (pre ++ lrep L R s) = true -> isPrefix L' (pre ++ s) = true.
Proof.
  intros HL Hend. revert pre. induction s as [|c s IH]; intros pre Hpre Hp.
  - by rewrite lrep_nil in Hp.
  - destruct (isPrefix L (c :: s)) eqn:Hm.
    + apply isPrefix_spec in Hm as [r Hr]. rewrite Hr in *.
      rewrite lrep_match in Hp by done.
      apply isPrefix_spec in Hp as [k Hk]. apply isPrefix_spec.
      apply app_eq_app in Hk as [y [[-> _]|[HL' Hy]]].
      { exists (y ++ L ++ r). by rewrite <- app_assoc. }
      destruct (decide (y = [])) as [->|Hne].
      { rewrite app_nil_r in HL'. subst L'. eauto. }
      assert (Hin : y ∈ properSuffixes L')
        by (apply elem_of_properSuffixes; eauto).
      unfold cannotEnd in Hend. rewrite forallb_forall in Hend.
      apply list_elem_of_In, Hend in Hin.
      apply andb_true_iff in Hin as [H1 H2].
      assert (HyR : isPrefix y R = true).
      { apply app_eq_app in Hy as [l [[-> _]|[-> _]]]; [apply isPrefix_app|].
        destruct l as [|d l];
          [rewrite app_nil_r; apply isPrefix_spec; exists []; by rewrite app_nil_r|].
        rewrite isPrefix_app in H2. simpl in H2.
        rewrite length_app in H2. simpl in H2.
        apply negb_true_iff, negb_false_iff, Nat.eqb_eq in H2. lia. }
      rewrite HyR in H1. simpl in H1.
      apply isPrefix_spec in H1 as [k1 ->].
      exists (k1 ++ r). subst L'. by rewrite <- !app_assoc.
    + rewrite lrep_copy in Hp by done.
      replace (pre ++ c :: s) with ((pre ++ [c]) ++ s) by (by rewrite <- app_assoc).
      apply IH; [by destruct pre|].
      by rewrite <- app_assoc.
Qed.

Lemma isPrefix_cons_lrep (L' L R : list ascii) (c : ascii) (s : list ascii) :
  L <> [] -> cannotEnd L' L R = true ->
  isPrefix L' (c :: s) = false -> isPrefix L' (c :: lrep L R s) = false.
Proof.
  intros HL Hend Hp. destruct (isPrefix L' (c :: lrep L R s)) eqn:E; [|done].
  apply (prefix_through_lrep L' L R s [c]) in E; try done. simpl in E. congruence.
Qed.

(** A suffix of [x ++ t] is a suffix of [t] or a non-empty suffix of [x]
    followed by [t]. *)
Lemma occurrence_in_app (L x t : list ascii) :
  nowhere L t ->
  (forall x', x' ∈ suffixes x -> isPrefix L (x' ++ t) = false) ->
  nowhere L (x ++ t).
Proof.
  intros Ht. induction x as [|c x IH]; intros Hx; [done|].
  simpl. apply nowhere_cons. split.
  - apply (Hx (c :: x)). simpl. by left.
  - apply IH. intros x' Hx'. apply Hx. simpl. by right.
Qed.

(** After the rewriting of [L] by [R], [L] occurs nowhere. *)
Theorem lrep_removes (L R : list ascii) (s : list ascii) :
  L <> [] -> cannotStart L R = true -> cannotEnd L L R = true ->
  nowhere L (lrep L R s).
Proof.
  intros HL Hstart Hend.
  remember (length s) as n eqn:Hn. revert s Hn.
  induction n as [n IH] using lt_wf_ind. intros s Hn.
  destruct s as [|c s]; [rewrite lrep_nil by done; by apply nowhere_nil|].
  destruct (isPrefix L (c :: s)) eqn:Hm.
  - apply isPrefix_spec in Hm as [r Hr]. rewrite Hr in *.
    rewrite lrep_match by done.
    apply occurrence_in_app.
    + apply (IH (length r)); [|done].
      rewrite Hn, length_app. destruct L; [done | simpl; lia].
    + intros x Hx.
      unfold cannotStart in Hstart. rewrite forallb_forall in Hstart.
      apply list_elem_of_In, Hstart in Hx.
      apply andb_true_iff in Hx as [H1 H2].
      apply negb_true_iff in H1, H2.
      apply isPrefix_false. intros k Hk.
      apply app_eq_app in Hk as [l [[-> _]|[-> _]]].
      * by rewrite isPrefix_app in H1.
      * by rewrite isPrefix_app in H2.
  - rewrite lrep_copy by done. apply nowhere_cons. split.
    + by apply isPrefix_cons_lrep.
    + apply (IH (length s)); [simpl in Hn; lia | done].
Qed.

(** The rewriting of [L] by [R] creates no occurrence of [L']. *)
Theorem lrep_preserves (L' L R : list ascii) (s : list ascii) :
  L <> [] -> L' <> [] ->
  cannotEnd L' L R = true -> cannotBridge L' L R = true ->
  nowhere L' s -> nowhere L' (lrep L R s).
Proof.
  intros HL HL' Hend Hbridge.
  remember (length s) as n eqn:Hn. revert s Hn.
  induction n as [n IH] using lt_wf_ind. intros s Hn Hs.
  destruct s as [|c s]; [rewrite lrep_nil by done; by apply nowhere_nil|].
  destruct (isPrefix L (c :: s)) eqn:Hm.
  - apply isPrefix_spec in Hm as [r Hr]. rewrite Hr in *.
    rewrite lrep_match by done.
    apply nowhere_app in Hs as Hs'. destruct Hs' as [_ Hr'].
    apply occurrence_in_app.
    + apply (IH (length r)); [|done|done].
      rewrite Hn, length_app. destruct L; [done | simpl; lia].
    + intros x Hx.
      destruct (isPrefix L' (x ++ lrep L R r)) eqn:E; [exfalso|done].
      apply elem_of_suffixes in Hx as Hx'. destruct Hx' as [Hxne [x0 HR]].
      apply prefix_through_lrep in E; try done.
      unfold cannotBridge in Hbridge. rewrite forallb_forall in Hbridge.
      apply list_elem_of_In, Hbridge in Hx.
      apply andb_true_iff in Hx as [H1 H2]. apply negb_true_iff in H1.
      apply isPrefix_spec in E as [k Hk].
      apply app_eq_app in Hk as [l [[-> _]|[HL'x Hrl]]].
      * by rewrite isPrefix_app in H1.
      * (* [x] begins [L'], so it ends [L]: the occurrence was in [L ++ r] *)
        rewrite HL'x, isPrefix_app in H2. simpl in H2.
        apply isPrefix_spec in H2 as [z Hz].
        apply (f_equal (@rev ascii)) in Hz.
        rewrite rev_involutive, rev_app_distr, rev_involutive in Hz.
        apply (Hs (rev z) k). rewrite Hz, HL'x, Hrl. by rewrite <- !app_assoc.
  - rewrite lrep_copy by done.
    apply nowhere_cons in Hs as [Hp Hs]. apply nowhere_cons. split.
    + by apply isPrefix_cons_lrep.
    + apply (IH (length s)); [simpl in Hn; lia | done | done].
Qed.

(** ** Clean HTML export *)

(** *** Collapsing whitespace *)

Lemma replace_go_ext (P : list ascii -> Prop)
    (m1 m2 : list ascii -> option (nat * list ascii))
    (rep : list ascii -> list ascii) (k : nat) (s : list ascii) :
  (forall t, P t -> m1 t = m2 t) ->
  (forall c t, P (c :: t) -> P t) ->
  P s -> replace_go m1 rep k s = replace_go m2 rep k s.
Proof.
  intros Hm Htail. revert k. induction s as [|c s IH]; intros k Hs.
  - simpl. by rewrite (Hm [] Hs).
  - pose proof (Htail c s Hs) as Hs'.
    simpl. destruct k as [|k]; [|by apply IH].
    rewrite (Hm _ Hs). destruct (m2 (c :: s)) as [[[|n] cap]|];
      by rewrite IH.
Qed.

Lemma trimStart_length (s : list ascii) : length (trimStart s) <= length s.
Proof.
  induction s as [|c s IH]; simpl; [lia|].
  destruct (isWhiteSpace c); simpl; lia.
Qed.

Lemma trimStart_drop (s : list ascii) :
  drop (length s - length (trimStart s)) s = trimStart s.
Proof.
  induction s as [|c s IH]; simpl; [done|].
  pose proof (trimStart_length s).
  destruct (isWhiteSpace c); simpl.
  - replace (S (length s) - length (trimStart s))
      with (S (length s - length (trimStart s))) by lia.
    simpl. done.
  - by rewrite Nat.sub_diag.
Qed.

Lemma trimStart_head (s : list ascii) : headNotSpace (trimStart s) = true.
Proof.
  induction s as [|c s IH]; simpl; [done|].
  destruct (isWhiteSpace c) eqn:E; [done|]. simpl. by rewrite E.
Qed.

Lemma trimStart_fixed (s : list ascii) : headNotSpace s = true -> trimStart s = s.
Proof.
  destruct s as [|c s]; simpl; [done|].
  by destruct (isWhiteSpace c).
Qed.

(** A greedy run of whitespace, with nothing required after it, is the
    longest one. *)
Lemma star_match_spaces (s : list ascii) :
  star_match CSpace (fun _ => Some (0, [])) s
    = Some (length s - length (trimStart s), []).
Proof.
  induction s as [|c s IH]; simpl; [done|].
  pose proof (trimStart_length s).
  destruct (isWhiteSpace c); simpl.
  - rewrite IH. do 2 f_equal. lia.
  - by rewrite Nat.sub_diag.
Qed.

Lemma match_spaces (c : ascii) (s : list ascii) :
  re_match false re_spaces (c :: s) =
    if isWhiteSpace c then Some (S (length s - length (trimStart s)), []) else None.
Proof.
  unfold re_spaces. cbn [re_match in_class].
  destruct (isWhiteSpace c); [|done].
  change (re_match false []) with (fun _ : list ascii => Some (0, @nil ascii)).
  by rewrite star_match_spaces.
Qed.

Lemma collapse_cons (c : ascii) (s : list ascii) :
  replaceAll false re_spaces (plain " ") (c :: s) =
    if isWhiteSpace c
    then " "%char :: replaceAll false re_spaces (plain " ") (trimStart s)
    else c :: replaceAll false re_spaces (plain " ") s.
Proof.
  unfold replaceAll. cbn [replace_go]. rewrite match_spaces.
  destruct (isWhiteSpace c); [|done].
  rewrite replace_go_skip by done. by rewrite trimStart_drop.
Qed.

Lemma collapse_head (s : list ascii) :
  headNotSpace s = true ->
  headNotSpace (replaceAll false re_spaces (plain " ") s) = true.
Proof.
  destruct s as [|c s]; [done|]. simpl. intros H.
  rewrite collapse_cons. apply negb_true_iff in H. rewrite H. simpl.
  by rewrite H.
Qed.

Lemma collapse_spaced (s : list ascii) :
  spaced (replaceAll false re_spaces (plain " ") s) = true.
Proof.
  remember (length s) as n eqn:Hn. revert s Hn.
  induction n as [n IH] using lt_wf_ind. intros s Hn.
  destruct s as [|c s]; [done|]. rewrite collapse_cons.
  pose proof (trimStart_length s). simpl in Hn.
  destruct (isWhiteSpace c) eqn:E; simpl.
  - rewrite collapse_head by apply trimStart_head. simpl.
    apply (IH (length (trimStart s))); [lia | done].
  - rewrite E. apply (IH (length s)); [lia | done].
Qed.

Lemma collapse_fixed (s : list ascii) :
  spaced s = true -> replaceAll false re_spaces (plain " ") s = s.
Proof.
  induction s as [|c s IH]; [done|]. simpl. intros H.
  apply andb_true_iff in H as [Hc Hs]. rewrite collapse_cons.
  destruct (isWhiteSpace c).
  - apply andb_true_iff in Hc as [Hsp Hh]. apply Ascii.eqb_eq in Hsp as ->.
    rewrite trimStart_fixed by done. by rewrite IH.
  - by rewrite IH.
Qed.

(** *** The passes as literal rewritings *)

Lemma strip_lit_isPrefix (L t : list ascii) :
  strip_lit false L t = if isPrefix L t then Some (drop (length L) t) else None.
Proof.
  revert t. induction L as [|a L IH]; intros [|b t]; simpl; try done.
  unfold char_eq. destruct (Ascii.eqb a b); simpl; [apply IH | done].
Qed.

Lemma spaced_tail (c : ascii) (s : list ascii) : spaced (c :: s) = true -> spaced s = true.
Proof. simpl. intros H. by apply andb_true_iff in H as [_ H]. Qed.

Lemma star_match_head (k : list ascii -> option (nat * list ascii)) (s : list ascii) :
  headNotSpace s = true -> star_match CSpace k s = k s.
Proof.
  destruct s as [|c s]; simpl; [done|]. intros H.
  apply negb_true_iff in H. by rewrite H.
Qed.

Lemma space_isWhiteSpace : isWhiteSpace " " = true.
Proof. reflexivity. Qed.

(** On collapsed whitespace, [/>\s+</] matches the literal [> <]. *)
Lemma match_betweenTags (t : list ascii) :
  spaced t = true -> re_match false re_betweenTags t = litMatch gapBetweenTags t.
Proof.
  intros Hsp. unfold re_betweenTags, litMatch, gapBetweenTags.
  cbn [re_match chars list_ascii_of_string String.length].
  rewrite !strip_lit_isPrefix.
  destruct t as [|c1 t]; [done|]. cbn [isPrefix length drop andb].
  destruct (Ascii.eqb ">" c1); [|done]. cbn [andb].
  apply spaced_tail in Hsp.
  destruct t as [|c2 t]; [done|]. cbn [in_class isPrefix].
  simpl in Hsp. apply andb_true_iff in Hsp as [Hc2 Hsp].
  destruct (isWhiteSpace c2) eqn:Ews.
  - apply andb_true_iff in Hc2 as [Heq Hhead]. apply Ascii.eqb_eq in Heq as ->.
    rewrite Ascii.eqb_refl. cbn [andb drop]. rewrite space_isWhiteSpace.
    rewrite star_match_head by done.
    rewrite strip_lit_isPrefix.
    destruct t as [|c3 t]; [done|]. cbn [isPrefix].
    destruct (Ascii.eqb "<" c3); reflexivity.
  - cbn [drop]. rewrite Ews.
    destruct (Ascii.eqb " " c2) eqn:E; [|done].
    apply Ascii.eqb_eq in E as <-. by rewrite space_isWhiteSpace in Ews.
Qed.

(** [/<p><br><\/p>/] is a literal. *)
Lemma match_brParagraph (t : list ascii) :
  re_match false re_brParagraph t = litMatch brParagraph t.
Proof.
  unfold re_brParagraph, litMatch, brParagraph. cbn [re_match].
  rewrite strip_lit_isPrefix. by destruct (isPrefix _ t).
Qed.

(** On collapsed whitespace without a gap between tags, [/<p>\s*<\/p>/]
    matches the literal [<p></p>]. *)
Lemma match_emptyParagraph (t : list ascii) :
  spaced t = true -> nowhere gapBetweenTags t ->
  re_match false re_emptyParagraph t = litMatch emptyParagraph t.
Proof.
  intros Hsp Hgap. unfold re_emptyParagraph, litMatch, emptyParagraph.
  cbn [re_match chars list_ascii_of_string String.length].
  rewrite strip_lit_isPrefix.
  destruct t as [|c1 [|c2 [|c3 t]]]; try done;
    cbn [isPrefix length drop andb];
    try (destruct (Ascii.eqb "<" c1); [|done]; cbn [andb]);
    try (destruct (Ascii.eqb "p" c2); [|done]; cbn [andb]); try done.
  destruct (Ascii.eqb_spec ">" c3) as [<-|]; [|done]. cbn [andb].
  do 3 apply spaced_tail in Hsp.
  destruct t as [|c4 t]; [done|].
  simpl in Hsp. apply andb_true_iff in Hsp as [Hc4 Hsp].
  destruct (isWhiteSpace c4) eqn:Ews.
  - apply andb_true_iff in Hc4 as [Heq Hhead]. apply Ascii.eqb_eq in Heq as ->.
    cbn [drop star_match in_class]. rewrite space_isWhiteSpace.
    rewrite star_match_head by done.
    rewrite !strip_lit_isPrefix.
    change (Ascii.eqb "<" " ") with false. cbn [andb].
    destruct (isPrefix _ t) eqn:Ep.
    + exfalso. apply isPrefix_spec in Ep as [k ->].
      apply (Hgap (c1 :: c2 :: []) (chars "/p>" ++ k)). reflexivity.
    + reflexivity.
  - cbn [drop]. rewrite star_match_head by (simpl; by rewrite Ews).
    rewrite strip_lit_isPrefix. cbn [isPrefix].
    destruct (Ascii.eqb "<" c4 && _); reflexivity.
Qed.

Lemma replace_betweenTags (s : list ascii) :
  spaced s = true ->
  replaceAll false re_betweenTags (plain "><") s = lrep gapBetweenTags noGap s.
Proof.
  intros Hs. unfold replaceAll, lrep.
  apply (replace_go_ext (fun t => spaced t = true)); [|apply spaced_tail|done].
  apply match_betweenTags.
Qed.

Lemma replace_brParagraph (s : list ascii) :
  replaceAll false re_brParagraph (plain "<p>&nbsp;</p>") s
    = lrep brParagraph nbspParagraph s.
Proof.
  unfold replaceAll, lrep.
  apply (replace_go_ext (fun _ => True)); [|done|done].
  intros t _. apply match_brParagraph.
Qed.

Lemma replace_emptyParagraph (s : list ascii) :
  spaced s = true -> nowhere gapBetweenTags s ->
  replaceAll false re_emptyParagraph (plain "<p>&nbsp;</p>") s
    = lrep emptyParagraph nbspParagraph s.
Proof.
  intros Hs Hg. unfold replaceAll, lrep.
  apply (replace_go_ext (fun t => spaced t = true /\ nowhere gapBetweenTags t));
    [| |done].
  - intros t [H1 H2]. by apply match_emptyParagraph.
  - intros c t [H1 H2]. split; [by eapply spaced_tail|].
    by apply nowhere_cons in H2 as [_ H2].
Qed.

(** *** Collapsed whitespace survives the later passes *)

Lemma spaced_app_r (a b : list ascii) : spaced (a ++ b) = true -> spaced b = true.
Proof.
  induction a as [|c a IH]; [done|]. simpl. intros H.
  apply andb_true_iff in H as [_ H]. auto.
Qed.

Lemma headNotSpace_app (a b : list ascii) :
  a <> [] -> headNotSpace (a ++ b) = headNotSpace a.
Proof. by destruct a. Qed.

Lemma spaced_app_l (a b : list ascii) : spaced (a ++ b) = true -> spaced a = true.
Proof.
  induction a as [|c a IH]; [done|]. simpl. intros H.
  apply andb_true_iff in H as [Hc H]. rewrite (IH H), andb_true_r.
  destruct (isWhiteSpace c); [|done].
  apply andb_true_iff in Hc as [-> Hh]. simpl.
  destruct a as [|d a]; [done|]. exact Hh.
Qed.

Lemma spaced_spaceFree_app (r x : list ascii) :
  spaceFree r = true -> spaced (r ++ x) = spaced x.
Proof.
  induction r as [|c r IH]; [done|]. simpl. intros H.
  apply andb_true_iff in H as [Hc H]. apply negb_true_iff in Hc.
  rewrite Hc. simpl. auto.
Qed.

Lemma lrep_head (L R s : list ascii) :
  L <> [] -> R <> [] -> spaceFree R = true ->
  headNotSpace s = true -> headNotSpace (lrep L R s) = true.
Proof.
  intros HL HR Hfree Hs. destruct s as [|c s]; [by rewrite lrep_nil|].
  destruct (isPrefix L (c :: s)) eqn:Hm.
  - apply isPrefix_spec in Hm as [r ->]. rewrite lrep_match by done.
    rewrite headNotSpace_app by done.
    destruct R as [|d R]; [done|]. simpl in *.
    by apply andb_true_iff in Hfree as [-> _].
  - by rewrite lrep_copy.
Qed.

Lemma lrep_spaced (L R s : list ascii) :
  L <> [] -> R <> [] -> spaceFree R = true ->
  spaced s = true -> spaced (lrep L R s) = true.
Proof.
  intros HL HR Hfree.
  remember (length s) as n eqn:Hn. revert s Hn.
  induction n as [n IH] using lt_wf_ind. intros s Hn Hs.
  destruct s as [|c s]; [by rewrite lrep_nil|].
  destruct (isPrefix L (c :: s)) eqn:Hm.
  - apply isPrefix_spec in Hm as [r Hr]. rewrite Hr in *.
    rewrite lrep_match by done. rewrite spaced_spaceFree_app by done.
    apply (IH (length r)); [|done|by eapply spaced_app_r].
    rewrite Hn, length_app. destruct L; [done | simpl; lia].
  - rewrite lrep_copy by done. simpl in Hs |- *.
    apply andb_true_iff in Hs as [Hc Hs].
    rewrite (IH (length s)) by (simpl in Hn; done || lia).
    rewrite andb_true_r. destruct (isWhiteSpace c); [|done].
    apply andb_true_iff in Hc as [-> Hh]. simpl. by apply lrep_head.
Qed.

(** *** Trimming *)

Lemma trimStart_suffix (s : list ascii) : exists a, s = a ++ trimStart s.
Proof.
  induction s as [|c s [a IH]]; [by exists []|]. simpl.
  destruct (isWhiteSpace c); [|by exists []].
  exists (c :: a). simpl. by rewrite <- IH.
Qed.

Lemma trim_chars_infix (s : list ascii) : exists a b, s = a ++ trim_chars s ++ b.
Proof.
  unfold trim_chars, trimEnd.
  destruct (trimStart_suffix s) as [a Ha].
  destruct (trimStart_suffix (rev (trimStart s))) as [b Hb].
  exists a, (rev b). rewrite <- rev_app_distr, <- Hb, rev_involutive. exact Ha.
Qed.

Lemma trimStart_app_last (v : list ascii) (c : ascii) :
  isWhiteSpace c = false -> trimStart (v ++ [c]) = trimStart v ++ [c].
Proof.
  intros Hc. induction v as [|d v IH]; simpl; [by rewrite Hc|].
  by destruct (isWhiteSpace d).
Qed.

Lemma trimEnd_cons (c : ascii) (s : list ascii) :
  isWhiteSpace c = false -> trimEnd (c :: s) = c :: trimEnd s.
Proof.
  intros Hc. unfold trimEnd. simpl.
  rewrite trimStart_app_last by done. by rewrite rev_app_distr.
Qed.

Lemma trimStart_idem (s : list ascii) : trimStart (trimStart s) = trimStart s.
Proof. apply trimStart_fixed, trimStart_head. Qed.

Lemma trimEnd_idem (s : list ascii) : trimEnd (trimEnd s) = trimEnd s.
Proof. unfold trimEnd. by rewrite rev_involutive, trimStart_idem. Qed.

Lemma trimEnd_head (s : list ascii) :
  headNotSpace s = true -> headNotSpace (trimEnd s) = true.
Proof.
  destruct s as [|c s]; [done|]. simpl. intros H.
  apply negb_true_iff in H. rewrite trimEnd_cons by done. simpl. by rewrite H.
Qed.

Lemma trim_chars_idem (s : list ascii) : trim_chars (trim_chars s) = trim_chars s.
Proof.
  unfold trim_chars.
  rewrite (trimStart_fixed (trimEnd _)) by apply trimEnd_head, trimStart_head.
  apply trimEnd_idem.
Qed.

(** *** Idempotence *)

(** The whitespace and paragraph passes leave tidy markup. *)
Lemma normalizeMarkup_tidy (z : list ascii) : tidy (normalizeMarkup z).
Proof.
  unfold normalizeMarkup.
  set (s1 := replaceAll false re_spaces (plain " ") z).
  assert (H1 : spaced s1 = true) by apply collapse_spaced.
  rewrite (replace_betweenTags s1) by done.
  set (s2 := lrep gapBetweenTags noGap s1).
  assert (H2 : spaced s2 = true) by (by apply lrep_spaced).
  assert (G2 : nowhere gapBetweenTags s2) by (by apply lrep_removes).
  rewrite (replace_brParagraph s2).
  set (s3 := lrep brParagraph nbspParagraph s2).
  assert (H3 : spaced s3 = true) by (by apply lrep_spaced).
  assert (G3 : nowhere gapBetweenTags s3) by (by apply lrep_preserves).
  assert (B3 : nowhere brParagraph s3) by (by apply lrep_removes).
  rewrite (replace_emptyParagraph s3) by done.
  set (s4 := lrep emptyParagraph nbspParagraph s3).
  assert (H4 : spaced s4 = true) by (by apply lrep_spaced).
  assert (G4 : nowhere gapBetweenTags s4) by (by apply lrep_preserves).
  assert (B4 : nowhere brParagraph s4) by (by apply lrep_preserves).
  assert (E4 : nowhere emptyParagraph s4) by (by apply lrep_removes).
  destruct (trim_chars_infix s4) as (a & b & Hs4).
  rewrite Hs4 in H4, G4, B4, E4.
  apply spaced_app_r, spaced_app_l in H4.
  apply nowhere_app in G4 as [_ G4]. apply nowhere_app in G4 as [G4 _].
  apply nowhere_app in B4 as [_ B4]. apply nowhere_app in B4 as [B4 _].
  apply nowhere_app in E4 as [_ E4]. apply nowhere_app in E4 as [E4 _].
  repeat split; try done. apply trim_chars_idem.
Qed.

(** On tidy markup they change nothing. *)
Lemma normalizeMarkup_fixed (y : list ascii) : tidy y -> normalizeMarkup y = y.
Proof.
  intros (Hs & Hg & Hb & He & Ht). unfold normalizeMarkup.
  rewrite collapse_fixed by done.
  rewrite replace_betweenTags, lrep_nowhere by done.
  rewrite replace_brParagraph, lrep_nowhere by done.
  rewrite replace_emptyParagraph, lrep_nowhere by done.
  exact Ht.
Qed.

Lemma normalizeMarkup_idempotent (z : list ascii) :
  normalizeMarkup (normalizeMarkup z) = normalizeMarkup z.
Proof. apply normalizeMarkup_fixed, normalizeMarkup_tidy. Qed.

(** *** Markup without attributes to remove *)

Lemma replace_go_no_match (m : list ascii -> option (nat * list ascii))
    (rep : list ascii -> list ascii) (s : list ascii) :
  (forall a t, s = a ++ t -> m t = None) -> replace_go m rep 0 s = s.
Proof.
  induction s as [|c s IH]; intros H; simpl.
  - by rewrite (H [] []).
  - rewrite (H [] (c :: s)) by done. f_equal. apply IH.
    intros a t ->. by apply (H (c :: a) t).
Qed.

Lemma star_match_none (cl : charclass) (k : list ascii -> option (nat * list ascii))
    (t : list ascii) :
  (forall a u, t = a ++ u -> k u = None) -> star_match cl k t = None.
Proof.
  induction t as [|c t IH]; intros H; simpl.
  - by apply (H [] []).
  - rewrite IH by (intros a u ->; by apply (H (c :: a) u)).
    rewrite (H [] (c :: t)) by done. by destruct (in_class cl c).
Qed.

Lemma lit_no_match (L : string) (r : regex) (t : list ascii) :
  isPrefix (chars L) t = false -> re_match false (Lit L :: r) t = None.
Proof. intros H. cbn [re_match]. by rewrite strip_lit_isPrefix, H. Qed.

Lemma nowhere_isPrefix (L a t : list ascii) :
  nowhere L (a ++ t) -> isPrefix L t = false.
Proof. intros H. apply isPrefix_false. intros k ->. by apply (H a k). Qed.

(** *** Markup with Quill attributes *)

(** *** Occurrences *)

Lemma occurs_cons (L : list ascii) (c : ascii) (s : list ascii) :
  occurs L (c :: s) = isPrefix L (c :: s) || occurs L s.
Proof. reflexivity. Qed.

Lemma occurs_app_r (L a t : list ascii) :
  occurs L t = true -> occurs L (a ++ t) = true.
Proof.
  intros H. induction a as [|c a IH]; [done|].
  cbn [app]. rewrite occurs_cons, IH. apply orb_true_r.
Qed.

Lemma isPrefix_app_r (L t b : list ascii) :
  isPrefix L t = true -> isPrefix L (t ++ b) = true.
Proof.
  intros [k ->]%isPrefix_spec. rewrite <- app_assoc. apply isPrefix_app.
Qed.

Lemma occurs_app_l (L t b : list ascii) :
  occurs L t = true -> occurs L (t ++ b) = true.
Proof.
  induction t as [|c t IH]; [done|].
  cbn [app]. rewrite !occurs_cons. intros [H|H]%orb_true_iff; apply orb_true_iff.
  - left. by apply (isPrefix_app_r L (c :: t) b).
  - right. by apply IH.
Qed.

Lemma occurs_suffix_false (L a t : list ascii) :
  occurs L (a ++ t) = false -> occurs L t = false.
Proof.
  intros H. destruct (occurs L t) eqn:E; [|done].
  by rewrite (occurs_app_r L a t E) in H.
Qed.

Lemma isPrefix_short (a b x : list ascii) :
  length a <= length b -> isPrefix a (b ++ x) = isPrefix a b.
Proof.
  revert b. induction a as [|c a IH]; intros [|e b] H; simpl in *; try done; [lia|].
  rewrite IH by lia. done.
Qed.

(** *** The two attribute patterns *)

Lemma re_match_lit (L : string) (r : regex) (s : list ascii) :
  re_match false (Lit L :: r) s =
    match strip_lit false (chars L) s with
    | Some rest => bump (String.length L) (re_match false r rest)
    | None => None
    end.
Proof. reflexivity. Qed.

(** A literal without [q] cannot reach past a [q]. *)
Lemma isPrefix_stop (L v rest : list ascii) (q : ascii) :
  forallb (fun x => negb (Ascii.eqb x q)) L = true ->
  isPrefix L (v ++ q :: rest) = isPrefix L v.
Proof.
  revert v. induction L as [|x L IH]; intros v H; [by destruct v|].
  cbn [forallb] in H. apply andb_true_iff in H as [Hx HL].
  destruct v as [|c v]; cbn [app isPrefix].
  - apply negb_true_iff in Hx. by rewrite Hx.
  - by rewrite IH.
Qed.

(** The continuation of [class=Q] and [style=Q] in the two patterns:
    [[^Q]*ql-[^Q]*[^Q]*Q]. *)
Lemma qlTail_none (s : list ascii) :
  qlBeforeQuote s = false ->
  star_match (CNot "034")
    (re_match false [Lit "ql-"; Star (CNot "034"); Star (CNot "034"); Lit dq]) s = None.
Proof.
  induction s as [|c s IH]; intros H; [reflexivity|].
  cbn [qlBeforeQuote] in H. unfold quote in H. cbn [star_match in_class].
  destruct (Ascii.eqb c "034") eqn:Hc; cbn [negb].
  - apply lit_no_match. apply Ascii.eqb_eq in Hc as ->. reflexivity.
  - apply orb_false_iff in H as [Hp Hs]. rewrite (IH Hs).
    by apply lit_no_match.
Qed.

Lemma closing_quote (v rest : list ascii) :
  forallb (fun c => negb (Ascii.eqb c quote)) v = true ->
  star_match (CNot "034") (star_match (CNot "034") (re_match false [Lit dq]))
    (v ++ quote :: rest) = Some (S (length v), []).
Proof.
  induction v as [|c v IH]; intros H.
  - reflexivity.
  - cbn [forallb] in H. apply andb_true_iff in H as [Hc Hv]. unfold quote in Hc.
    cbn [app star_match in_class length]. rewrite Hc, (IH Hv). reflexivity.
Qed.

Lemma qlBeforeQuote_value (v rest : list ascii) :
  forallb (fun c => negb (Ascii.eqb c quote)) v = true ->
  qlBeforeQuote (v ++ quote :: rest) = occurs qlToken v.
Proof.
  induction v as [|c v IH]; intros H.
  - cbn. by rewrite Ascii.eqb_refl.
  - cbn [forallb] in H. apply andb_true_iff in H as [Hc Hv].
    cbn [app qlBeforeQuote]. apply negb_true_iff in Hc. rewrite Hc, (IH Hv), occurs_cons.
    f_equal. by apply (isPrefix_stop qlToken (c :: v) rest quote).
Qed.

(** With a [ql-] token in the value, the tail matches up to the closing
    quote. *)
Lemma qlTail_value (v rest : list ascii) :
  forallb (fun c => negb (Ascii.eqb c quote)) v = true ->
  occurs qlToken v = true ->
  star_match (CNot "034")
    (re_match false [Lit "ql-"; Star (CNot "034"); Star (CNot "034"); Lit dq])
    (v ++ quote :: rest) = Some (S (length v), []).
Proof.
  induction v as [|c v IH]; intros H Ho; [done|].
  cbn [forallb] in H. apply andb_true_iff in H as [Hc Hv].
  cbn [app star_match in_class length].
  change (negb (Ascii.eqb c "034")) with (negb (Ascii.eqb c quote)). rewrite Hc.
  destruct (occurs qlToken v) eqn:Hov.
  - by rewrite (IH Hv).
  - rewrite qlTail_none by (by rewrite qlBeforeQuote_value).
    rewrite occurs_cons, Hov, orb_false_r in Ho.
    apply isPrefix_spec in Ho as [k Hk].
    change (c :: v ++ quote :: rest) with ((c :: v) ++ quote :: rest). rewrite Hk.
    assert (Hkq : forallb (fun c => negb (Ascii.eqb c quote)) k = true).
    { assert (Hcv : forallb (fun c => negb (Ascii.eqb c quote)) (c :: v) = true).
      { cbn [forallb]. by rewrite Hc, Hv. }
      rewrite Hk, forallb_app in Hcv. by apply andb_true_iff in Hcv as [_ ?]. }
    rewrite <- app_assoc, re_match_lit. change (chars "ql-") with qlToken.
    rewrite strip_lit_isPrefix, isPrefix_app, drop_app_length.
    change (re_match false [Star (CNot "034"); Star (CNot "034"); Lit dq])
      with (star_match (CNot "034") (star_match (CNot "034") (re_match false [Lit dq]))).
    rewrite (closing_quote k rest Hkq). cbn [bump String.length]. do 2 f_equal.
    apply (f_equal (@length ascii)) in Hk. cbn in Hk. lia.
Qed.

(** The pattern [/AQ[^Q]*ql-[^Q]*[^Q]*Q/] of an attribute start [A]. *)
Lemma qlPattern_none (A : string) (u : list ascii) :
  (forall s, strip_lit false (chars A) u = Some s -> qlBeforeQuote s = false) ->
  re_match false
    [Lit A; Star (CNot "034"); Lit "ql-"; Star (CNot "034"); Star (CNot "034"); Lit dq] u
  = None.
Proof.
  intros H. rewrite re_match_lit.
  destruct (strip_lit false (chars A) u) as [s|]; [|done].
  change (re_match false (Star (CNot "034") :: ?r))
    with (star_match (CNot "034") (re_match false r)).
  by rewrite qlTail_none by auto.
Qed.

Lemma qlPattern_value (A : string) (v rest : list ascii) :
  forallb (fun c => negb (Ascii.eqb c quote)) v = true ->
  occurs qlToken v = true ->
  re_match false
    [Lit A; Star (CNot "034"); Lit "ql-"; Star (CNot "034"); Star (CNot "034"); Lit dq]
    (chars A ++ v ++ quote :: rest)
  = Some (String.length A + S (length v), []).
Proof.
  intros Hv Ho. rewrite re_match_lit, strip_lit_isPrefix, isPrefix_app.
  rewrite drop_app_length.
  change (re_match false (Star (CNot "034") :: ?r))
    with (star_match (CNot "034") (re_match false r)).
  by rewrite qlTail_value.
Qed.

(** *** Markup in pieces *)

Lemma quillMarkup_cons (p : Piece) (d : list Piece) :
  quillMarkup (p :: d) = true -> quillPiece p = true /\ quillMarkup d = true.
Proof.
  unfold quillMarkup. cbn [forallb].
  intros [[[Hp Hd]%andb_true_iff Hq%negb_true_iff]%andb_true_iff Hn%negb_true_iff]%andb_true_iff.
  split; [done|]. rewrite Hd. cbn [andb].
  destruct p as [c|name value]; cbn [skeleton] in Hq, Hn; [|by rewrite Hq, Hn].
  rewrite occurs_cons in Hq, Hn.
  apply orb_false_iff in Hq as [_ ->]. by apply orb_false_iff in Hn as [_ ->].
Qed.

Lemma quillMarkup_suffix (pre d : list Piece) :
  quillMarkup (pre ++ d) = true -> quillMarkup d = true.
Proof.
  induction pre as [|p pre IH]; [done|]. intros H.
  apply IH. by apply (quillMarkup_cons p).
Qed.

Lemma skeleton_withoutClass (d : list Piece) : skeleton (withoutClass d) = skeleton d.
Proof.
  induction d as [|[c|[|] value] d IH]; cbn [withoutClass skeleton]; by rewrite ?IH.
Qed.

Lemma quillMarkup_withoutClass (d : list Piece) :
  quillMarkup d = true -> quillMarkup (withoutClass d) = true.
Proof.
  unfold quillMarkup. rewrite skeleton_withoutClass.
  intros [[Hd ->]%andb_true_iff ->]%andb_true_iff. rewrite !andb_true_r.
  induction d as [|p d IH]; [done|].
  cbn [forallb] in Hd. apply andb_true_iff in Hd as [Hp Hd].
  destruct p as [c|[|] value]; cbn [withoutClass forallb]; rewrite ?Hp; auto.
Qed.

Lemma noClass_withoutClass (d : list Piece) : noClass (withoutClass d) = true.
Proof. induction d as [|[c|[|] value] d IH]; cbn [withoutClass noClass]; done. Qed.

Lemma render_text (s : list ascii) (d : list Piece) :
  render (map Chr s ++ d) = s ++ render d.
Proof. induction s as [|c s IH]; [done|]. cbn. by rewrite IH. Qed.

Lemma skeleton_text (s : list ascii) (d : list Piece) :
  skeleton (map Chr s ++ d) = s ++ skeleton d.
Proof. induction s as [|c s IH]; [done|]. cbn. by rewrite IH. Qed.

Lemma clearOfAttrs_tail (x : ascii) (L : list ascii) :
  clearOfAttrs (x :: L) = true -> clearOfAttrs L = true.
Proof.
  unfold clearOfAttrs. cbn [suffixes forallb length].
  intros [[_ ->]%andb_true_iff Hl%Nat.leb_le]%andb_true_iff.
  apply Nat.leb_le. lia.
Qed.

Lemma isPrefix_attr (x : ascii) (L : list ascii) (name : AttrName) (t : list ascii) :
  clearOfAttrs (x :: L) = true -> isPrefix (x :: L) (attrStart name ++ t) = false.
Proof.
  unfold clearOfAttrs. cbn [suffixes forallb].
  intros [[[Hc Hs]%andb_true_iff _]%andb_true_iff Hl%Nat.leb_le]%andb_true_iff.
  rewrite isPrefix_short by (by destruct name).
  apply negb_true_iff in Hc, Hs. by destruct name.
Qed.

(** A literal that cannot run into an attribute is spelled by the
    leading code units of the markup. *)
Lemma isPrefix_render (L : list ascii) (d : list Piece) :
  clearOfAttrs L = true -> isPrefix L (render d) = true ->
  exists d', d = map Chr L ++ d'.
Proof.
  revert d. induction L as [|x L IH]; intros d Hc H; [by exists d|].
  destruct d as [|[c|name value] d]; [done| |].
  - cbn [render renderPiece app isPrefix] in H.
    apply andb_true_iff in H as [->%Ascii.eqb_eq H].
    destruct (IH d (clearOfAttrs_tail _ _ Hc) H) as [d' ->]. by exists d'.
  - cbn [render renderPiece] in H. rewrite <- !app_assoc in H.
    by rewrite isPrefix_attr in H.
Qed.

Lemma isPrefix_render_skeleton (L : list ascii) (d : list Piece) :
  clearOfAttrs L = true -> isPrefix L (render d) = true ->
  isPrefix L (skeleton d) = true.
Proof.
  intros Hc H. destruct (isPrefix_render L d Hc H) as [d' ->].
  rewrite skeleton_text. apply isPrefix_app.
Qed.

(** No [ql-] token stands before the first double quote of such
    markup: the tokens are behind the opening quotes of the attributes. *)
Lemma qlBeforeQuote_render (d : list Piece) :
  quillMarkup d = true -> qlBeforeQuote (render d) = false.
Proof.
  induction d as [|p d IH]; intros H; [done|].
  pose proof (quillMarkup_cons p d H) as [_ Hd].
  destruct p as [c|name value].
  - cbn [render renderPiece app qlBeforeQuote].
    destruct (Ascii.eqb c quote); [done|]. rewrite (IH Hd), orb_false_r.
    destruct (isPrefix qlToken (c :: render d)) eqn:Hp; [|done].
    apply (isPrefix_render_skeleton qlToken (Chr c :: d) eq_refl) in Hp.
    unfold quillMarkup in H.
    apply andb_true_iff in H as [[_ Hq%negb_true_iff]%andb_true_iff _].
    cbn [skeleton] in Hp, Hq. rewrite occurs_cons, Hp in Hq. done.
  - cbn [render renderPiece]. rewrite <- app_assoc. by destruct name.
Qed.

Lemma attrStart_chr (name : AttrName) (c : ascii) (d : list Piece) :
  isPrefix (attrStart name) (render (Chr c :: d)) = true ->
  exists d', d = map Chr (tail (attrStart name)) ++ d'.
Proof.
  intros H. apply (isPrefix_render (tail (attrStart name)) d); [by destruct name|].
  destruct name; cbn [render renderPiece app] in H;
    by apply andb_true_iff in H as [_ H].
Qed.

(** At a code unit of the rest of the markup neither pattern matches. *)
Lemma qlPattern_chr (name : AttrName) (c : ascii) (d : list Piece) :
  quillMarkup (Chr c :: d) = true ->
  re_match false
    [Lit (str (attrStart name)); Star (CNot "034"); Lit "ql-"; Star (CNot "034");
     Star (CNot "034"); Lit dq] (render (Chr c :: d)) = None.
Proof.
  intros H. apply qlPattern_none. intros s Hs.
  rewrite list_ascii_of_string_of_list_ascii, strip_lit_isPrefix in Hs.
  destruct (isPrefix (attrStart name) (render (Chr c :: d))) eqn:Hp; [|done].
  injection Hs as <-.
  destruct (attrStart_chr name c d Hp) as [d' Hd'].
  apply quillMarkup_cons in H as [_ H].
  rewrite Hd' in H |- *. apply quillMarkup_suffix in H.
  cbn [render renderPiece app]. rewrite render_text.
  replace (drop (length (attrStart name)) (c :: tail (attrStart name) ++ render d'))
    with (render d').
  - by apply qlBeforeQuote_render.
  - by destruct name.
Qed.

(** *** One pass over markup in pieces *)

Lemma replace_go_copy (m : list ascii -> option (nat * list ascii))
    (rep : list ascii -> list ascii) (block s : list ascii) :
  Forall (fun t => m (t ++ s) = None) (suffixes block) ->
  replace_go m rep 0 (block ++ s) = block ++ replace_go m rep 0 s.
Proof.
  induction block as [|c block IH]; intros H; [done|].
  cbn [suffixes] in H. apply Forall_cons in H as [Hc H].
  cbn [app replace_go]. cbn [app] in Hc. rewrite Hc. f_equal. by apply IH.
Qed.

Lemma replace_go_match (m : list ascii -> option (nat * list ascii))
    (rep : list ascii -> list ascii) (s : list ascii) (n : nat) (cap : list ascii) :
  m [] = None -> m s = Some (S n, cap) ->
  replace_go m rep 0 s = rep cap ++ replace_go m rep 0 (drop (S n) s).
Proof.
  intros Hnil Hm. destruct s as [|c s]; [congruence|].
  cbn [replace_go drop]. rewrite Hm. f_equal. by apply replace_go_skip.
Qed.

Lemma suffixes_app (a b : list ascii) :
  suffixes (a ++ b) = map (fun t => t ++ b) (suffixes a) ++ suffixes b.
Proof. induction a as [|c a IH]; [done|]. cbn. by rewrite IH. Qed.

(** A literal [P e q] cannot start inside a value that holds neither
    [e] nor [q], whatever follows its closing [q]. *)
Lemma isPrefix_blocked (P : list ascii) (e q : ascii) (v rest : list ascii) :
  forallb (fun x => negb (Ascii.eqb x q)) P = true -> Ascii.eqb e q = false ->
  forallb (fun c => negb (Ascii.eqb c q) && negb (Ascii.eqb c e)) v = true ->
  isPrefix (P ++ [e; q]) (v ++ q :: rest) = false.
Proof.
  revert v. induction P as [|p P IH]; intros v HP He Hv.
  - destruct v as [|c v]; cbn [app isPrefix]; [by rewrite He|].
    cbn [forallb] in Hv. apply andb_true_iff in Hv as [[_ Hc]%andb_true_iff _].
    apply negb_true_iff in Hc. by rewrite Ascii.eqb_sym, Hc.
  - cbn [forallb] in HP. apply andb_true_iff in HP as [Hp HP].
    destruct v as [|c v]; cbn [app isPrefix].
    + apply negb_true_iff in Hp. by rewrite Hp.
    + cbn [forallb] in Hv. apply andb_true_iff in Hv as [_ Hv].
      by rewrite (IH v HP He Hv), andb_false_r.
Qed.

Lemma forallb_suffix (f : ascii -> bool) (a t : list ascii) :
  forallb f (a ++ t) = true -> forallb f t = true.
Proof. rewrite forallb_app. by intros [_ ?]%andb_true_iff. Qed.

(** Inside a [style] attribute the [class] pattern finds nothing. *)
Lemma qlClass_in_style (value s : list ascii) :
  quillValue value = true ->
  Forall (fun t => re_match false re_qlClass (t ++ s) = None)
    (suffixes (attrStart StyleAttr ++ value ++ [quote])).
Proof.
  intros [Hv _]%andb_true_iff. rewrite suffixes_app. apply Forall_app. split.
  - cbn. repeat constructor.
  - apply Forall_forall. intros t [Ht [a Ha]]%elem_of_suffixes.
    apply lit_no_match.
    destruct (decide (t = [quote])) as [->|Hq]; [done|].
    assert (exists v', t = v' ++ [quote] /\ value = a ++ v') as (v' & -> & ->).
    { destruct (exists_last Ht) as (v' & x & ->).
      rewrite app_assoc in Ha. apply app_inj_tail in Ha as [Ha <-]. eauto. }
    rewrite <- app_assoc. cbn [app].
    apply (isPrefix_blocked (chars "class") "=" quote); [done..|].
    by apply forallb_suffix in Hv.
Qed.

(** The first pass removes exactly the [class] attributes. *)
Lemma strip_class (d : list Piece) :
  quillMarkup d = true ->
  replaceAll false re_qlClass (plain "") (render d) = render (withoutClass d).
Proof.
  unfold replaceAll. induction d as [|p d IH]; intros H; [done|].
  pose proof (quillMarkup_cons p d H) as [Hp Hd].
  destruct p as [c|[|] value].
  - pose proof (qlPattern_chr ClassAttr c d H) as Hm.
    cbn [render renderPiece app] in Hm |- *. cbn [replace_go].
    change (re_match false [Lit (str (attrStart ClassAttr)); Star (CNot "034"); Lit "ql-";
                            Star (CNot "034"); Star (CNot "034"); Lit dq])
      with (re_match false re_qlClass) in Hm.
    rewrite Hm. cbn [withoutClass render renderPiece app]. f_equal. by apply IH.
  - cbn [withoutClass render renderPiece]. rewrite <- !app_assoc. cbn [app].
    apply andb_true_iff in Hp as [Hv Ho].
    assert (Hq : forallb (fun c => negb (Ascii.eqb c quote)) value = true).
    { clear -Hv. induction value as [|c v IHv]; [done|]. cbn [forallb] in *.
      apply andb_true_iff in Hv as [[-> _]%andb_true_iff Hv]. auto. }
    assert (Hm : re_match false re_qlClass (attrStart ClassAttr ++ value ++ quote :: render d)
                 = Some (S (6 + S (length value)), [])).
    { exact (qlPattern_value (str (attrStart ClassAttr)) value (render d) Hq Ho). }
    rewrite (replace_go_match _ _ _ _ _ eq_refl Hm).
    cbn [plain chars list_ascii_of_string app].
    rewrite <- (IH Hd). f_equal.
    replace (S (6 + S (length value)))
      with (length (attrStart ClassAttr ++ value ++ [quote]))
      by (rewrite !length_app; cbn; lia).
    change (attrStart ClassAttr ++ value ++ quote :: render d)
      with (attrStart ClassAttr ++ value ++ [quote] ++ render d).
    rewrite !app_assoc, <- (app_assoc (attrStart ClassAttr)). apply drop_app_length.
  - cbn [withoutClass render renderPiece].
    rewrite replace_go_copy by (by apply qlClass_in_style). f_equal. by apply IH.
Qed.

(** The third pass removes the [style] attributes, which are all that
    is left of the Quill attributes. *)
Lemma strip_style (d : list Piece) :
  quillMarkup d = true -> noClass d = true ->
  replaceAll false re_qlStyle (plain "") (render d) = skeleton d.
Proof.
  unfold replaceAll. induction d as [|p d IH]; intros H Hn; [done|].
  pose proof (quillMarkup_cons p d H) as [Hp Hd].
  destruct p as [c|[|] value]; [| done |].
  - pose proof (qlPattern_chr StyleAttr c d H) as Hm.
    cbn [render renderPiece app] in Hm |- *. cbn [replace_go].
    change (re_match false [Lit (str (attrStart StyleAttr)); Star (CNot "034"); Lit "ql-";
                            Star (CNot "034"); Star (CNot "034"); Lit dq])
      with (re_match false re_qlStyle) in Hm.
    rewrite Hm. cbn [skeleton]. f_equal. by apply IH.
  - cbn [skeleton render renderPiece]. rewrite <- !app_assoc. cbn [app].
    apply andb_true_iff in Hp as [Hv Ho].
    assert (Hq : forallb (fun c => negb (Ascii.eqb c quote)) value = true).
    { clear -Hv. induction value as [|c v IHv]; [done|]. cbn [forallb] in *.
      apply andb_true_iff in Hv as [[-> _]%andb_true_iff Hv]. auto. }
    assert (Hm : re_match false re_qlStyle (attrStart StyleAttr ++ value ++ quote :: render d)
                 = Some (S (6 + S (length value)), [])).
    { exact (qlPattern_value (str (attrStart StyleAttr)) value (render d) Hq Ho). }
    rewrite (replace_go_match _ _ _ _ _ eq_refl Hm).
    cbn [plain chars list_ascii_of_string app].
    rewrite <- (IH Hd Hn). f_equal.
    replace (S (6 + S (length value)))
      with (length (attrStart StyleAttr ++ value ++ [quote]))
      by (rewrite !length_app; cbn; lia).
    change (attrStart StyleAttr ++ value ++ quote :: render d)
      with (attrStart StyleAttr ++ value ++ [quote] ++ render d).
    rewrite !app_assoc, <- (app_assoc (attrStart StyleAttr)). apply drop_app_length.
Qed.

(** *** The empty-class pattern *)

Lemma emptyAfterSpaces_none (s : list ascii) :
  emptyAfterSpaces s = false ->
  star_match CSpace (re_match false [Lit (dq +:+ dq); Star CSpace]) s = None.
Proof.
  induction s as [|c s IH]; intros H; [reflexivity|].
  cbn [emptyAfterSpaces] in H. cbn [star_match in_class].
  destruct (isWhiteSpace c) eqn:Hc.
  - rewrite (IH H). apply lit_no_match.
    change (chars (dq +:+ dq)) with twoQuotes. cbn [twoQuotes isPrefix].
    destruct (Ascii.eqb quote c) eqn:E; [|done].
    apply Ascii.eqb_eq in E as <-. done.
  - apply lit_no_match. by change (chars (dq +:+ dq)) with twoQuotes.
Qed.

Lemma equalsEmpty_suffix (a t : list ascii) :
  equalsEmpty (a ++ t) = false -> equalsEmpty t = false.
Proof.
  induction a as [|c a IH]; [done|]. cbn [app equalsEmpty].
  intros [_ H]%orb_false_iff. by apply IH.
Qed.

(** [/\s*class\s*=\s*QQ\s*/] needs an equals sign, whitespace and two
    double quotes. *)
Lemma emptyClass_none (t : list ascii) :
  equalsEmpty t = false -> re_match false re_emptyClass t = None.
Proof.
  intros H. unfold re_emptyClass.
  change (re_match false (Star CSpace :: ?r)) with (star_match CSpace (re_match false r)).
  apply star_match_none. intros a u ->. apply equalsEmpty_suffix in H.
  rewrite re_match_lit, strip_lit_isPrefix.
  destruct (isPrefix (chars "class") u) eqn:Hp; [|done].
  apply isPrefix_spec in Hp as [k ->]. rewrite drop_app_length.
  apply equalsEmpty_suffix in H.
  change (re_match false (Star CSpace :: ?r)) with (star_match CSpace (re_match false r)).
  rewrite star_match_none; [done|].
  intros b u2 ->. apply equalsEmpty_suffix in H.
  rewrite re_match_lit, strip_lit_isPrefix.
  destruct u2 as [|c u2]; [done|]. cbn [chars list_ascii_of_string isPrefix].
  destruct (Ascii.eqb "=" c) eqn:Hc; [|done]. cbn [andb drop length].
  cbn [equalsEmpty] in H. rewrite Ascii.eqb_sym, Hc in H.
  apply orb_false_iff in H as [H _]. cbn [andb] in H.
  change (re_match false (Star CSpace :: ?r)) with (star_match CSpace (re_match false r)).
  by rewrite emptyAfterSpaces_none.
Qed.

Lemma equalsEmpty_other (c : ascii) (s : list ascii) :
  Ascii.eqb c "=" = false -> equalsEmpty (c :: s) = equalsEmpty s.
Proof. intros H. cbn [equalsEmpty]. by rewrite H. Qed.

Lemma equalsEmpty_attrStart (name : AttrName) (rest : list ascii) :
  emptyAfterSpaces (quote :: rest) = false ->
  equalsEmpty (attrStart name ++ rest) = equalsEmpty (quote :: rest).
Proof.
  intros H.
  assert (Heq : equalsEmpty ("="%char :: quote :: rest) = equalsEmpty (quote :: rest)).
  { change (equalsEmpty ("="%char :: quote :: rest))
      with (Ascii.eqb "=" "=" && emptyAfterSpaces (quote :: rest)
            || equalsEmpty (quote :: rest)).
    by rewrite H, andb_false_r. }
  destruct name.
  - change (attrStart ClassAttr ++ rest)
      with ("c"%char :: "l"%char :: "a"%char :: "s"%char :: "s"%char :: "="%char
            :: quote :: rest).
    by do 5 (rewrite equalsEmpty_other by reflexivity).
  - change (attrStart StyleAttr ++ rest)
      with ("s"%char :: "t"%char :: "y"%char :: "l"%char :: "e"%char :: "="%char
            :: quote :: rest).
    by do 5 (rewrite equalsEmpty_other by reflexivity).
Qed.

Lemma equalsEmpty_value (v s : list ascii) :
  forallb plainValueChar v = true -> equalsEmpty (v ++ s) = equalsEmpty s.
Proof.
  induction v as [|c v IH]; intros H; [done|].
  cbn [forallb] in H. apply andb_true_iff in H as [[_ Hc]%andb_true_iff Hv].
  cbn [app equalsEmpty]. apply negb_true_iff in Hc. by rewrite Hc, IH.
Qed.

(** Two double quotes after whitespace would be two double quotes of
    the rest of the markup. *)
Lemma emptyAfterSpaces_render (d : list Piece) :
  emptyAfterSpaces (render d) = true -> occurs twoQuotes (skeleton d) = true.
Proof.
  induction d as [|[c|name value] d IH]; [done| |by destruct name].
  cbn [render renderPiece app emptyAfterSpaces skeleton]. rewrite occurs_cons.
  destruct (isWhiteSpace c).
  - intros H. by rewrite (IH H), orb_true_r.
  - intros H.
    pose proof (isPrefix_render_skeleton twoQuotes (Chr c :: d) eq_refl H) as Hs.
    cbn [skeleton] in Hs. by rewrite Hs.
Qed.

Lemma equalsEmpty_render (d : list Piece) :
  quillMarkup d = true -> equalsEmpty (render d) = false.
Proof.
  induction d as [|p d IH]; intros H; [done|].
  pose proof (quillMarkup_cons p d H) as [Hp Hd].
  destruct p as [c|name value].
  - cbn [render renderPiece app equalsEmpty]. rewrite (IH Hd), orb_false_r.
    destruct (emptyAfterSpaces (render d)) eqn:He; [|by rewrite andb_false_r].
    apply emptyAfterSpaces_render in He.
    unfold quillMarkup in Hd. rewrite He in Hd. by rewrite andb_false_r in Hd.
  - apply andb_true_iff in Hp as [Hv Ho].
    assert (Hhead : emptyAfterSpaces (quote :: value ++ quote :: render d) = false).
    { destruct value as [|c v]; [done|].
      cbn [forallb] in Hv. apply andb_true_iff in Hv as [[Hc _]%andb_true_iff _].
      apply negb_true_iff in Hc. cbn. by rewrite Ascii.eqb_sym, Hc. }
    assert (Htail : equalsEmpty (value ++ quote :: render d) = false).
    { rewrite equalsEmpty_value by done.
      rewrite equalsEmpty_other by reflexivity. by apply IH. }
    cbn [render renderPiece]. rewrite <- !app_assoc. cbn [app].
    rewrite equalsEmpty_attrStart by done.
    by rewrite equalsEmpty_other by reflexivity.
Qed.

(** The three attribute passes remove exactly the Quill attributes. *)
Lemma stripQuillAttributes_render (d : list Piece) :
  quillMarkup d = true -> stripQuillAttributes (render d) = skeleton d.
Proof.
  intros H. unfold stripQuillAttributes. rewrite (strip_class d H).
  pose proof (quillMarkup_withoutClass d H) as H1.
  unfold replaceAll at 2. rewrite (replace_go_no_match (re_match false re_emptyClass)).
  - rewrite (strip_style _ H1 (noClass_withoutClass d)). apply skeleton_withoutClass.
  - intros a t Hs. apply emptyClass_none. apply (equalsEmpty_suffix a).
    rewrite <- Hs. by apply equalsEmpty_render.
Qed.

(** *** Text without [ql-] tokens and without empty values *)

Lemma qlBeforeQuote_occurs (s : list ascii) :
  qlBeforeQuote s = true -> occurs qlToken s = true.
Proof.
  induction s as [|c s IH]; [done|]. cbn [qlBeforeQuote]. rewrite occurs_cons.
  destruct (Ascii.eqb c quote); [done|].
  intros [H|H]%orb_true_iff; apply orb_true_iff; auto.
Qed.

Lemma emptyAfterSpaces_occurs (s : list ascii) :
  emptyAfterSpaces s = true -> occurs twoQuotes s = true.
Proof.
  induction s as [|c s IH]; [done|]. cbn [emptyAfterSpaces]. rewrite occurs_cons.
  destruct (isWhiteSpace c); intros H; apply orb_true_iff; auto.
Qed.

Lemma equalsEmpty_occurs (s : list ascii) :
  equalsEmpty s = true -> occurs twoQuotes s = true.
Proof.
  induction s as [|c s IH]; [done|]. cbn [equalsEmpty]. rewrite occurs_cons.
  intros [[_ H]%andb_true_iff|H]%orb_true_iff; apply orb_true_iff; right; auto.
  by apply emptyAfterSpaces_occurs.
Qed.

(** Without a [ql-] token and without two double quotes in a row the
    three attribute passes find nothing. *)
Lemma stripQuillAttributes_clean (y : list ascii) :
  occurs qlToken y = false -> occurs twoQuotes y = false ->
  stripQuillAttributes y = y.
Proof.
  intros Hq Hn.
  assert (Hql : forall (A : string) (a t : list ascii), y = a ++ t ->
            re_match false
              [Lit A; Star (CNot "034"); Lit "ql-"; Star (CNot "034"); Star (CNot "034");
               Lit dq] t = None).
  { intros A a t ->. apply qlPattern_none. intros s Hs.
    rewrite strip_lit_isPrefix in Hs. destruct (isPrefix (chars A) t); [|done].
    injection Hs as <-. destruct (qlBeforeQuote _) eqn:E; [|done].
    apply qlBeforeQuote_occurs in E.
    rewrite <- (take_drop (length (chars A)) t), app_assoc in Hq.
    by rewrite (occurs_app_r _ _ _ E) in Hq. }
  unfold stripQuillAttributes, replaceAll.
  rewrite (replace_go_no_match (re_match false re_qlClass)) by apply Hql.
  rewrite (replace_go_no_match (re_match false re_emptyClass)).
  2:{ intros a t ->. apply emptyClass_none. destruct (equalsEmpty t) eqn:E; [|done].
      apply equalsEmpty_occurs in E. by rewrite (occurs_app_r _ _ _ E) in Hn. }
  apply replace_go_no_match, Hql.
Qed.

(** *** What the other passes cannot create *)

Lemma apartFrom_head (R : list ascii) (x : ascii) (L : list ascii) (r : ascii)
    (t : list ascii) :
  apartFrom R (x :: L) = true -> In r R -> isPrefix (x :: L) (r :: t) = false.
Proof.
  cbn [apartFrom forallb]. intros [Hx _]%andb_true_iff Hr. cbn [isPrefix].
  destruct (Ascii.eqb x r) eqn:E; [|done]. apply Ascii.eqb_eq in E as ->.
  apply negb_true_iff in Hx. assert (existsb (Ascii.eqb r) R = true); [|congruence].
  apply existsb_exists. exists r. split; [done | apply Ascii.eqb_refl].
Qed.

Lemma occurs_past (R L t : list ascii) :
  L <> [] -> apartFrom R L = true -> occurs L (R ++ t) = occurs L t.
Proof.
  intros HL Ha. destruct L as [|x L]; [done|].
  assert (H : forall R', (forall r, In r R' -> In r R) -> occurs (x :: L) (R' ++ t)
                                                          = occurs (x :: L) t).
  { induction R' as [|r R' IH]; intros Hin; [done|].
    cbn [app]. rewrite occurs_cons, IH by (intros; apply Hin; by right).
    rewrite (apartFrom_head R x L r) by (auto; apply Hin; by left). done. }
  by apply H.
Qed.

Lemma isPrefix_replaced (m : list ascii -> option (nat * list ascii)) (R L : list ascii)
    (s : list ascii) :
  R <> [] -> apartFrom R L = true ->
  isPrefix L (replace_go m (fun _ => R) 0 s) = true -> isPrefix L s = true.
Proof.
  intros HR. revert L. induction s as [|c s IH]; intros [|x L] Ha H; try done.
  - exfalso. cbn [replace_go] in H.
    destruct (m []) as [[n cap]|]; [|done].
    destruct R as [|r R]; [done|]. by rewrite (apartFrom_head (r :: R) x L r) in H; [|done|left].
  - cbn [replace_go] in H.
    assert (Hcopy : isPrefix (x :: L) (c :: replace_go m (fun _ => R) 0 s) = true ->
                    isPrefix (x :: L) (c :: s) = true).
    { cbn [isPrefix]. intros [-> HL]%andb_true_iff. rewrite IH; [done| |done].
      cbn [apartFrom forallb] in Ha. by apply andb_true_iff in Ha as [_ ?]. }
    destruct R as [|r R]; [done|].
    destruct (m (c :: s)) as [[[|n] cap]|]; [| |by apply Hcopy].
    + exfalso. cbn [app] in H. by rewrite (apartFrom_head (r :: R) x L r) in H; [|done|left].
    + exfalso. cbn [app] in H. by rewrite (apartFrom_head (r :: R) x L r) in H; [|done|left].
Qed.

(** A pass that writes [R] creates no occurrence of a literal that
    shares no code unit with [R]. *)
Lemma occurs_replaced (m : list ascii -> option (nat * list ascii)) (R L : list ascii)
    (k : nat) (s : list ascii) :
  R <> [] -> L <> [] -> apartFrom R L = true ->
  occurs L s = false -> occurs L (replace_go m (fun _ => R) k s) = false.
Proof.
  intros HR HL Ha. revert k. induction s as [|c s IH]; intros k H.
  - destruct k; cbn [replace_go]; [|done].
    destruct (m []) as [[n cap]|]; [|done].
    rewrite <- (app_nil_r R). by rewrite occurs_past.
  - rewrite occurs_cons in H. apply orb_false_iff in H as [Hp Hs].
    destruct k as [|k]; cbn [replace_go]; [|by apply IH].
    assert (Hcopy : occurs L (c :: replace_go m (fun _ => R) 0 s) = false).
    { rewrite occurs_cons, (IH 0 Hs), orb_false_r.
      destruct (isPrefix L (c :: replace_go m (fun _ => R) 0 s)) eqn:E; [|done].
      assert (E' : isPrefix L (replace_go m (fun _ => R) 0 (c :: s)) = true
                   \/ m (c :: s) <> None).
      { cbn [replace_go]. destruct (m (c :: s)); [by right | by left]. }
      destruct L as [|x L]; [done|]. cbn [isPrefix] in E, Hp.
      apply andb_true_iff in E as [Hx E]. rewrite Hx in Hp. cbn [andb] in Hp.
      apply (isPrefix_replaced m R L s HR) in E; [congruence|].
      cbn [apartFrom forallb] in Ha. by apply andb_true_iff in Ha as [_ ?]. }
    destruct (m (c :: s)) as [[[|n] cap]|]; [| |done].
    + by rewrite occurs_past.
    + rewrite occurs_past by done. by apply IH.
Qed.

Lemma occurs_trim (L s : list ascii) :
  occurs L s = false -> occurs L (trim_chars s) = false.
Proof.
  intros H. destruct (trim_chars_infix s) as (a & b & Hs).
  destruct (occurs L (trim_chars s)) eqn:E; [|done].
  rewrite Hs in H. by rewrite (occurs_app_r _ a _ (occurs_app_l _ _ b E)) in H.
Qed.

(** The whitespace and paragraph passes create neither a [ql-] token nor
    two double quotes in a row. *)
Lemma occurs_normalizeMarkup (L : list ascii) (s : list ascii) :
  L <> [] ->
  apartFrom (chars " ") L = true -> apartFrom (chars "><") L = true ->
  apartFrom (chars "<p>&nbsp;</p>") L = true ->
  occurs L s = false -> occurs L (normalizeMarkup s) = false.
Proof.
  intros HL H1 H2 H3 H. unfold normalizeMarkup, replaceAll, plain.
  apply occurs_trim.
  do 2 (apply occurs_replaced; [done..|]).
  by do 2 (apply occurs_replaced; [done..|]).
Qed.

(** C8, as stated, fails: removing a class attribute can splice another
    one together, which only the second application removes. *)
Lemma quotedClassText_not_idempotent :
  cleanHTMLForExport quotedClassText = "<p>class=" +:+ dq +:+ "ql-b" +:+ dq +:+ "</p>" /\
  cleanHTMLForExport (cleanHTMLForExport quotedClassText) = "<p>&nbsp;</p>" /\
  cleanHTMLForExport (cleanHTMLForExport quotedClassText)
    <> cleanHTMLForExport quotedClassText.
Proof.
  assert (H1 : cleanHTMLForExport quotedClassText
               = "<p>class=" +:+ dq +:+ "ql-b" +:+ dq +:+ "</p>") by reflexivity.
  assert (H2 : cleanHTMLForExport (cleanHTMLForExport quotedClassText)
               = "<p>&nbsp;</p>") by reflexivity.
  split; [exact H1|]. split; [exact H2|]. rewrite H2, H1. discriminate.
Qed.

(** C8, amended.  On markup in which every [ql-] token sits in the
    value of a [class] or [style] attribute written [name=Qvalue Q] (Q
    the double quote), each such value holding a [ql-] token and neither
    a double quote nor an equals sign, and whose other text has no
    [ql-] token and no two double quotes in a row, [cleanHTMLForExport]
    removes exactly these attributes, leaves no [ql-] token, and is
    idempotent. *)
Theorem cleanHTMLForExport_idempotent (d : list Piece) :
  quillMarkup d = true ->
  let x := str (render d) in
  cleanHTMLForExport x = str (normalizeMarkup (skeleton d)) /\
  occurs qlToken (chars (cleanHTMLForExport x)) = false /\
  cleanHTMLForExport (cleanHTMLForExport x) = cleanHTMLForExport x.
Proof.
  intros H x.
  assert (Hx : cleanHTMLForExport x = str (normalizeMarkup (skeleton d))).
  { unfold x, cleanHTMLForExport. rewrite list_ascii_of_string_of_list_ascii.
    by rewrite stripQuillAttributes_render. }
  unfold quillMarkup in H.
  apply andb_true_iff in H as [[_ Hq%negb_true_iff]%andb_true_iff Hn%negb_true_iff].
  apply (occurs_normalizeMarkup qlToken) in Hq; [|done..].
  apply (occurs_normalizeMarkup twoQuotes) in Hn; [|done..].
  rewrite Hx. split; [done|].
  rewrite list_ascii_of_string_of_list_ascii. split; [done|].
  unfold cleanHTMLForExport. rewrite list_ascii_of_string_of_list_ascii.
  rewrite stripQuillAttributes_clean by done.
  by rewrite normalizeMarkup_idempotent.
Qed.

Lemma cleanHTMLForExport_idempotent_witness :
  quillMarkup quillParagraphsPieces = true /\
  str (render quillParagraphsPieces) = quillParagraphs /\
  cleanHTMLForExport quillParagraphs
    = "<p >Incident <span >command</span></p><p>&nbsp;</p><p>&nbsp;</p>" /\
  cleanHTMLForExport (cleanHTMLForExport quillParagraphs)
    = cleanHTMLForExport quillParagraphs /\
  quillMarkup quillLinkPieces = true /\
  cleanHTMLForExport (str (render quillLinkPieces))
    = "<a href=" +:+ dq +:+ "drill.html" +:+ dq +:+ " >Drill</a>" /\
  cleanHTMLForExport (cleanHTMLForExport (str (render quillLinkPieces)))
    = cleanHTMLForExport (str (render quillLinkPieces)).
Proof.
  assert (H1 : quillMarkup quillParagraphsPieces = true) by reflexivity.
  assert (H2 : quillMarkup quillLinkPieces = true) by reflexivity.
  destruct (cleanHTMLForExport_idempotent quillParagraphsPieces H1) as (_ & _ & Hp).
  destruct (cleanHTMLForExport_idempotent quillLinkPieces H2) as (_ & _ & Hl).
  split; [exact H1|]. split; [reflexivity|]. split; [reflexivity|].
  split; [exact Hp|]. split; [exact H2|]. split; [reflexivity | exact Hl].
Defined.


(** * Further properties *)

(** ** Clean HTML: the shape of the result *)

(** X1.  Whatever the input, the text [cleanHTMLForExport] returns has
    no whitespace but single spaces, none of them between a closing and
    an opening angle bracket, no [<p><br></p>] and no [<p></p>]
    paragraph, and neither starts nor ends with whitespace. *)
Theorem cleanHTMLForExport_tidy (htmlContent : string) :
  let cleanHTML := cleanHTMLForExport htmlContent in
  spaced (chars cleanHTML) = true /\
  nowhere (chars "> <") (chars cleanHTML) /\
  nowhere (chars "<p><br></p>") (chars cleanHTML) /\
  nowhere (chars "<p></p>") (chars cleanHTML) /\
  trim cleanHTML = cleanHTML.
Proof.
  intros cleanHTML. unfold cleanHTML, cleanHTMLForExport, trim.
  rewrite list_ascii_of_string_of_list_ascii.
  destruct (normalizeMarkup_tidy (stripQuillAttributes (chars htmlContent)))
    as (H1 & H2 & H3 & H4 & H5).
  repeat split; try done. by rewrite H5.
Qed.

(** ** Markdown: no tag survives *)

Lemma replace_go_erase_In (m : list ascii -> option (nat * list ascii))
    (k : nat) (s : list ascii) (x : ascii) :
  In x (replace_go m (fun _ => []) k s) -> In x s.
Proof.
  revert k. induction s as [|c s IH]; intros k H; simpl in H.
  - destruct k; [destruct (m []) as [[? ?]|]|]; done.
  - destruct k as [|k]; [|right; eauto].
    destruct (m (c :: s)) as [[[|n] cap]|]; simpl in H.
    + destruct H as [->|H]; [by left | right; eauto].
    + right; eauto.
    + destruct H as [->|H]; [by left | right; eauto].
Qed.

Lemma star_match_closing (s : list ascii) :
  star_match (CNot ">") (re_match false [Lit ">"]) s = None -> ~ In ">"%char s.
Proof.
  induction s as [|c s IH]; intros H; [by intros []|].
  cbn [star_match in_class] in H.
  destruct (Ascii.eqb c ">") eqn:Hc; cbn [negb] in H.
  - apply Ascii.eqb_eq in Hc as ->. by vm_compute in H.
  - destruct (star_match _ _ s) as [[n cap]|]; [done|].
    intros [->|Hin]; [by rewrite Ascii.eqb_refl in Hc | by apply IH].
Qed.

Lemma match_tag (c : ascii) (s : list ascii) :
  match re_match false re_tag (c :: s) with
  | Some (0, _) => False
  | Some (S _, _) => True
  | None => c = "<"%char -> ~ In ">"%char s
  end.
Proof.
  unfold re_tag. cbn [re_match chars list_ascii_of_string strip_lit char_eq].
  destruct (Ascii.eqb "<" c) eqn:Hc.
  - change (re_match false [Star (CNot ">"); Lit ">"])
      with (star_match (CNot ">") (re_match false [Lit ">"])).
    destruct (star_match _ _ s) as [[n cap]|] eqn:Hs; simpl; [done|].
    intros _. by apply star_match_closing.
  - intros ->. by rewrite Ascii.eqb_refl in Hc.
Qed.

Lemma tagFree_spec (s : list ascii) :
  tagFree s = true <->
  forall a b : list ascii, s = a ++ "<"%char :: b -> ~ In ">"%char b.
Proof.
  induction s as [|c s IH]; simpl.
  - split; [|done]. intros _ [|? ?] b H; discriminate.
  - rewrite andb_true_iff, IH. split.
    + intros [Hc Hs] [|x a] b H; simpl in H; injection H as -> ->.
      * intros Hin. rewrite Ascii.eqb_refl in Hc.
        apply negb_true_iff, not_true_iff_false in Hc. apply Hc.
        apply existsb_exists. exists ">"%char. split; [done | apply Ascii.eqb_refl].
      * by eapply Hs.
    + intros H. split.
      * destruct (Ascii.eqb c "<") eqn:Hc; [|done].
        apply Ascii.eqb_eq in Hc as ->. apply negb_true_iff, not_true_iff_false.
        intros (x & Hin & Hx)%existsb_exists. apply Ascii.eqb_eq in Hx as <-.
        by apply (H [] s).
      * intros a b ->. by apply (H (c :: a) b).
Qed.

Lemma erase_tags_tagFree (k : nat) (s : list ascii) :
  tagFree (replace_go (re_match false re_tag) (fun _ => []) k s) = true.
Proof.
  revert k. induction s as [|c s IH]; intros k.
  - destruct k; [|done]. simpl. by destruct (re_match false re_tag []) as [[? ?]|].
  - destruct k as [|k]; [|apply IH].
    cbn [replace_go]. pose proof (match_tag c s) as Hm.
    destruct (re_match false re_tag (c :: s)) as [[[|n] cap]|]; [done | apply IH |].
    cbn [tagFree]. rewrite IH, andb_true_r.
    destruct (Ascii.eqb c "<") eqn:Hc; [|done].
    apply Ascii.eqb_eq in Hc. apply negb_true_iff, not_true_iff_false.
    intros (x & Hin & Hx)%existsb_exists. apply Ascii.eqb_eq in Hx as <-.
    apply (Hm Hc). by eapply replace_go_erase_In.
Qed.

(** X2.  The body [generateMarkdown] derives from the editor's HTML holds
    no tag: in the converted text no [<] is followed, however far, by a
    [>]. *)
Theorem htmlToMarkdown_no_tag (html : string) (a b : list ascii) :
  chars (htmlToMarkdown html) = a ++ "<"%char :: b -> ~ In ">"%char b.
Proof.
  revert a b. apply tagFree_spec. unfold htmlToMarkdown.
  rewrite list_ascii_of_string_of_list_ascii. apply erase_tags_tagFree.
Qed.

Lemma htmlToMarkdown_no_tag_witness :
  chars (htmlToMarkdown "<p>a < b</p>") = chars "a " ++ "<"%char :: chars (" b" +:+ nl +:+ nl) /\
  ~ In ">"%char (chars (" b" +:+ nl +:+ nl)).
Proof.
  split; [reflexivity|].
  apply (htmlToMarkdown_no_tag "<p>a < b</p>" (chars "a ")). reflexivity.
Defined.

(** ** Word count *)

Lemma split_go_not_nil (m : list ascii -> option (nat * list ascii)) (k : nat)
    (cur s : list ascii) :
  split_go m k cur s <> [].
Proof.
  revert k cur. induction s as [|c s IH]; intros k cur; simpl; [done|].
  destruct k; [|apply IH].
  destruct (m (c :: s)) as [[[|n] cap]|]; [destruct cur| |]; try done; apply IH.
Qed.

Lemma trimStart_nil (s : list ascii) :
  trimStart s = [] <-> forallb isWhiteSpace s = true.
Proof.
  induction s as [|c s IH]; simpl; [done|].
  destruct (isWhiteSpace c); simpl; [done|]. split; discriminate.
Qed.

Lemma trim_chars_nil (s : list ascii) :
  trim_chars s = [] <-> forallb isWhiteSpace s = true.
Proof.
  unfold trim_chars, trimEnd. split.
  - intros H. apply trimStart_nil.
    pose proof (trimStart_head s) as Hh.
    assert (Hr : trimStart (rev (trimStart s)) = []).
    { apply (f_equal (@rev ascii)) in H. by rewrite rev_involutive in H. }
    apply trimStart_nil in Hr. rewrite forallb_forall in Hr.
    destruct (trimStart s) as [|c t]; [done|]. simpl in Hh.
    rewrite Hr in Hh; [done|]. apply in_rev. rewrite rev_involutive. by left.
  - intros H. apply trimStart_nil in H. by rewrite H.
Qed.

Lemma str_nil (l : list ascii) : str l = "" <-> l = [].
Proof. destruct l; simpl; split; congruence. Qed.

(** X3.  [calculateWordCount] answers 0 exactly on the texts made of
    whitespace only (the empty text among them). *)
Theorem calculateWordCount_zero_iff (text : string) :
  calculateWordCount text = 0 <-> forallb isWhiteSpace (chars text) = true.
Proof.
  rewrite <- trim_chars_nil. unfold calculateWordCount, trim.
  destruct (trim_chars (chars text)) as [|c t] eqn:Ht; [done|].
  cbn [str string_of_list_ascii truthy].
  change (String c (str t)) with (str (c :: t)).
  rewrite list_ascii_of_string_of_list_ascii. unfold split.
  split; [|done]. intros H. apply length_zero_iff_nil in H.
  by apply split_go_not_nil in H.
Qed.

Lemma trim_chars_In (x : ascii) (s : list ascii) : In x (trim_chars s) -> In x s.
Proof.
  intros H. destruct (trim_chars_infix s) as (a & b & Hs). rewrite Hs.
  apply in_or_app. right. apply in_or_app. by left.
Qed.

Lemma calculateWordCount_le_1 (text : string) :
  ~ In "\"%char (chars text) -> calculateWordCount text <= 1.
Proof.
  intros H. rewrite calculateWordCount_without_backslash.
  - destruct (truthy (trim text)); lia.
  - unfold trim. rewrite list_ascii_of_string_of_list_ascii.
    intros Hin. by apply H, trim_chars_In.
Qed.

(** X4.  As the separator is written, a text without a backslash counts
    as one word, or as none when it is blank: whitespace separates
    nothing. *)
Theorem calculateWordCount_one_word (text : string) :
  ~ In "\"%char (chars text) ->
  calculateWordCount text = if forallb isWhiteSpace (chars text) then 0 else 1.
Proof.
  intros H. rewrite calculateWordCount_without_backslash.
  - unfold trim. destruct (forallb isWhiteSpace (chars text)) eqn:Hw.
    + apply trim_chars_nil in Hw. by rewrite Hw.
    + destruct (trim_chars (chars text)) eqn:Ht; [|done].
      apply trim_chars_nil in Ht. congruence.
  - unfold trim. rewrite list_ascii_of_string_of_list_ascii.
    intros Hin. by apply H, trim_chars_In.
Qed.

Lemma calculateWordCount_one_word_witness :
  ~ In "\"%char (chars "Check the hose, then the pump.") /\
  calculateWordCount "Check the hose, then the pump." = 1.
Proof.
  assert (H : ~ In "\"%char (chars "Check the hose, then the pump.")).
  { vm_compute. intuition discriminate. }
  split; [exact H|]. exact (calculateWordCount_one_word _ H).
Defined.

(** ** Reading time *)

(** X5.  The reading time shown is the least whole number of minutes in
    which the words can be read at 200 words a minute. *)
Theorem calculateReadingTime_ceiling (wordCount : nat) :
  exists minutes : nat,
    calculateReadingTime wordCount = pretty minutes +:+ " min" /\
    wordCount <= 200 * minutes /\
    forall m : nat, wordCount <= 200 * m -> minutes <= m.
Proof.
  exists (ceilDiv wordCount 200). split; [reflexivity|]. unfold ceilDiv.
  pose proof (Nat.div_mod_eq wordCount 200) as Hd.
  pose proof (Nat.mod_upper_bound wordCount 200 ltac:(lia)) as Hm.
  destruct (Nat.eqb_spec (wordCount mod 200) 0); split; try lia; intros m Hle; nia.
Qed.

(** ** Format check *)

(** X6.  [formatCheck] reports success exactly when the title, the
    author and the summary are not blank and the word count of the
    editor's text lies between 50 and 2000; otherwise it warns. *)
Theorem formatCheck_passes_iff (w : World) :
  notifications (page (after formatCheck w))
    = ("No formatting issues found!", "success") :: notifications (page w)
  <->
  trim (articleTitle (page w)) <> "" /\ trim (articleAuthor (page w)) <> "" /\
  trim (articleSummary (page w)) <> "" /\
  50 <= calculateWordCount (editorText w) <= 2000.
Proof.
  unfold formatCheck, gatherArticleData, formatIssues, showNotification, editorText.
  rewrite <- !truthy_true. run.
  set (n := calculateWordCount _).
  destruct (truthy (trim (articleTitle (page w))));
    destruct (truthy (trim (articleAuthor (page w))));
    destruct (truthy (trim (articleSummary (page w))));
    destruct (Nat.ltb_spec n 50); destruct (Nat.ltb_spec 2000 n); simpl;
    split; try (intros H; injection H; discriminate); try (intros (? & ? & ? & ?); done || lia);
    try done; try lia.
Qed.

(** X7.  On a text without a backslash the word count is at most one, so
    [formatCheck] always lists the article as very short. *)
Theorem formatCheck_short_without_backslash (w : World) :
  ~ In "\"%char (chars (editorText w)) ->
  exists issues : list string,
    In "Article is very short (under 50 words)" issues /\
    notifications (page (after formatCheck w))
      = ("Issues found: " +:+ String.concat ", " issues, "warning")
          :: notifications (page w).
Proof.
  intros H. apply calculateWordCount_le_1 in H.
  unfold after, formatCheck, gatherArticleData, showNotification.
  rewrite gets_bind. cbn beta zeta.
  set (data := mkArticleData _ _ _ _ _ _ _ _).
  assert (Hn : (d_wordCount data <? 50)%nat = true).
  { apply Nat.ltb_lt. unfold data, editorText in *. simpl. lia. }
  exists (formatIssues data). split.
  - unfold formatIssues. rewrite Hn. rewrite !in_app_iff. right. right. left. by left.
  - assert (Hl : (length (formatIssues data) =? 0)%nat = false).
    { unfold formatIssues. rewrite Hn, !length_app. apply Nat.eqb_neq. simpl. lia. }
    rewrite Hl. reflexivity.
Qed.

Lemma formatCheck_short_without_backslash_witness :
  ~ In "\"%char (chars (editorText savingWorld)) /\
  exists issues : list string,
    In "Article is very short (under 50 words)" issues /\
    notifications (page (after formatCheck savingWorld))
      = ("Issues found: " +:+ String.concat ", " issues, "warning")
          :: notifications (page savingWorld).
Proof.
  assert (H : ~ In "\"%char (chars (editorText savingWorld))).
  { vm_compute. intuition discriminate. }
  split; [exact H | exact (formatCheck_short_without_backslash savingWorld H)].
Defined.

(** ** The repository after a put *)

Lemma guardedWrite_true (arts : list Article) (w : World) :
  (guardedWrite arts w).1 = Normal true ->
  let w' := (guardedWrite arts w).2 in
  let sorted := arraySort (compareUpdatedAt (env w)) arts in
  storedArticles w' = Stored sorted /\ articles (cms w') = sorted /\
  filteredArticles (cms w') = sorted /\ autoSaved w' = None.
Proof.
  unfold guardedWrite, writeCollection, setStoredArticles, loadArticles,
    getStoredArticles, clearAutoSave, updateStorageUsage, handleError, showNotification.
  run. destruct (quotaExceeded (env w) (tick w)); simpl; [done|].
  destruct (80 <? usagePercent (env w) (S (tick w)))%Z; simpl; done.
Qed.

Lemma saveToStorage_true (article : Article) (w : World) :
  result (saveToStorage article) w = Normal true ->
  let w' := after (saveToStorage article) w in
  let sorted := arraySort (compareUpdatedAt (env w)) (putArticle article (collection w)) in
  storedArticles w' = Stored sorted /\ articles (cms w') = sorted /\
  filteredArticles (cms w') = sorted /\ autoSaved w' = None.
Proof.
  unfold result, after. rewrite saveToStorage_unfold. unfold putArticle.
  destruct (list_find _ _) as [[i existing]|]; [|apply guardedWrite_true].
  destruct (gt _ _ && _); [|apply guardedWrite_true].
  destruct (confirmAnswer _ _ _); [|done].
  intros H. by apply guardedWrite_true in H.
Qed.

Lemma length_putArticle (article : Article) (arts : list Article) :
  length (putArticle article arts) =
    match list_find (fun a => id a = id article) arts with
    | Some _ => length arts
    | None => S (length arts)
    end.
Proof.
  unfold putArticle. destruct (list_find _ arts) as [[i existing]|].
  - apply length_insert.
  - rewrite length_app. simpl. lia.
Qed.

Lemma withId_putArticle_other (article : Article) (arts : list Article) (j : string) :
  j <> id article -> withId j (putArticle article arts) = withId j arts.
Proof.
  intros Hj. unfold putArticle, withId.
  destruct (list_find _ arts) as [[i existing]|] eqn:Hfind.
  - apply list_find_Some in Hfind as (Hi & Hid & _).
    assert (Hlt : i < length arts) by (eapply lookup_lt_Some; eauto).
    rewrite <- (take_drop_middle arts i existing Hi) at 2.
    rewrite <- (take_drop_middle arts i existing Hi) at 1.
    rewrite insert_app_r_alt by (rewrite length_take; lia).
    rewrite length_take, Nat.min_l, Nat.sub_diag by lia. simpl.
    rewrite !filter_app, !filter_cons_False by congruence. done.
  - rewrite filter_app, filter_cons_False by congruence. by rewrite filter_nil, app_nil_r.
Qed.

(** X8.  A put, whatever its outcome, leaves the records stored under
    every other id as they are: none is lost, added or changed. *)
Theorem saveToStorage_keeps_others (w : World) (article : Article) (j : string) :
  j <> id article ->
  withId j (collection (after (saveToStorage article) w)) ≡ₚ withId j (collection w).
Proof.
  intros Hj. unfold after.
  destruct (saveToStorage_spec article w) as (_ & _ & _ & _ & [[_ Hs]|[_ Hs]]);
    unfold collection at 1; rewrite Hs; [|done].
  cbn [parseStored]. unfold withId at 1. rewrite arraySort_perm.
  fold (withId j (putArticle article (collection w))).
  by rewrite withId_putArticle_other.
Qed.

Lemma saveToStorage_keeps_others_witness :
  id olderArticle <> id staleEdit /\
  withId (id olderArticle)
    (collection (after (saveToStorage staleEdit)
                   (worldWith sampleEnv "auto" [olderArticle; newerArticle])))
  ≡ₚ [olderArticle].
Proof.
  assert (H : id olderArticle <> id staleEdit) by (vm_compute; discriminate).
  split; [exact H|].
  exact (saveToStorage_keeps_others
           (worldWith sampleEnv "auto" [olderArticle; newerArticle]) staleEdit _ H).
Defined.

(** X9.  After a put that answers [true] the stored array is a
    rearrangement of the old one with the article put in, the in-memory
    lists mirror it, and the draft slot is empty. *)
Theorem saveToStorage_success_state (w : World) (article : Article) :
  result (saveToStorage article) w = Normal true ->
  let w' := after (saveToStorage article) w in
  collection w' ≡ₚ putArticle article (collection w) /\
  article ∈ collection w' /\
  length (collection w') =
    match list_find (fun a => id a = id article) (collection w) with
    | Some _ => length (collection w)
    | None => S (length (collection w))
    end /\
  articles (cms w') = collection w' /\
  filteredArticles (cms w') = collection w' /\
  autoSaved w' = None.
Proof.
  intros H w'. destruct (saveToStorage_true article w H) as (Hs & Ha & Hf & Hd).
  fold w' in Hs, Ha, Hf, Hd.
  assert (Hc : collection w'
               = arraySort (compareUpdatedAt (env w)) (putArticle article (collection w))).
  { unfold collection at 1. by rewrite Hs. }
  rewrite Hc.
  split; [apply arraySort_perm|].
  split; [rewrite arraySort_perm; apply putArticle_In|].
  split; [rewrite arraySort_perm; apply length_putArticle|].
  done.
Qed.

Lemma saveToStorage_success_state_witness :
  let w := mkWorld sampleEnv 0 (Stored [newerArticle; olderArticle])
             (Some (mkAutoSave safetyDrill "2024-01-15T10:00:00.000Z"))
             (mkCms [] [] None true "auto") emptyPage in
  result (saveToStorage freshArticle) w = Normal true /\
  collection (after (saveToStorage freshArticle) w)
    = [freshArticle; newerArticle; olderArticle] /\
  articles (cms (after (saveToStorage freshArticle) w))
    = collection (after (saveToStorage freshArticle) w) /\
  autoSaved (after (saveToStorage freshArticle) w) = None.
Proof.
  intros w. assert (H : result (saveToStorage freshArticle) w = Normal true)
    by reflexivity.
  pose proof (saveToStorage_success_state w freshArticle H) as (_ & _ & _ & Ha & _ & Hd).
  split; [exact H|]. split; [reflexivity|]. split; [exact Ha | exact Hd].
Defined.

(** ** Saving, then loading *)

Lemma ask_bind {A B : Type} (f : Environment -> nat -> A) (k : A -> M B) (w : World) :
  (ask f ≫= k) w = k (f (env w) (tick w)) (with_tick (S (tick w)) w).
Proof. reflexivity. Qed.

Lemma bind_run {A B : Type} (m : M A) (k : A -> M B) (w : World) :
  (m ≫= k) w =
    match m w with
    | (Normal a, w') => k a w'
    | (Throw e, w') => (Throw e, w')
    end.
Proof. reflexivity. Qed.

Lemma list_find_withId (i : string) (l : list Article) (a : Article) :
  withId i l = [a] -> exists k, list_find (fun x => id x = i) l = Some (k, a).
Proof.
  unfold withId. induction l as [|x l IH]; [done|].
  cbn [list_find]. destruct (decide (id x = i)) as [Hx|Hx].
  - rewrite filter_cons_True by done. intros [= -> _]. by exists 0.
  - rewrite filter_cons_False by done. intros [k ->]%IH. by exists (S k).
Qed.

Lemma loadArticleData_unmodified (article : Article) (w : World) :
  isModified (cms w) = false ->
  let w' := (loadArticleData article w).2 in
  currentArticle (cms w') = Some article /\ isModified (cms w') = false /\
  articleTitle (page w') = title article /\ articleAuthor (page w') = author article /\
  articleCategory (page w') = category article /\
  articleSummary (page w') = summary article /\
  articles (cms w') = articles (cms w) /\ storedArticles w' = storedArticles w.
Proof.
  intros H. unfold loadArticleData, newDateISO, updateStatus, showNotification.
  rewrite gets_bind, H. run. destruct (truthy (publicationDate article)); simpl; done.
Qed.

(** X10.  Saving and loading round-trip: after a put that answers [true]
    into a collection holding at most one record with the article's id,
    [loadArticleById] with that id makes exactly the saved article the
    current one and fills the form from it. *)
Theorem saveToStorage_then_loadArticleById (w : World) (article : Article) :
  length (withId (id article) (collection w)) <= 1 ->
  result (saveToStorage article) w = Normal true ->
  isModified (cms w) = false ->
  let w' := after (loadArticleById (id article)) (after (saveToStorage article) w) in
  currentArticle (cms w') = Some article /\
  articleTitle (page w') = title article /\
  articleAuthor (page w') = author article /\
  articleCategory (page w') = category article /\
  articleSummary (page w') = summary article /\
  isModified (cms w') = false.
Proof.
  intros Hlen Hr Hm. destruct (saveToStorage_true article w Hr) as (_ & Ha & _ & _).
  destruct (saveToStorage_spec article w) as (_ & _ & _ & Hm' & _).
  set (w1 := after (saveToStorage article) w) in *.
  change (saveToStorage article w).2 with w1 in Hm'.
  destruct (list_find_withId (id article) (articles (cms w1)) article) as [k Hfind].
  { rewrite Ha. by apply withId_arraySort, withId_putArticle. }
  unfold after at 1, loadArticleById. rewrite gets_bind, Hfind.
  destruct (loadArticleData_unmodified article w1) as (? & ? & ? & ? & ? & ? & _);
    [congruence | done].
Qed.

Lemma saveToStorage_then_loadArticleById_witness :
  let w := worldWith sampleEnv "auto" [newerArticle; olderArticle] in
  length (withId (id secondEdit) (collection w)) <= 1 /\
  result (saveToStorage secondEdit) w = Normal true /\
  isModified (cms w) = false /\
  currentArticle
    (cms (after (loadArticleById (id secondEdit)) (after (saveToStorage secondEdit) w)))
    = Some secondEdit.
Proof.
  intros w.
  assert (H1 : length (withId (id secondEdit) (collection w)) <= 1) by (vm_compute; lia).
  assert (H2 : result (saveToStorage secondEdit) w = Normal true) by reflexivity.
  assert (H3 : isModified (cms w) = false) by reflexivity.
  do 3 (split; [done|]).
  exact (proj1 (saveToStorage_then_loadArticleById w secondEdit H1 H2 H3)).
Defined.

(** ** Saving keeps the identity of the article *)

(** X11.  Saving the article that is open keeps its id and its creation
    time, stamps [updatedAt] with the clock, takes title, text and word
    count from the form, stores the record and makes it the current,
    unmodified article. *)
Theorem saveArticle_keeps_identity (w : World) (c : Article) :
  currentArticle (cms w) = Some c ->
  id c <> "" -> createdAt c <> "" ->
  trim (articleTitle (page w)) <> "" -> trim (editorText w) <> "" ->
  conflictResolution (cms w) = "auto" ->
  quotaExceeded (env w) (S (tick w)) = false ->
  exists saved : Article,
    currentArticle (cms (after saveArticle w)) = Some saved /\
    isModified (cms (after saveArticle w)) = false /\
    saved ∈ collection (after saveArticle w) /\
    id saved = id c /\ createdAt saved = createdAt c /\
    updatedAt saved = isoNow (env w) (tick w) /\
    title saved = articleTitle (page w) /\
    content saved = editorText w /\
    wordCount saved = calculateWordCount (editorText w).
Proof.
  intros Hc Hid Hcr Ht Hx Hp Hq.
  apply truthy_true in Hid, Hcr, Ht, Hx. unfold editorText in *.
  unfold after, saveArticle, gatherArticleData, newDateISO.
  rewrite gets_bind. cbn [d_title d_content d_author d_category d_summary
    d_publicationDate d_htmlContent d_wordCount].
  rewrite Ht, Hx. cbn [negb]. rewrite gets_bind, Hc, Hid, Hcr, !ret_bind, ask_bind.
  set (w1 := with_tick (S (tick w)) w).
  set (article := mkArticle _ _ _ _ _ _ _ _ _ _ _).
  rewrite bind_run.
  destruct (saveToStorage_auto article w1 Hp Hq) as [Hr _].
  destruct (saveToStorage_true article w1 Hr) as (Hs & _).
  unfold result, after in Hr, Hs.
  destruct (saveToStorage article w1) as [r w2]. simpl in Hr, Hs. subst r.
  exists article. unfold updateStatus, showNotification. run.
  repeat split; try done.
  unfold collection. simpl. rewrite Hs. simpl.
  rewrite arraySort_perm. apply putArticle_In.
Qed.

Lemma saveArticle_keeps_identity_witness :
  let w := mkWorld sampleEnv 0 (Stored [newerArticle; olderArticle]) None
             (mkCms [newerArticle; olderArticle] [newerArticle; olderArticle]
                (Some olderArticle) true "auto")
             (mkPage "Hose Care, revised" "Chief Ramos" "Training" "" "2024-01-05"
                (Some (mkQuillDoc "<p>Dry the hose twice.</p>" "Dry the hose twice."))
                [] "") in
  currentArticle (cms w) = Some olderArticle /\
  id olderArticle <> "" /\ createdAt olderArticle <> "" /\
  trim (articleTitle (page w)) <> "" /\ trim (editorText w) <> "" /\
  conflictResolution (cms w) = "auto" /\
  quotaExceeded (env w) (S (tick w)) = false /\
  exists saved : Article,
    currentArticle (cms (after saveArticle w)) = Some saved /\
    isModified (cms (after saveArticle w)) = false /\
    saved ∈ collection (after saveArticle w) /\
    id saved = id olderArticle /\ createdAt saved = createdAt olderArticle /\
    updatedAt saved = "2024-01-15T10:30:00.000Z" /\
    title saved = "Hose Care, revised" /\
    content saved = "Dry the hose twice." /\
    wordCount saved = calculateWordCount "Dry the hose twice.".
Proof.
  intros w.
  assert (H1 : currentArticle (cms w) = Some olderArticle) by reflexivity.
  assert (H2 : id olderArticle <> "") by discriminate.
  assert (H3 : createdAt olderArticle <> "") by discriminate.
  assert (H4 : trim (articleTitle (page w)) <> "") by (vm_compute; discriminate).
  assert (H5 : trim (editorText w) <> "") by (vm_compute; discriminate).
  assert (H6 : conflictResolution (cms w) = "auto") by reflexivity.
  assert (H7 : quotaExceeded (env w) (S (tick w)) = false) by reflexivity.
  do 7 (split; [done|]).
  exact (saveArticle_keeps_identity w olderArticle H1 H2 H3 H4 H5 H6 H7).
Defined.

(** ** Starting a new article *)

Lemma newArticle_frame (user : nat -> string -> bool) (w : World) :
  (newArticle user w).1 = Normal tt /\
  env (newArticle user w).2 = env w /\
  storedArticles (newArticle user w).2 = storedArticles w /\
  autoSaved (newArticle user w).2 = autoSaved w /\
  articles (cms (newArticle user w).2) = articles (cms w) /\
  conflictResolution (cms (newArticle user w).2) = conflictResolution (cms w).
Proof.
  unfold newArticle, confirmMessage, newDateISO, updateStatus, showNotification.
  rewrite gets_bind. destruct (isModified (cms w)); run; [|done].
  destruct (user (tick w) _); simpl; done.
Qed.

Lemma newArticle_proceeds (user : nat -> string -> bool) (w : World) :
  isModified (cms w) = false \/ user (tick w) newArticleQuestion = true ->
  let w' := (newArticle user w).2 in
  currentArticle (cms w') = None /\ isModified (cms w') = false /\
  articleTitle (page w') = "" /\ articleAuthor (page w') = "" /\
  articleCategory (page w') = "" /\ articleSummary (page w') = "" /\
  quill (page w') = match quill (page w) with
                    | Some _ => Some (quillFromText (env w) "")
                    | None => None
                    end /\
  lastSaved (page w') = "New article".
Proof.
  unfold newArticle, confirmMessage, newDateISO, updateStatus, showNotification,
    newArticleQuestion.
  rewrite gets_bind. destruct (isModified (cms w)); run.
  - intros [H|H]; [done|]. rewrite H. simpl. done.
  - done.
Qed.

Lemma newArticle_declined (user : nat -> string -> bool) (w : World) :
  isModified (cms w) = true -> user (tick w) newArticleQuestion = false ->
  newArticle user w = (Normal tt, with_tick (S (tick w)) w).
Proof.
  intros Hm Hu. unfold newArticle, confirmMessage, newArticleQuestion in *.
  rewrite gets_bind, Hm, ask_bind, Hu. reflexivity.
Qed.

(** X12.  [newArticle] empties the form and closes the current article
    when there is nothing unsaved or the user agrees; when the user
    declines, nothing but the count of questions changes.  Either way
    the collection, the draft slot and [this.articles] are untouched. *)
Theorem newArticle_resets_session (user : nat -> string -> bool) (w : World) :
  let w' := after (newArticle user) w in
  (isModified (cms w) = false \/ user (tick w) newArticleQuestion = true ->
   currentArticle (cms w') = None /\ isModified (cms w') = false /\
   articleTitle (page w') = "" /\ articleAuthor (page w') = "" /\
   articleCategory (page w') = "" /\ articleSummary (page w') = "" /\
   quill (page w') = match quill (page w) with
                     | Some _ => Some (quillFromText (env w) "")
                     | None => None
                     end) /\
  (isModified (cms w) = true -> user (tick w) newArticleQuestion = false ->
   w' = with_tick (S (tick w)) w) /\
  storedArticles w' = storedArticles w /\ autoSaved w' = autoSaved w /\
  articles (cms w') = articles (cms w).
Proof.
  intros w'. unfold w', after. split; [|split].
  - intros H. destruct (newArticle_proceeds user w H) as (? & ? & ? & ? & ? & ? & ? & _).
    done.
  - intros Hm Hu. by rewrite newArticle_declined.
  - destruct (newArticle_frame user w) as (_ & _ & ? & ? & ? & _). done.
Qed.

Lemma newArticle_resets_session_witness :
  let w := mkWorld sampleEnv 0 (Stored [newerArticle; olderArticle]) None
             (mkCms [newerArticle; olderArticle] [newerArticle; olderArticle]
                (Some olderArticle) true "auto")
             (mkPage "Hose Care" "Chief Ramos" "Training" "" "2024-01-05"
                (Some (mkQuillDoc "<p>Dry the hose.</p>" "Dry the hose.")) [] "") in
  (isModified (cms w) = false \/ acceptAll (tick w) newArticleQuestion = true) /\
  currentArticle (cms (after (newArticle acceptAll) w)) = None /\
  articleTitle (page (after (newArticle acceptAll) w)) = "" /\
  isModified (cms w) = true /\ declineAll (tick w) newArticleQuestion = false /\
  after (newArticle declineAll) w = with_tick 1 w.
Proof.
  intros w.
  assert (H1 : isModified (cms w) = false \/ acceptAll (tick w) newArticleQuestion = true)
    by (right; reflexivity).
  assert (H2 : isModified (cms w) = true) by reflexivity.
  assert (H3 : declineAll (tick w) newArticleQuestion = false) by reflexivity.
  destruct (newArticle_resets_session acceptAll w) as (Hyes & _).
  destruct (newArticle_resets_session declineAll w) as (_ & Hno & _).
  destruct (Hyes H1) as (Hc & _ & Ht & _).
  split; [exact H1|]. split; [exact Hc|]. split; [exact Ht|].
  split; [exact H2|]. split; [exact H3|]. exact (Hno H2 H3).
Defined.

(** ** Deleting an article *)

Lemma withId_filter_ne (i j : string) (l : list Article) :
  withId j (filter (fun a => id a <> i) l) = if decide (j = i) then [] else withId j l.
Proof.
  unfold withId. induction l as [|a l IH]; [by destruct (decide _)|].
  destruct (decide (id a = i)) as [Ha|Ha].
  - rewrite filter_cons_False by (intros H; by apply H). rewrite IH.
    destruct (decide (j = i)) as [->|Hj]; [done|].
    rewrite (filter_cons_False _ a) by congruence. done.
  - rewrite filter_cons_True by done.
    destruct (decide (id a = j)) as [Haj|Haj].
    + rewrite !filter_cons_True by done. rewrite IH.
      destruct (decide (j = i)); [congruence | done].
    + rewrite !filter_cons_False by done. apply IH.
Qed.

(** The body of [deleteArticle] once the user has agreed. *)
Lemma deleteArticle_run (user : nat -> string -> bool) (articleId : string) (w : World) :
  deleteArticle user articleId w =
    match list_find (fun a => id a = articleId) (articles (cms w)) with
    | None =>
        (Normal tt, with_page (with_notification ("Article not found", "error") (page w)) w)
    | Some (_, article) =>
        if user (tick w) (deleteQuestion article) then
          if quotaExceeded (env w) (S (tick w)) then
            (Normal tt,
             with_page (with_notification
                          ("Failed to delete article. Please try again.", "error") (page w))
               (with_tick (S (S (tick w))) w))
          else
            let w2 := with_storedArticles
                        (Stored (filter (fun a => id a <> articleId) (collection w)))
                        (with_tick (S (S (tick w))) w) in
            let w3 := match currentArticle (cms w) with
                      | Some c => if String.eqb (id c) articleId
                                  then (newArticle user w2).2 else w2
                      | None => w2
                      end in
            (Normal tt,
             with_page (with_notification ("Article deleted successfully", "success")
                          (page w3))
               (with_cms (with_filteredArticles (collection w3)
                            (with_articles (collection w3) (cms w3))) w3))
        else (Normal tt, with_tick (S (tick w)) w)
    end.
Proof.
  unfold deleteArticle. unfold try_catch. rewrite gets_bind.
  destruct (list_find _ _) as [[k article]|]; [|reflexivity].
  unfold confirmMessage. rewrite ask_bind.
  destruct (user (tick w) _); [|reflexivity].
  unfold getStoredArticles, setStoredArticles. rewrite gets_bind.
  rewrite bind_run, ask_bind. cbn [tick with_tick env].
  destruct (quotaExceeded (env w) (S (tick w))); [reflexivity|].
  cbn [modify]. rewrite gets_bind. cbn [cms with_storedArticles with_tick].
  fold (collection w).
  set (w2 := with_storedArticles _ _).
  destruct (currentArticle (cms w)) as [c|]; [destruct (String.eqb (id c) articleId)|];
    try reflexivity.
  rewrite bind_run. destruct (newArticle_frame user w2) as (Hr & _).
  destruct (newArticle user w2) as [r w3]. simpl in Hr. subst r. reflexivity.
Qed.

Lemma deleteArticle_stored (user : nat -> string -> bool) (w : World)
    (articleId : string) (k : nat) (article : Article) :
  list_find (fun a => id a = articleId) (articles (cms w)) = Some (k, article) ->
  user (tick w) (deleteQuestion article) = true ->
  quotaExceeded (env w) (S (tick w)) = false ->
  collection (after (deleteArticle user articleId) w)
    = filter (fun a => id a <> articleId) (collection w).
Proof.
  intros Hfind Hu Hq. unfold after. rewrite deleteArticle_run, Hfind, Hu, Hq.
  cbn zeta. set (w2 := with_storedArticles _ _).
  set (w3 := match currentArticle (cms w) with Some _ => _ | None => _ end).
  assert (H3 : storedArticles w3
               = Stored (filter (fun a => id a <> articleId) (collection w))).
  { unfold w3. destruct (currentArticle (cms w)) as [c|]; [|done].
    destruct (String.eqb (id c) articleId); [|done].
    by destruct (newArticle_frame user w2) as (_ & _ & -> & _). }
  unfold collection at 1. cbn [snd storedArticles with_page with_cms]. by rewrite H3.
Qed.

(** X13.  Once the user has agreed and the write is accepted,
    [deleteArticle] stores the collection without the records of that
    id, in their old order; the records of every other id are kept, and
    the in-memory lists mirror the result. *)
Theorem deleteArticle_removes (user : nat -> string -> bool) (w : World)
    (articleId : string) (k : nat) (article : Article) :
  list_find (fun a => id a = articleId) (articles (cms w)) = Some (k, article) ->
  user (tick w) (deleteQuestion article) = true ->
  quotaExceeded (env w) (S (tick w)) = false ->
  let w' := after (deleteArticle user articleId) w in
  collection w' = filter (fun a => id a <> articleId) (collection w) /\
  withId articleId (collection w') = [] /\
  (forall j : string, j <> articleId -> withId j (collection w') = withId j (collection w)) /\
  articles (cms w') = collection w' /\
  filteredArticles (cms w') = collection w' /\
  exists earlier,
    notifications (page w') = ("Article deleted successfully", "success") :: earlier.
Proof.
  intros Hfind Hu Hq w'. unfold w', after. rewrite deleteArticle_run, Hfind, Hu, Hq.
  cbn zeta. set (w2 := with_storedArticles _ _).
  set (w3 := match currentArticle (cms w) with Some _ => _ | None => _ end).
  assert (H3 : storedArticles w3
               = Stored (filter (fun a => id a <> articleId) (collection w))).
  { unfold w3. destruct (currentArticle (cms w)) as [c|]; [|done].
    destruct (String.eqb (id c) articleId); [|done].
    by destruct (newArticle_frame user w2) as (_ & _ & -> & _). }
  assert (Hc : collection w3 = filter (fun a => id a <> articleId) (collection w)).
  { unfold collection at 1. by rewrite H3. }
  cbn [snd]. set (wf := with_page _ _).
  assert (Hf : collection wf = filter (fun a => id a <> articleId) (collection w)).
  { unfold collection at 1, wf. cbn [storedArticles with_page with_cms].
    by rewrite H3. }
  assert (Ha : articles (cms wf) = collection w3) by reflexivity.
  assert (Hl : filteredArticles (cms wf) = collection w3) by reflexivity.
  rewrite Ha, Hl, Hf, Hc.
  split; [done|]. split; [|split; [|split; [done|split; [done|]]]].
  - rewrite withId_filter_ne. by rewrite decide_True.
  - intros j Hj. rewrite withId_filter_ne. by rewrite decide_False.
  - unfold wf. cbn. eauto.
Qed.

Lemma deleteArticle_removes_witness :
  let w := worldWith sampleEnv "auto" [freshArticle; newerArticle; olderArticle] in
  list_find (fun a => id a = id newerArticle) (articles (cms w)) = Some (1, newerArticle) /\
  acceptAll (tick w) (deleteQuestion newerArticle) = true /\
  quotaExceeded (env w) (S (tick w)) = false /\
  collection (after (deleteArticle acceptAll (id newerArticle)) w)
    = [freshArticle; olderArticle] /\
  withId (id newerArticle) (collection (after (deleteArticle acceptAll (id newerArticle)) w))
    = [].
Proof.
  intros w.
  assert (H1 : list_find (fun a => id a = id newerArticle) (articles (cms w))
               = Some (1, newerArticle)) by reflexivity.
  assert (H2 : acceptAll (tick w) (deleteQuestion newerArticle) = true) by reflexivity.
  assert (H3 : quotaExceeded (env w) (S (tick w)) = false) by reflexivity.
  destruct (deleteArticle_removes acceptAll w (id newerArticle) 1 newerArticle H1 H2 H3)
    as (Hc & Hn & _).
  do 3 (split; [done|]). split; [|exact Hn]. rewrite Hc. reflexivity.
Defined.

(** X14.  [deleteArticle] changes nothing when the user declines: the
    collection, the session, the form and the notices are as before;
    only the count of questions asked has moved. *)
Theorem deleteArticle_declined (user : nat -> string -> bool) (w : World)
    (articleId : string) (k : nat) (article : Article) :
  list_find (fun a => id a = articleId) (articles (cms w)) = Some (k, article) ->
  user (tick w) (deleteQuestion article) = false ->
  result (deleteArticle user articleId) w = Normal tt /\
  after (deleteArticle user articleId) w = with_tick (S (tick w)) w.
Proof.
  intros Hfind Hu. unfold result, after. by rewrite deleteArticle_run, Hfind, Hu.
Qed.

Lemma deleteArticle_declined_witness :
  let w := worldWith sampleEnv "auto" [newerArticle; olderArticle] in
  list_find (fun a => id a = id olderArticle) (articles (cms w)) = Some (1, olderArticle) /\
  declineAll (tick w) (deleteQuestion olderArticle) = false /\
  after (deleteArticle declineAll (id olderArticle)) w = with_tick 1 w.
Proof.
  intros w.
  assert (H1 : list_find (fun a => id a = id olderArticle) (articles (cms w))
               = Some (1, olderArticle)) by reflexivity.
  assert (H2 : declineAll (tick w) (deleteQuestion olderArticle) = false) by reflexivity.
  do 2 (split; [done|]).
  exact (proj2 (deleteArticle_declined declineAll w (id olderArticle) 1 olderArticle H1 H2)).
Defined.

(** *** Deleting keeps the order *)

Lemma notOlder_trans (e : Environment) (a b c : Article) :
  notOlder e a b = true -> notOlder e b c = true -> notOlder e a c = true.
Proof.
  unfold notOlder.
  destruct (dateValue e (updatedAt a)), (dateValue e (updatedAt b)),
    (dateValue e (updatedAt c)); try done.
  rewrite !Z.leb_le. lia.
Qed.

Lemma sorted_tail (e : Environment) (a : Article) (l : list Article) :
  sortedByUpdatedAtDesc e (a :: l) = true -> sortedByUpdatedAtDesc e l = true.
Proof. destruct l as [|b l]; [done|]. rewrite sortedByUpdatedAtDesc_cons. by intros [_ ?]%andb_true_iff. Qed.

Lemma sorted_head_newest (e : Environment) (a : Article) (l : list Article) :
  sortedByUpdatedAtDesc e (a :: l) = true -> Forall (fun x => notOlder e a x = true) l.
Proof.
  revert a. induction l as [|b l IH]; intros a H; [constructor|].
  rewrite sortedByUpdatedAtDesc_cons in H. apply andb_true_iff in H as [Hab Hs].
  constructor; [done|]. eapply Forall_impl; [by apply IH|].
  intros x Hx. by eapply notOlder_trans.
Qed.

Lemma sorted_cons_newest (e : Environment) (a : Article) (l : list Article) :
  Forall (fun x => notOlder e a x = true) l -> sortedByUpdatedAtDesc e l = true ->
  sortedByUpdatedAtDesc e (a :: l) = true.
Proof.
  destruct l as [|b l]; [done|]. intros [Hab _]%Forall_cons Hs.
  rewrite sortedByUpdatedAtDesc_cons. by rewrite Hab.
Qed.

Lemma sorted_filter (e : Environment) (P : Article -> Prop) `{!forall a, Decision (P a)}
    (l : list Article) :
  sortedByUpdatedAtDesc e l = true -> sortedByUpdatedAtDesc e (filter P l) = true.
Proof.
  induction l as [|a l IH]; [done|]. intros Hs.
  pose proof (sorted_head_newest e a l Hs) as Hn. apply sorted_tail in Hs.
  destruct (decide (P a)).
  - rewrite filter_cons_True by done. apply sorted_cons_newest; [|by apply IH].
    apply Forall_forall. intros x [_ Hx]%list_elem_of_filter.
    rewrite Forall_forall in Hn. by apply Hn.
  - rewrite filter_cons_False by done. by apply IH.
Qed.

(** X15.  Deleting never breaks the order of the collection: a
    collection sorted by [updatedAt], most recent first, is still sorted
    after [deleteArticle], whatever the user answers and whether or not
    the write is accepted. *)
Theorem deleteArticle_keeps_sorted (user : nat -> string -> bool) (w : World)
    (articleId : string) :
  sortedByUpdatedAtDesc (env w) (collection w) = true ->
  sortedByUpdatedAtDesc (env w) (collection (after (deleteArticle user articleId) w)) = true.
Proof.
  intros Hs. unfold after. rewrite deleteArticle_run.
  destruct (list_find _ _) as [[k article]|]; [|done].
  destruct (user _ _); [|done].
  destruct (quotaExceeded _ _); [done|].
  cbn zeta. set (w2 := with_storedArticles _ _).
  set (w3 := match currentArticle (cms w) with Some _ => _ | None => _ end).
  assert (H3 : storedArticles w3
               = Stored (filter (fun a => id a <> articleId) (collection w))).
  { unfold w3. destruct (currentArticle (cms w)) as [c|]; [|done].
    destruct (String.eqb (id c) articleId); [|done].
    by destruct (newArticle_frame user w2) as (_ & _ & -> & _). }
  unfold collection at 1. cbn [snd storedArticles with_page with_cms].
  rewrite H3. cbn [parseStored]. by apply sorted_filter.
Qed.

Lemma deleteArticle_keeps_sorted_witness :
  let w := worldWith sampleEnv "auto" [freshArticle; newerArticle; olderArticle] in
  sortedByUpdatedAtDesc (env w) (collection w) = true /\
  sortedByUpdatedAtDesc (env w)
    (collection (after (deleteArticle acceptAll (id newerArticle)) w)) = true.
Proof.
  intros w.
  assert (H : sortedByUpdatedAtDesc (env w) (collection w) = true) by reflexivity.
  split; [exact H|].
  exact (deleteArticle_keeps_sorted acceptAll w (id newerArticle) H).
Defined.

(** X16.  Deleting the article that is open: when nothing is unsaved or
    the user agrees to discard, the editor is reset; when the user keeps
    the unsaved changes, the deleted article stays open, although the
    collection no longer holds its id. *)
Theorem deleteArticle_current (user : nat -> string -> bool) (w : World)
    (k : nat) (article c : Article) :
  currentArticle (cms w) = Some c ->
  list_find (fun a => id a = id c) (articles (cms w)) = Some (k, article) ->
  user (tick w) (deleteQuestion article) = true ->
  quotaExceeded (env w) (S (tick w)) = false ->
  let w' := after (deleteArticle user (id c)) w in
  withId (id c) (collection w') = [] /\
  (isModified (cms w) = false \/ user (S (S (tick w))) newArticleQuestion = true ->
   currentArticle (cms w') = None /\ isModified (cms w') = false /\
   articleTitle (page w') = "") /\
  (isModified (cms w) = true -> user (S (S (tick w))) newArticleQuestion = false ->
   currentArticle (cms w') = Some c /\ isModified (cms w') = true /\
   articleTitle (page w') = articleTitle (page w) /\ quill (page w') = quill (page w)).
Proof.
  intros Hc Hfind Hu Hq w'.
  split.
  { unfold w'. rewrite (deleteArticle_stored user w (id c) k article Hfind Hu Hq).
    rewrite withId_filter_ne. by rewrite decide_True. }
  unfold w', after. rewrite deleteArticle_run, Hfind, Hu, Hq, Hc, String.eqb_refl.
  cbn zeta. set (w2 := with_storedArticles _ _). split.
  - intros H. destruct (newArticle_proceeds user w2 H) as (? & ? & ? & _). done.
  - intros Hm Hn. rewrite (newArticle_declined user w2 Hm Hn). cbn. by rewrite Hc.
Qed.

Lemma deleteArticle_current_witness :
  let w := mkWorld sampleEnv 0 (Stored [newerArticle; olderArticle]) None
             (mkCms [newerArticle; olderArticle] [newerArticle; olderArticle]
                (Some olderArticle) true "auto")
             (mkPage "Hose Care, revised" "Chief Ramos" "Training" "" "2024-01-05"
                (Some (mkQuillDoc "<p>Dry the hose twice.</p>" "Dry the hose twice."))
                [] "") in
  currentArticle (cms w) = Some olderArticle /\
  list_find (fun a => id a = id olderArticle) (articles (cms w)) = Some (1, olderArticle) /\
  deleteOnly (tick w) (deleteQuestion olderArticle) = true /\
  quotaExceeded (env w) (S (tick w)) = false /\
  isModified (cms w) = true /\
  deleteOnly (S (S (tick w))) newArticleQuestion = false /\
  withId (id olderArticle) (collection (after (deleteArticle deleteOnly (id olderArticle)) w))
    = [] /\
  currentArticle (cms (after (deleteArticle deleteOnly (id olderArticle)) w))
    = Some olderArticle.
Proof.
  intros w.
  assert (H1 : currentArticle (cms w) = Some olderArticle) by reflexivity.
  assert (H2 : list_find (fun a => id a = id olderArticle) (articles (cms w))
               = Some (1, olderArticle)) by reflexivity.
  assert (H3 : deleteOnly (tick w) (deleteQuestion olderArticle) = true) by reflexivity.
  assert (H4 : quotaExceeded (env w) (S (tick w)) = false) by reflexivity.
  assert (H5 : isModified (cms w) = true) by reflexivity.
  assert (H6 : deleteOnly (S (S (tick w))) newArticleQuestion = false) by reflexivity.
  destruct (deleteArticle_current deleteOnly w 1 olderArticle olderArticle H1 H2 H3 H4)
    as (Hn & _ & Hkept).
  do 6 (split; [done|]). split; [exact Hn|]. exact (proj1 (Hkept H5 H6)).
Defined.

(** ** Searching the list *)

Lemma filter_sublist (f : Article -> bool) (l : list Article) :
  sublist (List.filter f l) l.
Proof.
  induction l as [|a l IH]; simpl; [constructor|].
  destruct (f a); by constructor.
Qed.

Lemma filter_all (f : Article -> bool) (l : list Article) :
  (forall a, f a = true) -> List.filter f l = l.
Proof. intros H. induction l as [|a l IH]; simpl; [done|]. by rewrite H, IH. Qed.

(** X17.  [filterArticles] shows a sub-list of [this.articles], in the
    same order; with a category chosen every article shown has exactly
    that category; with an empty search box and no category every
    article is shown.  The articles, the collection, the session and the
    form are not changed. *)
Theorem filterArticles_sublist (articleSearch categoryFilter : string) (w : World) :
  let w' := after (filterArticles articleSearch categoryFilter) w in
  sublist (filteredArticles (cms w')) (articles (cms w)) /\
  (categoryFilter <> "" ->
   Forall (fun a => category a = categoryFilter) (filteredArticles (cms w'))) /\
  (articleSearch = "" -> categoryFilter = "" ->
   filteredArticles (cms w') = articles (cms w)) /\
  articles (cms w') = articles (cms w) /\
  currentArticle (cms w') = currentArticle (cms w) /\
  isModified (cms w') = isModified (cms w) /\
  storedArticles w' = storedArticles w /\ page w' = page w.
Proof.
  intros w'. unfold w', after, filterArticles. cbn.
  split; [apply filter_sublist|]. split; [|split; [|done]].
  - intros Hc. apply Forall_forall. intros a Ha%list_elem_of_In.
    apply filter_In in Ha as [_ Ha]. apply andb_true_iff in Ha as [_ Ha].
    unfold matchesCategory in Ha. apply truthy_true in Hc. rewrite Hc in Ha.
    by apply String.eqb_eq in Ha.
  - intros -> ->. by apply filter_all.
Qed.

Lemma filterArticles_sublist_witness :
  let w := worldWith sampleEnv "auto" [freshArticle; newerArticle; olderArticle] in
  "Training" <> "" /\
  filteredArticles (cms (after (filterArticles "hose" "Training") w)) = [olderArticle] /\
  sublist (filteredArticles (cms (after (filterArticles "hose" "Training") w)))
    (articles (cms w)) /\
  Forall (fun a => category a = "Training")
    (filteredArticles (cms (after (filterArticles "hose" "Training") w))) /\
  filteredArticles (cms (after (filterArticles "" "") w)) = articles (cms w).
Proof.
  intros w.
  assert (H : "Training" <> "") by discriminate.
  destruct (filterArticles_sublist "hose" "Training" w) as (Hs & Hc & _).
  destruct (filterArticles_sublist "" "" w) as (_ & _ & Hall & _).
  split; [exact H|]. split; [reflexivity|]. split; [exact Hs|].
  split; [exact (Hc H) | exact (Hall eq_refl eq_refl)].
Defined.

Lemma isPrefix_map (f : ascii -> ascii) (a b : list ascii) :
  isPrefix a b = true -> isPrefix (map f a) (map f b) = true.
Proof.
  revert b. induction a as [|x a IH]; intros [|y b]; simpl; try done.
  intros [Hx Ha]%andb_true_iff. apply Ascii.eqb_eq in Hx as ->.
  by rewrite Ascii.eqb_refl, IH.
Qed.

Lemma occursIn_map (f : ascii -> ascii) (t s : list ascii) :
  occursIn t s = true -> occursIn (map f t) (map f s) = true.
Proof.
  induction s as [|c s IH]; simpl.
  - rewrite !orb_false_r. apply (isPrefix_map f t []).
  - intros [H|H]%orb_true_iff; apply orb_true_iff;
      [left; by apply (isPrefix_map f t (c :: s)) | right; by apply IH].
Qed.

Lemma includes_toLowerCase (s t : string) :
  includes s t = true -> includes (toLowerCase s) (toLowerCase t) = true.
Proof.
  unfold includes, toLowerCase. rewrite !list_ascii_of_string_of_list_ascii.
  apply occursIn_map.
Qed.

(** X18.  On titles and search texts of code units below U+0100, where
    [toLowerCase] maps each code unit on its own, the search ignores
    case: an article of [this.articles] whose title contains a text is
    shown when that text is searched in any casing, provided it passes
    the category filter. *)
Theorem filterArticles_finds_title (w : World) (article : Article)
    (text articleSearch categoryFilter : string) :
  article ∈ articles (cms w) ->
  includes (title article) text = true ->
  toLowerCase articleSearch = toLowerCase text ->
  categoryFilter = "" \/ category article = categoryFilter ->
  article ∈ filteredArticles (cms (after (filterArticles articleSearch categoryFilter) w)).
Proof.
  intros Hin Ht Hs Hc. unfold after, filterArticles. cbn.
  apply list_elem_of_In, filter_In. split; [by apply list_elem_of_In|].
  apply andb_true_iff. split.
  - unfold matchesSearch. rewrite Hs, (includes_toLowerCase _ _ Ht).
    by rewrite orb_true_r.
  - unfold matchesCategory. destruct Hc as [-> | <-]; [done|].
    by rewrite String.eqb_refl, orb_true_r.
Qed.

Lemma filterArticles_finds_title_witness :
  let w := worldWith sampleEnv "auto" [newerArticle; olderArticle] in
  newerArticle ∈ articles (cms w) /\
  includes (title newerArticle) "Safety" = true /\
  toLowerCase "SAFETY" = toLowerCase "Safety" /\
  ("Training" = "" \/ category newerArticle = "Training") /\
  newerArticle ∈ filteredArticles (cms (after (filterArticles "SAFETY" "Training") w)).
Proof.
  intros w.
  assert (H1 : newerArticle ∈ articles (cms w)) by (left).
  assert (H2 : includes (title newerArticle) "Safety" = true) by reflexivity.
  assert (H3 : toLowerCase "SAFETY" = toLowerCase "Safety") by reflexivity.
  assert (H4 : "Training" = "" \/ category newerArticle = "Training")
    by (right; reflexivity).
  do 4 (split; [done|]).
  exact (filterArticles_finds_title w newerArticle "Safety" "SAFETY" "Training" H1 H2 H3 H4).
Defined.

(** ** Drafts *)

Lemma performAutoSave_run (w : World) :
  performAutoSave w =
    let p := page w in
    let data :=
      mkArticleData (articleTitle p) (articleAuthor p) (articleCategory p)
        (articleSummary p) (publicationDateInput p) (editorText w)
        (match quill p with Some q => innerHTML q | None => "" end)
        (calculateWordCount (editorText w)) in
    if truthy (trim (articleTitle p)) || truthy (trim (editorText w)) then
      if quotaExceeded (env w) (S (tick w))
      then (Normal tt, with_tick (S (S (tick w))) w)
      else (Normal tt,
            with_page (with_lastSaved "Auto-saved" p)
              (with_autoSaved (Some (mkAutoSave data (isoNow (env w) (tick w))))
                 (with_tick (S (S (tick w))) w)))
    else (Normal tt, w).
Proof.
  unfold performAutoSave, gatherArticleData, newDateISO, setAutoSaved, updateStatus,
    editorText.
  rewrite gets_bind.
  cbn [d_title d_content d_author d_category d_summary d_publicationDate
       d_htmlContent d_wordCount].
  destruct (truthy _ || truthy _); [|reflexivity].
  rewrite ask_bind. unfold try_catch. rewrite bind_run, ask_bind.
  cbn [tick with_tick env]. by destruct (quotaExceeded (env w) (S (tick w))).
Qed.

(** X19.  [performAutoSave] never throws and never touches the
    collection or the session.  With a blank title and a blank text it
    does nothing at all; otherwise, when the write is accepted, the draft
    slot holds what the form and the editor show, stamped with the
    clock; when the write is refused the old draft stays. *)
Theorem performAutoSave_draft (w : World) :
  let w' := after performAutoSave w in
  result performAutoSave w = Normal tt /\
  storedArticles w' = storedArticles w /\ cms w' = cms w /\
  (trim (articleTitle (page w)) = "" -> trim (editorText w) = "" -> w' = w) /\
  (trim (articleTitle (page w)) <> "" \/ trim (editorText w) <> "" ->
   if quotaExceeded (env w) (S (tick w))
   then autoSaved w' = autoSaved w
   else exists data : ArticleData,
          autoSaved w' = Some (mkAutoSave data (isoNow (env w) (tick w))) /\
          d_title data = articleTitle (page w) /\
          d_author data = articleAuthor (page w) /\
          d_category data = articleCategory (page w) /\
          d_summary data = articleSummary (page w) /\
          d_publicationDate data = publicationDateInput (page w) /\
          d_content data = editorText w /\
          d_wordCount data = calculateWordCount (editorText w)).
Proof.
  intros w'. unfold w', after, result. rewrite performAutoSave_run. cbn zeta.
  destruct (truthy (trim (articleTitle (page w)))) eqn:Ht;
    destruct (truthy (trim (editorText w))) eqn:Hx; cbn [orb];
    destruct (quotaExceeded (env w) (S (tick w))); cbn [fst snd];
    (split; [done|]); (split; [done|]); (split; [done|]); split;
    try (intros H1 H2; rewrite ?H1, ?H2 in *; done);
    try (intros _; done);
    try (intros _; eexists; repeat split; reflexivity).
  all: apply truthy_false in Ht, Hx; by intros [?|?].
Qed.

Lemma performAutoSave_draft_witness :
  (trim (articleTitle (page savingWorld)) <> "" \/ trim (editorText savingWorld) <> "") /\
  quotaExceeded (env savingWorld) (S (tick savingWorld)) = false /\
  exists data : ArticleData,
    autoSaved (after performAutoSave savingWorld)
      = Some (mkAutoSave data "2024-01-15T10:30:00.000Z") /\
    d_title data = "Safety Drill" /\ d_content data = "Check equipment. ".
Proof.
  assert (H : trim (articleTitle (page savingWorld)) <> "" \/
              trim (editorText savingWorld) <> "") by (left; vm_compute; discriminate).
  split; [exact H|]. split; [reflexivity|].
  destruct (performAutoSave_draft savingWorld) as (_ & _ & _ & _ & Hd).
  specialize (Hd H). cbn [quotaExceeded sampleEnv env savingWorld] in Hd.
  destruct Hd as (data & Ha & Ht & _ & _ & _ & _ & Hc & _).
  exists data. split; [exact Ha|]. split; [exact Ht | exact Hc].
Defined.

Lemma loadAutoSavedContent_run (user : nat -> string -> bool) (w : World) :
  loadAutoSavedContent user w =
    match autoSaved w with
    | None => (Normal tt, w)
    | Some autoSave =>
        let data := as_data autoSave in
        let w1 := with_tick (S (tick w)) w in
        if recentDraft (env w) (dateNow (env w) (tick w)) autoSave && meaningfulDraft data
        then
          if user (S (tick w)) restoreDraftQuestion then
            let w2 := with_tick (S (S (tick w))) w in
            let today := if truthy (d_publicationDate data) then d_publicationDate data
                         else beforeT (isoNow (env w) (S (S (tick w)))) in
            let w3 := if truthy (d_publicationDate data) then w2
                      else with_tick (S (S (S (tick w)))) w in
            let q :=
              match quill (page w) with
              | Some q0 =>
                  if truthy (d_htmlContent data)
                  then Some (quillFromHTML (env w) (d_htmlContent data))
                  else if truthy (d_content data)
                       then Some (quillFromText (env w) (d_content data))
                       else Some q0
              | None => None
              end in
            (Normal tt,
             with_page
               (with_notification ("Auto-saved content restored", "info")
                  (with_fields (d_title data) (d_author data) (d_category data)
                     (d_summary data) today q (page w)))
               (with_cms (with_isModified true (cms w)) w3))
          else (Normal tt, with_tick (S (S (tick w))) w)
        else (Normal tt, w1)
    end.
Proof.
  unfold loadAutoSavedContent, try_catch. rewrite gets_bind.
  destruct (autoSaved w) as [autoSave|]; [|reflexivity].
  cbn zeta. rewrite gets_bind, ask_bind.
  destruct (recentDraft _ _ _ && meaningfulDraft _); [|reflexivity].
  unfold confirmMessage. rewrite ask_bind. cbn [tick with_tick].
  destruct (user (S (tick w)) restoreDraftQuestion); [|reflexivity].
  destruct (truthy (d_publicationDate (as_data autoSave))); reflexivity.
Qed.

(** X20.  A draft is never restored behind the user's back: when its
    timestamp is invalid or 24 hours old or older, when its title and
    text are blank, or when the user declines, [loadAutoSavedContent]
    leaves the form, the editor and the session as they are, and the
    draft stays in its slot. *)
Theorem loadAutoSavedContent_ignores (user : nat -> string -> bool) (w : World)
    (autoSave : AutoSave) :
  autoSaved w = Some autoSave ->
  (match dateValue (env w) (as_timestamp autoSave) with
   | Some autoSaveTime => (86400000 <= dateNow (env w) (tick w) - autoSaveTime)%Z
   | None => True
   end) \/
  (trim (d_title (as_data autoSave)) = "" /\ trim (d_content (as_data autoSave)) = "") \/
  user (S (tick w)) restoreDraftQuestion = false ->
  let w' := after (loadAutoSavedContent user) w in
  result (loadAutoSavedContent user) w = Normal tt /\
  page w' = page w /\ cms w' = cms w /\
  autoSaved w' = Some autoSave /\ storedArticles w' = storedArticles w.
Proof.
  intros Hd H w'. unfold w', after, result. rewrite loadAutoSavedContent_run, Hd.
  cbn zeta.
  destruct (recentDraft _ _ _ && meaningfulDraft _) eqn:Hcond; [|done].
  destruct (user (S (tick w)) restoreDraftQuestion) eqn:Hu; [|done].
  exfalso. apply andb_true_iff in Hcond as [Hr Hm].
  destruct H as [H|[[H1 H2]|H]]; [| |done].
  - unfold recentDraft in Hr.
    destruct (dateValue (env w) (as_timestamp autoSave)); [|done].
    apply Z.ltb_lt in Hr. lia.
  - unfold meaningfulDraft in Hm. by rewrite H1, H2 in Hm.
Qed.

Lemma loadAutoSavedContent_ignores_witness :
  let w := mkWorld agreeingEnv 0 Absent
             (Some (mkAutoSave safetyDrill "2024-01-14T10:30:00.000Z"))
             (mkCms [] [] None false "auto") emptyPage in
  autoSaved w = Some (mkAutoSave safetyDrill "2024-01-14T10:30:00.000Z") /\
  dateValue (env w) "2024-01-14T10:30:00.000Z" = Some 1705228200000%Z /\
  (86400000 <= dateNow (env w) (tick w) - 1705228200000)%Z /\
  page (after (loadAutoSavedContent acceptAll) w) = page w /\
  autoSaved (after (loadAutoSavedContent acceptAll) w) = autoSaved w.
Proof.
  intros w.
  assert (H1 : autoSaved w = Some (mkAutoSave safetyDrill "2024-01-14T10:30:00.000Z"))
    by reflexivity.
  assert (H2 : dateValue (env w) "2024-01-14T10:30:00.000Z" = Some 1705228200000%Z)
    by (vm_compute; reflexivity).
  assert (H3 : (86400000 <= dateNow (env w) (tick w) - 1705228200000)%Z)
    by (vm_compute; discriminate).
  destruct (loadAutoSavedContent_ignores acceptAll w _ H1) as (_ & Hp & _ & Ha & _).
  { left. cbn [as_timestamp]. rewrite H2. exact H3. }
  do 3 (split; [done|]). split; [exact Hp | exact Ha].
Defined.

(** X21.  A draft less than 24 hours old with a title or a text, once
    the user accepts it, fills the form with its fields and marks the
    session as modified; the current article, the collection and the
    draft slot are unchanged. *)
Theorem loadAutoSavedContent_restores (user : nat -> string -> bool) (w : World)
    (autoSave : AutoSave) (autoSaveTime : Z) :
  autoSaved w = Some autoSave ->
  dateValue (env w) (as_timestamp autoSave) = Some autoSaveTime ->
  (dateNow (env w) (tick w) - autoSaveTime < 86400000)%Z ->
  trim (d_title (as_data autoSave)) <> "" \/ trim (d_content (as_data autoSave)) <> "" ->
  user (S (tick w)) restoreDraftQuestion = true ->
  let w' := after (loadAutoSavedContent user) w in
  let data := as_data autoSave in
  articleTitle (page w') = d_title data /\
  articleAuthor (page w') = d_author data /\
  articleCategory (page w') = d_category data /\
  articleSummary (page w') = d_summary data /\
  (d_publicationDate data <> "" -> publicationDateInput (page w') = d_publicationDate data) /\
  (forall q0, quill (page w) = Some q0 -> d_htmlContent data <> "" ->
     quill (page w') = Some (quillFromHTML (env w) (d_htmlContent data))) /\
  isModified (cms w') = true /\
  currentArticle (cms w') = currentArticle (cms w) /\
  autoSaved w' = Some autoSave /\ storedArticles w' = storedArticles w /\
  notifications (page w') = ("Auto-saved content restored", "info") :: notifications (page w).
Proof.
  intros Hd Ht Hlt Hm Hu w' data. unfold w', after.
  rewrite loadAutoSavedContent_run, Hd. cbn zeta. fold data.
  assert (Hr : recentDraft (env w) (dateNow (env w) (tick w)) autoSave = true).
  { unfold recentDraft. rewrite Ht. apply Z.ltb_lt. lia. }
  assert (Hm' : meaningfulDraft data = true).
  { unfold meaningfulDraft. apply orb_true_iff. by rewrite !truthy_true. }
  rewrite Hr, Hm', Hu. cbn [andb snd].
  repeat split; try done.
  - intros Hp%truthy_true. cbn. by rewrite Hp.
  - intros q0 Hq Hh%truthy_true. cbn. by rewrite Hq, Hh.
  - by destruct (truthy (d_publicationDate data)).
  - by destruct (truthy (d_publicationDate data)).
Qed.

Lemma loadAutoSavedContent_restores_witness :
  let w := mkWorld agreeingEnv 0 Absent
             (Some (mkAutoSave safetyDrillSigned "2024-01-15T09:30:00.000Z"))
             (mkCms [] [] None false "auto")
             (mkPage "" "" "" "" "" (Some (mkQuillDoc "" "")) [] "") in
  autoSaved w = Some (mkAutoSave safetyDrillSigned "2024-01-15T09:30:00.000Z") /\
  dateValue (env w) "2024-01-15T09:30:00.000Z" = Some 1705311000000%Z /\
  (dateNow (env w) (tick w) - 1705311000000 < 86400000)%Z /\
  (trim (d_title safetyDrillSigned) <> "" \/ trim (d_content safetyDrillSigned) <> "") /\
  acceptAll (S (tick w)) restoreDraftQuestion = true /\
  articleTitle (page (after (loadAutoSavedContent acceptAll) w)) = "Safety Drill" /\
  isModified (cms (after (loadAutoSavedContent acceptAll) w)) = true.
Proof.
  intros w.
  assert (H1 : autoSaved w = Some (mkAutoSave safetyDrillSigned "2024-01-15T09:30:00.000Z"))
    by reflexivity.
  assert (H2 : dateValue (env w) "2024-01-15T09:30:00.000Z" = Some 1705311000000%Z)
    by (vm_compute; reflexivity).
  assert (H3 : (dateNow (env w) (tick w) - 1705311000000 < 86400000)%Z)
    by (vm_compute; reflexivity).
  assert (H4 : trim (d_title safetyDrillSigned) <> "" \/
               trim (d_content safetyDrillSigned) <> "") by (left; vm_compute; discriminate).
  assert (H5 : acceptAll (S (tick w)) restoreDraftQuestion = true) by reflexivity.
  destruct (loadAutoSavedContent_restores acceptAll w _ _ H1 H2 H3 H4 H5)
    as (Ht & _ & _ & _ & _ & _ & Hm & _).
  do 5 (split; [done|]). split; [exact Ht | exact Hm].
Defined.

(** ** Article ids *)

(** X22.  Two generated ids are the same only when both the clock
    reading and the random suffix are the same; every id starts with
    [article_]. *)
Theorem generateArticleId_injective (w1 w2 : World) :
  (result generateArticleId w1 = result generateArticleId w2 <->
   dateNow (env w1) (tick w1) = dateNow (env w2) (tick w2) /\
   randomSuffix (env w1) (S (tick w1)) = randomSuffix (env w2) (S (tick w2))) /\
  exists rest, result generateArticleId w1 = Normal ("article_" +:+ rest).
Proof.
  unfold result, generateArticleId. rewrite !ask_bind. cbn. split; [|eauto].
  split.
  - intros [= Heq].
    assert (Ht : pretty (dateNow (env w1) (tick w1)) = pretty (dateNow (env w2) (tick w2))).
    { eapply underscore_splits; [apply noUnderscore_pretty_Z.. | exact Heq]. }
    rewrite Ht in Heq. apply (inj (String.app _)) in Heq.
    apply (inj pretty) in Ht. by injection Heq.
  - by intros [-> ->].
Qed.

(** ** Ids that are not in the list *)

(** X23.  Loading, deleting or duplicating with an id that is not in
    [this.articles] only reports [Article not found]: no dialog is
    shown, and the collection, the session and the form stay as they
    are. *)
Theorem unknown_id_only_reported (user : nat -> string -> bool) (w : World)
    (articleId : string) :
  Forall (fun a => id a <> articleId) (articles (cms w)) ->
  let reported :=
    with_page (with_notification ("Article not found", "error") (page w)) w in
  after (loadArticleById articleId) w = reported /\
  after (deleteArticle user articleId) w = reported /\
  after (duplicateArticle articleId) w = reported.
Proof.
  intros H reported. apply (list_find_None (fun a => id a = articleId)) in H.
  unfold after. rewrite deleteArticle_run.
  unfold loadArticleById, duplicateArticle, try_catch. rewrite !gets_bind, H. done.
Qed.

Lemma unknown_id_only_reported_witness :
  let w := worldWith sampleEnv "auto" [newerArticle; olderArticle] in
  Forall (fun a => id a <> "article_0_none") (articles (cms w)) /\
  cms (after (deleteArticle acceptAll "article_0_none") w) = cms w /\
  storedArticles (after (deleteArticle acceptAll "article_0_none") w) = storedArticles w /\
  notifications (page (after (deleteArticle acceptAll "article_0_none") w))
    = [("Article not found", "error")].
Proof.
  intros w.
  assert (H : Forall (fun a => id a <> "article_0_none") (articles (cms w))).
  { repeat constructor; discriminate. }
  split; [exact H|].
  destruct (unknown_id_only_reported acceptAll w "article_0_none" H) as (_ & -> & _).
  repeat split; reflexivity.
Defined.

(** ** Backup, then restore *)

(** X24.  The object [backupAllArticles] hands to the download holds
    [this.articles]; restoring it, once the user agrees and the write is
    accepted, makes the stored collection and the in-memory list equal
    to the articles that were backed up, in the same order.  The file is
    named after the day of the backup. *)
Theorem backupAllArticles_then_restore (w : World) :
  exists backup : JSValue,
    result backupAllArticles w
      = Normal (Some (backup,
                      "blog-backup-" +:+ substring 0 10 (isoNow (env w) (S (tick w)))
                      +:+ ".json")) /\
    articles (cms (after backupAllArticles w)) = articles (cms w) /\
    storedArticles (after backupAllArticles w) = storedArticles w /\
    forall w2 : World,
      confirmAnswer (env w2) (tick w2) (AskRestore (length (articles (cms w)))) = true ->
      quotaExceeded (env w2) (S (tick w2)) = false ->
      collection (after (restoreFromBackup (Json backup)) w2) = articles (cms w) /\
      articles (cms (after (restoreFromBackup (Json backup)) w2)) = articles (cms w).
Proof.
  exists (backupObject (articles (cms w)) (isoNow (env w) (tick w))).
  split; [reflexivity|]. split; [reflexivity|]. split; [reflexivity|].
  intros w2 Hc Hq. unfold after, collection. rewrite restoreFromBackup_unfold.
  assert (Ha : articlesArray (Json (backupObject (articles (cms w))
                                      (isoNow (env w) (tick w))))
               = Some (articles (cms w))) by reflexivity.
  rewrite Ha, Hc.
  unfold try_catch, setStoredArticles, loadArticles, getStoredArticles, showNotification.
  rewrite bind_run, ask_bind. cbn [tick with_tick env]. rewrite Hq. done.
Qed.

(** ** After a save *)

Lemma generateArticleId_bind {B : Type} (k : string -> M B) (w : World) :
  (generateArticleId ≫= k) w =
    k ("article_" +:+ pretty (dateNow (env w) (tick w)) +:+ "_"
       +:+ randomSuffix (env w) (S (tick w)))
      (with_tick (S (S (tick w))) w).
Proof. reflexivity. Qed.

(** The tail of [saveArticle] once the record is built, in a world that
    differs from the starting one by its tick only. *)
Lemma saveArticle_tail (article : Article) (w1 : World) :
  conflictResolution (cms w1) = "auto" ->
  quotaExceeded (env w1) (tick w1) = false ->
  let w' :=
    ((saved ← saveToStorage article;
      if saved : bool then
        modify (fun w =>
          with_cms (with_isModified false (with_currentArticle (Some article) (cms w))) w);;
        updateStatus "saved";;
        showNotification "Article saved successfully!" "success"
      else mret tt) w1).2 in
  currentArticle (cms w') = Some article /\ isModified (cms w') = false /\
  autoSaved w' = None /\ article ∈ collection w' /\
  articles (cms w') = collection w' /\
  exists earlier,
    notifications (page w') = ("Article saved successfully!", "success") :: earlier.
Proof.
  intros Hp Hq. rewrite bind_run.
  destruct (saveToStorage_auto article w1 Hp Hq) as [Hr _].
  destruct (saveToStorage_true article w1 Hr) as (Hs & Ha & _ & Hd).
  unfold result, after in Hr, Hs, Ha, Hd.
  destruct (saveToStorage article w1) as [r w2]. simpl in Hr, Hs, Ha, Hd. subst r.
  unfold updateStatus, showNotification. run. unfold collection. simpl.
  rewrite Hs, Ha. simpl. repeat split; try done; [|eauto].
  rewrite arraySort_perm. apply putArticle_In.
Qed.

(** [saveArticle] on a form that passes validation: the record it
    builds and the world in which it is put. *)
Lemma saveArticle_builds_record (w : World) :
  trim (articleTitle (page w)) <> "" -> trim (editorText w) <> "" ->
  exists (article : Article) (w1 : World),
    saveArticle w =
      (saved ← saveToStorage article;
       if saved : bool then
         modify (fun w =>
           with_cms (with_isModified false (with_currentArticle (Some article) (cms w))) w);;
         updateStatus "saved";;
         showNotification "Article saved successfully!" "success"
       else mret tt) w1 /\
    env w1 = env w /\ cms w1 = cms w /\
    title article = articleTitle (page w) /\ content article = editorText w /\
    wordCount article = calculateWordCount (editorText w).
Proof.
  intros Ht Hx. apply truthy_true in Ht, Hx. unfold editorText in *.
  unfold saveArticle, gatherArticleData, newDateISO.
  rewrite gets_bind. cbn [d_title d_content d_author d_category d_summary
    d_publicationDate d_htmlContent d_wordCount].
  rewrite Ht, Hx. cbn [negb]. rewrite gets_bind.
  destruct (currentArticle (cms w)) as [c|];
    [destruct (truthy (id c)); destruct (truthy (createdAt c))|];
    rewrite ?ret_bind, ?generateArticleId_bind, ?ask_bind;
    cbn [tick with_tick env];
    do 2 eexists; (split; [reflexivity|]); repeat split; reflexivity.
Qed.

(** X25.  A save that passes validation under the [auto] policy, with
    room in the storage, stores the form as the current article, leaves
    the session unmodified and the draft slot empty; the auto-save timer
    then does nothing until the next edit. *)
Theorem saveArticle_then_autoSaveTimer (w : World) :
  trim (articleTitle (page w)) <> "" -> trim (editorText w) <> "" ->
  conflictResolution (cms w) = "auto" ->
  (forall n, quotaExceeded (env w) n = false) ->
  let w' := after saveArticle w in
  (exists saved : Article,
     currentArticle (cms w') = Some saved /\ saved ∈ collection w' /\
     title saved = articleTitle (page w) /\ content saved = editorText w /\
     wordCount saved = calculateWordCount (editorText w)) /\
  isModified (cms w') = false /\
  autoSaved w' = None /\
  articles (cms w') = collection w' /\
  after autoSaveTimer w' = w'.
Proof.
  intros Ht Hx Hp Hq w'.
  destruct (saveArticle_builds_record w Ht Hx) as (article & w1 & Hrun & He & Hc & H1 & H2 & H3).
  destruct (saveArticle_tail article w1) as (H4 & H5 & H6 & H7 & H8 & _).
  { by rewrite Hc. }
  { rewrite He. apply Hq. }
  rewrite <- Hrun in H4, H5, H6, H7, H8. fold (after saveArticle w) in H4, H5, H6, H7, H8.
  fold w' in H4, H5, H6, H7, H8.
  split; [by exists article|]. repeat split; try done.
  unfold after, autoSaveTimer. by rewrite gets_bind, H5.
Qed.

Lemma saveArticle_then_autoSaveTimer_witness :
  trim (articleTitle (page savingWorld)) <> "" /\ trim (editorText savingWorld) <> "" /\
  conflictResolution (cms savingWorld) = "auto" /\
  (forall n, quotaExceeded (env savingWorld) n = false) /\
  isModified (cms (after saveArticle savingWorld)) = false /\
  autoSaved (after saveArticle savingWorld) = None /\
  after autoSaveTimer (after saveArticle savingWorld) = after saveArticle savingWorld.
Proof.
  assert (H1 : trim (articleTitle (page savingWorld)) <> "") by (vm_compute; discriminate).
  assert (H2 : trim (editorText savingWorld) <> "") by (vm_compute; discriminate).
  assert (H3 : conflictResolution (cms savingWorld) = "auto") by reflexivity.
  assert (H4 : forall n, quotaExceeded (env savingWorld) n = false) by reflexivity.
  destruct (saveArticle_then_autoSaveTimer savingWorld H1 H2 H3 H4)
    as (_ & Hm & Hd & _ & Ht).
  do 4 (split; [done|]). split; [exact Hm|]. split; [exact Hd | exact Ht].
Defined.

(** ** Importing a text file *)

Lemma split_go_none (m : list ascii -> option (nat * list ascii)) (cur s : list ascii) :
  (forall a t, s = a ++ t -> m t = None) ->
  split_go m 0 cur s = [rev cur ++ s].
Proof.
  revert cur. induction s as [|c s IH]; intros cur H; simpl.
  - by rewrite app_nil_r.
  - rewrite (H [] (c :: s) eq_refl), IH.
    + simpl. by rewrite <- app_assoc.
    + intros a t ->. by apply (H (c :: a) t).
Qed.

Lemma importedLines_whole (content : string) :
  nowhere (chars importSeparator) (chars content) -> importedLines content = [content].
Proof.
  intros H. unfold importedLines, split.
  destruct (chars content) as [|c s] eqn:Hc.
  - cbn. apply (f_equal str) in Hc. rewrite string_of_list_ascii_of_string in Hc.
    by rewrite Hc.
  - rewrite split_go_none.
    + cbn [rev app map]. by rewrite <- Hc, string_of_list_ascii_of_string.
    + intros a t Hs. apply lit_no_match. apply (nowhere_isPrefix _ a). by rewrite <- Hs.
Qed.

(** X26.  The import cuts the file at the two characters backslash and
    n, not at line feeds: a file that holds no such pair, however many
    lines it has, goes whole into the title and leaves the text empty. *)
Theorem importFromText_whole_file_in_title (content : string) :
  nowhere (chars importSeparator) (chars content) ->
  importedTitle content = (if truthy content then content else "Imported Article") /\
  importedText content = "".
Proof.
  intros H. unfold importedTitle, importedText. by rewrite importedLines_whole.
Qed.

Lemma importFromText_whole_file_in_title_witness :
  let content := "Hose Care" +:+ nl +:+ "Dry the hose." +:+ nl in
  ~ In "\"%char (chars content) /\
  importedTitle content = content /\ importedText content = "".
Proof.
  intros content.
  assert (H : ~ In "\"%char (chars content)) by (vm_compute; intuition discriminate).
  split; [exact H|].
  apply (importFromText_whole_file_in_title content).
  intros a b Heq. apply H. rewrite Heq. apply in_or_app. right. by left.
Defined.

(** X27.  The import goes ahead whatever the user answers to the
    unsaved-changes question: the title and the editor take the imported
    text and the session is marked modified.  After a refusal the
    current article and the other fields are the old ones; otherwise the
    form was cleared first.  The collection and the draft are never
    touched. *)
Theorem importFromText_goes_ahead (user : nat -> string -> bool) (w : World)
    (content : string) :
  let w' := after (importFromText user content) w in
  articleTitle (page w') = importedTitle content /\
  quill (page w') = match quill (page w) with
                    | Some _ => Some (quillFromText (env w) (importedText content))
                    | None => None
                    end /\
  isModified (cms w') = true /\
  (isModified (cms w) = true -> user (tick w) newArticleQuestion = false ->
   currentArticle (cms w') = currentArticle (cms w) /\
   articleAuthor (page w') = articleAuthor (page w) /\
   articleSummary (page w') = articleSummary (page w)) /\
  (isModified (cms w) = false \/ user (tick w) newArticleQuestion = true ->
   currentArticle (cms w') = None /\ articleAuthor (page w') = "" /\
   articleSummary (page w') = "") /\
  storedArticles w' = storedArticles w /\ autoSaved w' = autoSaved w.
Proof.
  intros w'. unfold w', after, importFromText, try_catch. cbn zeta.
  rewrite bind_run.
  destruct (newArticle_frame user w) as (Hr & He & Hs & Hd & _).
  pose proof (newArticle_proceeds user w) as Hyes.
  pose proof (newArticle_declined user w) as Hno.
  destruct (newArticle user w) as [r w1]. simpl in Hr, He, Hs, Hd, Hyes. subst r.
  unfold showNotification. run. rewrite He.
  split; [done|]. split; [|split; [done|split; [|split; [|done]]]].
  - destruct (isModified (cms w)) eqn:Hm.
    + destruct (user (tick w) newArticleQuestion) eqn:Hu.
      * destruct (Hyes (or_intror eq_refl)) as (_ & _ & _ & _ & _ & _ & -> & _).
        by destruct (quill (page w)).
      * by pose proof (Hno eq_refl eq_refl) as [= ->].
    + destruct (Hyes (or_introl eq_refl)) as (_ & _ & _ & _ & _ & _ & -> & _).
      by destruct (quill (page w)).
  - intros Hm Hu. by pose proof (Hno Hm Hu) as [= ->].
  - intros H. by destruct (Hyes H) as (? & _ & _ & ? & _ & ? & _).
Qed.

Lemma importFromText_goes_ahead_witness :
  let w := mkWorld sampleEnv 0 (Stored [newerArticle; olderArticle]) None
             (mkCms [newerArticle; olderArticle] [newerArticle; olderArticle]
                (Some olderArticle) true "auto")
             (mkPage "Hose Care" "Chief Ramos" "Training" "" "2024-01-05"
                (Some (mkQuillDoc "<p>Dry the hose.</p>" "Dry the hose.")) [] "") in
  isModified (cms w) = true /\ declineAll (tick w) newArticleQuestion = false /\
  articleTitle (page (after (importFromText declineAll "Pump Test\nRun the pump.") w))
    = "Pump Test" /\
  currentArticle (cms (after (importFromText declineAll "Pump Test\nRun the pump.") w))
    = Some olderArticle.
Proof.
  intros w.
  assert (H1 : isModified (cms w) = true) by reflexivity.
  assert (H2 : declineAll (tick w) newArticleQuestion = false) by reflexivity.
  destruct (importFromText_goes_ahead declineAll w "Pump Test\nRun the pump.")
    as (Ht & _ & _ & Hkept & _).
  do 2 (split; [done|]). split; [rewrite Ht; reflexivity|].
  exact (proj1 (Hkept H1 H2)).
Defined.

(** ** A draft comes back *)

(** X28.  What [performAutoSave] wrote is what [loadAutoSavedContent]
    puts back: once a draft of a form with a title or a text has been
    written, any later session that finds it in the slot less than 24
    hours after its timestamp and whose user accepts it shows the title,
    author, category and summary that were on the form, and is marked
    modified. *)
Theorem draft_round_trip (user : nat -> string -> bool) (w later : World)
    (autoSaveTime : Z) :
  trim (articleTitle (page w)) <> "" \/ trim (editorText w) <> "" ->
  quotaExceeded (env w) (S (tick w)) = false ->
  autoSaved later = autoSaved (after performAutoSave w) ->
  dateValue (env later) (isoNow (env w) (tick w)) = Some autoSaveTime ->
  (dateNow (env later) (tick later) - autoSaveTime < 86400000)%Z ->
  user (S (tick later)) restoreDraftQuestion = true ->
  let w' := after (loadAutoSavedContent user) later in
  articleTitle (page w') = articleTitle (page w) /\
  articleAuthor (page w') = articleAuthor (page w) /\
  articleCategory (page w') = articleCategory (page w) /\
  articleSummary (page w') = articleSummary (page w) /\
  isModified (cms w') = true.
Proof.
  intros Hm Hq Hslot Ht Hlt Hu w'.
  unfold after in Hslot. rewrite performAutoSave_run in Hslot. cbn zeta in Hslot.
  assert (Hm' : truthy (trim (articleTitle (page w))) || truthy (trim (editorText w))
                = true).
  { apply orb_true_iff. by rewrite !truthy_true. }
  rewrite Hm', Hq in Hslot. cbn [snd autoSaved with_page with_autoSaved] in Hslot.
  unfold w', after. rewrite loadAutoSavedContent_run, Hslot. cbn zeta.
  unfold recentDraft, meaningfulDraft. cbn [as_timestamp as_data d_title d_content].
  assert (Hr : (dateNow (env later) (tick later) - autoSaveTime
                <? 24 * (1000 * 60 * 60))%Z = true) by (apply Z.ltb_lt; lia).
  rewrite Ht, Hm', Hr, Hu. cbn [andb snd]. done.
Qed.

Lemma draft_round_trip_witness :
  let later := mkWorld agreeingEnv 0 (Stored [newerArticle; olderArticle])
                 (autoSaved (after performAutoSave savingWorld))
                 (mkCms [newerArticle; olderArticle] [newerArticle; olderArticle]
                    None false "auto")
                 (mkPage "" "" "" "" "" (Some (mkQuillDoc "" "")) [] "") in
  (trim (articleTitle (page savingWorld)) <> "" \/ trim (editorText savingWorld) <> "") /\
  quotaExceeded (env savingWorld) (S (tick savingWorld)) = false /\
  autoSaved later = autoSaved (after performAutoSave savingWorld) /\
  dateValue (env later) (isoNow (env savingWorld) (tick savingWorld))
    = Some 1705314600000%Z /\
  (dateNow (env later) (tick later) - 1705314600000 < 86400000)%Z /\
  acceptAll (S (tick later)) restoreDraftQuestion = true /\
  articleTitle (page (after (loadAutoSavedContent acceptAll) later)) = "Safety Drill" /\
  isModified (cms (after (loadAutoSavedContent acceptAll) later)) = true.
Proof.
  intros later.
  assert (H1 : trim (articleTitle (page savingWorld)) <> "" \/
               trim (editorText savingWorld) <> "") by (left; vm_compute; discriminate).
  assert (H2 : quotaExceeded (env savingWorld) (S (tick savingWorld)) = false)
    by reflexivity.
  assert (H3 : autoSaved later = autoSaved (after performAutoSave savingWorld))
    by reflexivity.
  assert (H4 : dateValue (env later) (isoNow (env savingWorld) (tick savingWorld))
               = Some 1705314600000%Z) by (vm_compute; reflexivity).
  assert (H5 : (dateNow (env later) (tick later) - 1705314600000 < 86400000)%Z)
    by (vm_compute; reflexivity).
  assert (H6 : acceptAll (S (tick later)) restoreDraftQuestion = true) by reflexivity.
  destruct (draft_round_trip acceptAll savingWorld later _ H1 H2 H3 H4 H5 H6)
    as (Ht & _ & _ & _ & Hm).
  do 6 (split; [done|]). split; [exact Ht | exact Hm].
Defined.

(** ** The copy of an article *)

Lemma generated_ids_equal (t1 t2 : Z) (s1 s2 : string) :
  "article_" +:+ pretty t1 +:+ "_" +:+ s1 = "article_" +:+ pretty t2 +:+ "_" +:+ s2 <->
  t1 = t2 /\ s1 = s2.
Proof.
  split; [|by intros [-> ->]]. intros Heq.
  apply (inj (String.app "article_")) in Heq.
  assert (Ht : pretty t1 = pretty t2).
  { eapply underscore_splits; [apply noUnderscore_pretty_Z.. | exact Heq]. }
  rewrite Ht in Heq. apply (inj (String.app _)) in Heq.
  apply (inj pretty) in Ht. by injection Heq.
Qed.

(** X29.  Duplicating the record found under an id builds a record
    titled [Copy of] followed by the original title, with the generated
    id [article_<clock>_<random>], which differs from the original's id
    unless that id was made of the very same clock reading and random
    suffix, with [createdAt] and [updatedAt] read from the clock, in
    that order, while the copy is built, and with the original's author,
    category, summary, publication date, content, HTML content and word
    count; once [saveToStorage] accepts it, it is in the collection. *)
Theorem duplicateArticle_copy (w : World) (articleId : string) (index : nat)
    (article : Article) :
  list_find (fun a => id a = articleId) (articles (cms w)) = Some (index, article) ->
  exists (duplicate : Article) (w' : World),
    buildDuplicate article w = (Normal duplicate, w') /\
    title duplicate = "Copy of " +:+ title article /\
    id duplicate = "article_" +:+ pretty (dateNow (env w) (tick w)) +:+ "_"
                     +:+ randomSuffix (env w) (S (tick w)) /\
    (forall (t : Z) (s : string),
       id article = "article_" +:+ pretty t +:+ "_" +:+ s ->
       (id duplicate = id article <->
        t = dateNow (env w) (tick w) /\ s = randomSuffix (env w) (S (tick w)))) /\
    createdAt duplicate = isoNow (env w) (2 + tick w) /\
    updatedAt duplicate = isoNow (env w) (3 + tick w) /\
    author duplicate = author article /\
    category duplicate = category article /\
    summary duplicate = summary article /\
    publicationDate duplicate = publicationDate article /\
    content duplicate = content article /\
    htmlContent duplicate = htmlContent article /\
    wordCount duplicate = wordCount article /\
    (result (saveToStorage duplicate) w' = Normal true ->
     duplicate ∈ collection (after (duplicateArticle articleId) w)).
Proof.
  intros Hfind.
  pose proof (buildDuplicate_run article w) as Hbuild.
  set (duplicate := mkArticle _ _ _ _ _ _ _ _ _ _ _) in Hbuild.
  set (w' := with_tick (4 + tick w) w) in Hbuild.
  exists duplicate, w'. split; [exact Hbuild|].
  do 2 (split; [reflexivity|]).
  split.
  { intros t s Hid. rewrite Hid. cbn [id duplicate].
    rewrite generated_ids_equal. split; intros [? ?]; by split. }
  do 9 (split; [reflexivity|]).
  intros Hsaved.
  rewrite (duplicateArticle_stores w w' articleId index article duplicate
             Hfind Hbuild Hsaved).
  rewrite arraySort_perm. apply putArticle_In.
Qed.

Lemma duplicateArticle_copy_witness :
  let w := worldWith sampleEnv "auto" [newerArticle; olderArticle] in
  list_find (fun a => id a = id olderArticle) (articles (cms w))
    = Some (1, olderArticle) /\
  id hoseCareCopy <> id olderArticle /\
  hoseCareCopy ∈ collection (after (duplicateArticle (id olderArticle)) w).
Proof.
  intros w. split; [reflexivity|].
  destruct (duplicateArticle_copy w (id olderArticle) 1 olderArticle eq_refl)
    as (duplicate & w' & Hb & _ & _ & Hfresh & _ & _ & _ & _ & _ & _ & _ & _ & _ & Hin).
  injection Hb as <- <-.
  split.
  - intros Heq.
    apply (Hfresh 1704067200000%Z "aaaaaaaaa" eq_refl) in Heq as [Heq _]. discriminate.
  - apply Hin. reflexivity.
Defined.
